(** * SimpleHTTP: a shallow embedding of [src/simplehttp.hpp]

    The development follows the header file: the descriptor wrapper
    ([internal::FileDescriptor]), the cursor buffer ([internal::Buffer]),
    the body reader, the request and response objects, and [Server]: the
    constructor for the network stack, the request parser and the response
    serializer, the three stage steps, and the event loop of [Serve] with
    [Kill].

    Conventions.
    - A C++ [int] is a [Z]; arithmetic on it goes through [Int.wrap]
      (two's complement, 32 bits) and the conversion to [size_t] that a mixed
      comparison performs is [Int.to_size_t].
    - A [std::string] is a [string] (a sequence of 8-bit characters).
    - [std::unordered_map<string, T>] is a [gmap string T].
    - A method that mutates its object takes the object last and returns the
      new object (next to its C++ return value when it has one). *)

From Stdlib Require Import ZArith Ascii String Lia.
From stdpp Require Import base option list gmap strings.

Local Open Scope Z_scope.

(** ** Machine integers *)

Module Int.
(** The value an [int] holds after an arithmetic result [z]. *)
Definition wrap (z : Z) : Z := (z + 2^31) mod 2^32 - 2^31.

Definition add (a b : Z) : Z := wrap (a + b).
Definition sub (a b : Z) : Z := wrap (a - b).

(** [int] to [size_t], as the usual arithmetic conversions do it when an
    [int] meets [string::size()]. *)
Definition to_size_t (z : Z) : Z := z mod 2^64.

(** [i < s.size()] with [i] an [int]. *)
Definition lt_size (i : Z) (size : nat) : bool :=
  to_size_t i <? Z.of_nat size.

(** The values of the type. *)
Definition range (z : Z) : Prop := - 2^31 <= z < 2^31.
End Int.

(** ** Characters and strings *)

Definition NUL : ascii := "000"%char.
Definition CR : ascii := "013"%char.
Definition LF : ascii := "010"%char.
Definition SP : ascii := " "%char.
Definition COLON : ascii := ":"%char.

Definition CRLF : string := String CR (String LF "").

(** [string(n, c)] *)
Fixpoint fill (n : nat) (c : ascii) : string :=
  match n with
  | O => EmptyString
  | S n' => String c (fill n' c)
  end.

(** [s += c] *)
Definition push_back (s : string) (c : ascii) : string := s +:+ String c "".

(** [s.empty()] *)
Definition str_empty (s : string) : bool :=
  match s with EmptyString => true | String _ _ => false end.

(** [s[pos]]: the character at [pos]; [s[s.size()]] is the terminating NUL.
    Reading further out is undefined in C++ and also yields NUL here. *)
Definition char_at (s : string) (pos : Z) : ascii :=
  match String.get (Z.to_nat pos) s with
  | Some c => c
  | None => NUL
  end.

(** The C string held by a [char] array: the bytes before the first NUL. *)
Fixpoint c_str (bytes : string) : string :=
  match bytes with
  | EmptyString => EmptyString
  | String c rest => if Ascii.eqb c NUL then EmptyString else String c (c_str rest)
  end.

(** The [int] value of a [char] ([char] is signed on x86-64 Linux). *)
Definition char_to_int (c : ascii) : Z :=
  let n := Z.of_nat (nat_of_ascii c) in
  if n <? 128 then n else n - 256.

(** [std::to_string] on an integer: its decimal representation. The least
    significant digit is produced first; 20 digits are enough for every
    integer type. *)
Definition digit_char (d : Z) : ascii := ascii_of_nat (48 + Z.to_nat d).

Fixpoint to_digits (fuel : nat) (n : Z) (acc : string) : string :=
  match fuel with
  | O => acc
  | S fuel' =>
      let acc := String (digit_char (n mod 10)) acc in
      if n / 10 =? 0 then acc else to_digits fuel' (n / 10) acc
  end.

Definition to_string (z : Z) : string :=
  if z <? 0 then String "-" (to_digits 20 (- z) "") else to_digits 20 z "".

(** The characters of [s] from index [n] on (what a pointer [&s[n]] points
    to), and the first [n] characters of [s]. *)
Fixpoint str_drop (n : nat) (s : string) : string :=
  match n, s with
  | O, _ => s
  | S _, EmptyString => EmptyString
  | S n', String _ s' => str_drop n' s'
  end.

Fixpoint str_take (n : nat) (s : string) : string :=
  match n, s with
  | O, _ => EmptyString
  | S _, EmptyString => EmptyString
  | S n', String c s' => String c (str_take n' s')
  end.

(** ** [internal::Stage] *)

Inductive Stage := REQ | FUNC | RES.

Global Instance Stage_eq_dec : EqDecision Stage.
Proof. solve_decision. Defined.

(** ** [internal::Buffer] *)

Module Buffer.

Record t := mk {
  buffer : string;
  headCursor : Z;
  rollbackCursor : Z
}.

(** A default-constructed buffer. *)
Definition init : t := mk "" 0 0.

Definition size_nat (b : t) : nat := String.length (buffer b).

(** [operator=(const string&)] *)
Definition assign (other : string) (b : t) : t := mk other 0 0.

(** [operator=(const char* )] *)
Definition assign_cstr (other : string) (b : t) : t := mk (c_str other) 0 0.

(** [operator+=(const string&)] *)
Definition append (other : string) (b : t) : t :=
  mk (buffer b +:+ other) (headCursor b) (rollbackCursor b).

(** [operator+=(const char* )] *)
Definition append_cstr (other : string) (b : t) : t :=
  append (c_str other) b.

Definition current (b : t) : ascii :=
  char_at (buffer b) (Int.to_size_t (headCursor b)).

Definition next (b : t) : option ascii * t :=
  let nextCursor := Int.add (headCursor b) 1 in
  if Int.lt_size nextCursor (size_nat b)
  then (Some (char_at (buffer b) (Int.to_size_t nextCursor)),
        mk (buffer b) nextCursor (rollbackCursor b))
  else (None, b).

Definition rollback (b : t) : t :=
  mk (buffer b) (rollbackCursor b) (rollbackCursor b).

Definition commit (b : t) : t :=
  mk (buffer b) (headCursor b) (headCursor b).

Definition reset (b : t) : t :=
  mk (buffer b) 0 (rollbackCursor b).

Definition set (newpos : Z) (b : t) : bool * t :=
  if Int.lt_size newpos (size_nat b) && (0 <=? newpos)
  then (true, mk (buffer b) newpos (rollbackCursor b))
  else (false, b).

Definition increment (update : Z) (b : t) : bool * t :=
  let nextCursor := Int.add (headCursor b) update in
  if Int.lt_size nextCursor (size_nat b) && (0 <=? nextCursor)
  then (true, mk (buffer b) nextCursor (rollbackCursor b))
  else (false, b).

Definition empty (b : t) : bool := str_empty (buffer b).

(** [size()] returns the [size_t] as an [int]. *)
Definition size (b : t) : Z := Int.wrap (Z.of_nat (size_nat b)).

Definition sizeAfterCursor (b : t) : Z :=
  Int.wrap (Z.of_nat (size_nat b) - headCursor b).

Definition sizeBeforeCursor (b : t) : Z := headCursor b.

(** [cstr()]: the characters from index 0. *)
Definition cstr (b : t) : string := buffer b.

(** [cstrAfterCursor()] is [&buffer[headCursor]]: the characters from the
    head cursor on. *)
Definition cstrAfterCursor (b : t) : string :=
  str_drop (Z.to_nat (Int.to_size_t (headCursor b))) (buffer b).

(** The results of [n] successive calls of [next()]. *)
Fixpoint nexts (n : nat) (b : t) : list (option ascii) :=
  match n with
  | O => []
  | S n' => (next b).1 :: nexts n' (next b).2
  end.

(** The public operations that change the object, as data. *)
Inductive op :=
| op_assign (other : string)
| op_append (other : string)
| op_next
| op_rollback
| op_commit
| op_reset
| op_set (newpos : Z)
| op_increment (update : Z).

Definition apply (o : op) (b : t) : t :=
  match o with
  | op_assign s => assign s b
  | op_append s => append s b
  | op_next => (next b).2
  | op_rollback => rollback b
  | op_commit => commit b
  | op_reset => reset b
  | op_set newpos => (set newpos b).2
  | op_increment update => (increment update b).2
  end.

Definition run (ops : list op) (b : t) : t := foldl (fun b o => apply o b) b ops.

(** The operations that never move the head cursor backwards past the
    rollback cursor. *)
Definition forward (o : op) : bool :=
  match o with
  | op_reset | op_set _ | op_increment _ => false
  | _ => true
  end.

(** What the C++ types allow: the cursors are [int]s and the string is no
    longer than [string::max_size()] (below [2^63] on every ABI). *)
Definition typed (b : t) : Prop :=
  Int.range (headCursor b) /\ Int.range (rollbackCursor b) /\
  Z.of_nat (size_nat b) < 2^63.

Definition op_typed (o : op) : Prop :=
  match o with
  | op_set z | op_increment z => Int.range z
  | _ => True
  end.

(** A sequence of operations the types allow from [b] on. *)
Fixpoint admissible (ops : list op) (b : t) : Prop :=
  match ops with
  | [] => True
  | o :: ops' =>
      op_typed o /\ Z.of_nat (size_nat (apply o b)) < 2^63 /\
      admissible ops' (apply o b)
  end.

(** The invariant of the specification. *)
Definition cursors_ordered (b : t) : Prop :=
  0 <= rollbackCursor b <= headCursor b /\
  headCursor b <= Z.of_nat (size_nat b).

(** The part of it that every operation keeps. *)
Definition cursors_bounded (b : t) : Prop :=
  0 <= rollbackCursor b <= Z.of_nat (size_nat b) /\
  0 <= headCursor b <= Z.of_nat (size_nat b).

End Buffer.

(** ** [Request] *)

Module Request.

Record t := mk {
  type : string;
  path : string;
  version : string;
  headers : gmap string string
}.

(** A default-constructed request: nothing parsed yet. *)
Definition init : t := mk "" "" "" ∅.

Definition getType (r : t) : string := type r.
Definition setType (newtype : string) (r : t) : t :=
  mk newtype (path r) (version r) (headers r).

Definition getPath (r : t) : string := path r.
Definition setPath (newpath : string) (r : t) : t :=
  mk (type r) newpath (version r) (headers r).

Definition getVersion (r : t) : string := version r.
Definition setVersion (newversion : string) (r : t) : t :=
  mk (type r) (path r) newversion (headers r).

(** [return headers[key];] : [operator[]] of [unordered_map] inserts a
    value-initialised entry when the key is missing. *)
Definition getHeader (key : string) (r : t) : string * t :=
  match headers r !! key with
  | Some value => (value, r)
  | None => ("", mk (type r) (path r) (version r) (<[key := ""]> (headers r)))
  end.

Definition setHeader (key value : string) (r : t) : t :=
  mk (type r) (path r) (version r) (<[key := value]> (headers r)).

End Request.

(** ** The library calls behind the date accessors

    [Response::setDate] and [Response::getDate] are made of calls into
    [<chrono>], [<ctime>] and [<iomanip>]. Those functions are not part of
    the repository; they are modelled here after ISO C and POSIX, for the
    "C" locale, and only as far as the two accessors use them:
    - a [system_clock::time_point] is its count of nanoseconds since the
      epoch;
    - [get_time] reads exactly the fields that [put_time] writes (abbreviated
      names, digits), which is all the round trip needs;
    - [mktime] reads its argument as local time. The time zone of the
      process is a parameter: [utc_offset] seconds east of Greenwich. *)

Module Ctime.

Record tm := mk_tm {
  tm_sec : Z;
  tm_min : Z;
  tm_hour : Z;
  tm_mday : Z;
  tm_mon : Z;
  tm_year : Z;
  tm_wday : Z;
  tm_yday : Z;
  tm_isdst : Z
}.

(** [tm date_tm = {};] *)
Definition tm_zero : tm := mk_tm 0 0 0 0 0 0 0 0 0.

(** [system_clock::to_time_t]: the duration cast truncates. *)
Definition to_time_t (t : Z) : Z := Z.quot t 1000000000.

(** [system_clock::from_time_t]: the count of nanoseconds of a
    [time_point]. The type holds it in 64 bits, which is enough for the
    seconds of the years 1678 to 2261. *)
Definition from_time_t (s : Z) : Z := s * 1000000000.

(** Days since 1970-01-01 of a date of the proleptic Gregorian calendar
    ([m] in 1..12). *)
Definition days_from_civil (y m d : Z) : Z :=
  let y := if m <=? 2 then y - 1 else y in
  let era := y / 400 in
  let yoe := y - era * 400 in
  let mp := if 2 <? m then m - 3 else m + 9 in
  let doy := (153 * mp + 2) / 5 + d - 1 in
  let doe := yoe * 365 + yoe / 4 - yoe / 100 + doy in
  era * 146097 + doe - 719468.

(** The date (year, month 1..12, day) of a day number. *)
Definition civil_from_days (z : Z) : Z * Z * Z :=
  let z := z + 719468 in
  let era := z / 146097 in
  let doe := z - era * 146097 in
  let yoe := (doe - doe / 1460 + doe / 36524 - doe / 146096) / 365 in
  let y := yoe + era * 400 in
  let doy := doe - (365 * yoe + yoe / 4 - yoe / 100) in
  let mp := (5 * doy + 2) / 153 in
  let d := doy - (153 * mp + 2) / 5 + 1 in
  let m := if mp <? 10 then mp + 3 else mp - 9 in
  (if m <=? 2 then y + 1 else y, m, d).

(** [gmtime]: broken-down UTC. *)
Definition gmtime (t : Z) : tm :=
  let days := t / 86400 in
  let rem := t mod 86400 in
  let '(y, m, d) := civil_from_days days in
  mk_tm (rem mod 60) (rem / 60 mod 60) (rem / 3600) d (m - 1) (y - 1900)
    ((days + 4) mod 7) (days - days_from_civil y 1 1) 0.

(** The inverse of [gmtime] ([tm_wday] and [tm_yday] are not read). *)
Definition timegm (date : tm) : Z :=
  days_from_civil (tm_year date + 1900) (tm_mon date + 1) (tm_mday date)
    * 86400
  + tm_hour date * 3600 + tm_min date * 60 + tm_sec date.

(** [mktime]: the same fields read as local time. *)
Definition mktime (utc_offset : Z) (date : tm) : Z :=
  timegm date - utc_offset.

Definition wday_names : list string :=
  ["Sun"; "Mon"; "Tue"; "Wed"; "Thu"; "Fri"; "Sat"].

Definition mon_names : list string :=
  ["Jan"; "Feb"; "Mar"; "Apr"; "May"; "Jun";
   "Jul"; "Aug"; "Sep"; "Oct"; "Nov"; "Dec"].

Definition two_digits (n : Z) : string :=
  if n <? 10 then "0" +:+ to_string n else to_string n.

(** One conversion specification of [put_time]. *)
Definition put_field (date : tm) (conv : ascii) : string :=
  match conv with
  | "a"%char => default "?" (wday_names !! Z.to_nat (tm_wday date))
  | "b"%char => default "?" (mon_names !! Z.to_nat (tm_mon date))
  | "d"%char => two_digits (tm_mday date)
  | "Y"%char => to_string (tm_year date + 1900)
  | "H"%char => two_digits (tm_hour date)
  | "M"%char => two_digits (tm_min date)
  | "S"%char => two_digits (tm_sec date)
  | _ => String "%"%char (String conv "")
  end.

Fixpoint put_time (date : tm) (fmt : string) : string :=
  match fmt with
  | EmptyString => EmptyString
  | String "%"%char (String conv fmt') => put_field date conv +:+ put_time date fmt'
  | String c fmt' => String c (put_time date fmt')
  end.

(** Reading: at most [width] decimal digits, at least one. *)
Fixpoint get_digits (width : nat) (acc : option Z) (input : string)
    : option (Z * string) :=
  match width, input with
  | S width', String c input' =>
      match Ascii.is_nat c with
      | Some n =>
          get_digits width' (Some (10 * default 0 acc + Z.of_nat n)) input'
      | None => (fun v => (v, input)) <$> acc
      end
  | _, _ => (fun v => (v, input)) <$> acc
  end.

Fixpoint strip_prefix (p input : string) : option string :=
  match p, input with
  | EmptyString, _ => Some input
  | String a p', String b input' =>
      if Ascii.eqb a b then strip_prefix p' input' else None
  | String _ _, EmptyString => None
  end.

(** Reading a name: the index of the first of [names] that starts
    [input]. *)
Fixpoint get_name (names : list string) (index : Z) (input : string)
    : option (Z * string) :=
  match names with
  | [] => None
  | name :: names' =>
      match strip_prefix name input with
      | Some rest => Some (index, rest)
      | None => get_name names' (index + 1) input
      end
  end.

Definition get_number (width : nat) (lo hi : Z) (input : string)
    : option (Z * string) :=
  match get_digits width None input with
  | Some (v, rest) => if (lo <=? v) && (v <=? hi) then Some (v, rest) else None
  | None => None
  end.

(** One conversion specification of [get_time]. *)
Definition get_field (conv : ascii) (input : string) (date : tm)
    : option (tm * string) :=
  match conv with
  | "a"%char =>
      '(v, rest) ← get_name wday_names 0 input;
      Some (mk_tm (tm_sec date) (tm_min date) (tm_hour date) (tm_mday date)
              (tm_mon date) (tm_year date) v (tm_yday date) (tm_isdst date),
            rest)
  | "b"%char =>
      '(v, rest) ← get_name mon_names 0 input;
      Some (mk_tm (tm_sec date) (tm_min date) (tm_hour date) (tm_mday date)
              v (tm_year date) (tm_wday date) (tm_yday date) (tm_isdst date),
            rest)
  | "d"%char =>
      '(v, rest) ← get_number 2 1 31 input;
      Some (mk_tm (tm_sec date) (tm_min date) (tm_hour date) v
              (tm_mon date) (tm_year date) (tm_wday date) (tm_yday date)
              (tm_isdst date),
            rest)
  | "Y"%char =>
      '(v, rest) ← get_number 4 0 9999 input;
      Some (mk_tm (tm_sec date) (tm_min date) (tm_hour date) (tm_mday date)
              (tm_mon date) (v - 1900) (tm_wday date) (tm_yday date)
              (tm_isdst date),
            rest)
  | "H"%char =>
      '(v, rest) ← get_number 2 0 23 input;
      Some (mk_tm (tm_sec date) (tm_min date) v (tm_mday date)
              (tm_mon date) (tm_year date) (tm_wday date) (tm_yday date)
              (tm_isdst date),
            rest)
  | "M"%char =>
      '(v, rest) ← get_number 2 0 59 input;
      Some (mk_tm (tm_sec date) v (tm_hour date) (tm_mday date)
              (tm_mon date) (tm_year date) (tm_wday date) (tm_yday date)
              (tm_isdst date),
            rest)
  | "S"%char =>
      '(v, rest) ← get_number 2 0 60 input;
      Some (mk_tm v (tm_min date) (tm_hour date) (tm_mday date)
              (tm_mon date) (tm_year date) (tm_wday date) (tm_yday date)
              (tm_isdst date),
            rest)
  | _ => None
  end.

Fixpoint skip_spaces (input : string) : string :=
  match input with
  | String c input' => if Ascii.is_space c then skip_spaces input' else input
  | EmptyString => EmptyString
  end.

(** [iss >> get_time(&date, fmt)]: [None] is [iss.fail()]. White space in
    the format matches any run of white space, another character matches
    itself. What follows the last conversion stays unread. *)
Fixpoint get_time (fmt : string) (input : string) (date : tm) : option tm :=
  match fmt with
  | EmptyString => Some date
  | String "%"%char (String conv fmt') =>
      match get_field conv input date with
      | Some (date, rest) => get_time fmt' rest date
      | None => None
      end
  | String c fmt' =>
      if Ascii.is_space c
      then get_time fmt' (skip_spaces input) date
      else
        match input with
        | String c' rest => if Ascii.eqb c c' then get_time fmt' rest date else None
        | EmptyString => None
        end
  end.

End Ctime.

(** ** [Response] *)

Module Response.

Record t := mk {
  version : string;
  statusCode : Z;
  statusReason : string;
  headers : gmap string string;
  body : string
}.

Definition init : t := mk "HTTP/1.1" 200 "OK" ∅ "".

Definition setStatusCode (newstatuscode : Z) (r : t) : t :=
  mk (version r) newstatuscode (statusReason r) (headers r) (body r).

Definition setStatusReason (newstatusreason : string) (r : t) : t :=
  mk (version r) (statusCode r) newstatusreason (headers r) (body r).

Definition getHeader (key : string) (r : t) : option string :=
  headers r !! key.

Definition setHeader (key newvalue : string) (r : t) : t :=
  mk (version r) (statusCode r) (statusReason r)
     (<[key := newvalue]> (headers r)) (body r).

Definition getContentType (r : t) : option string :=
  headers r !! "Content-Type".

Definition setContentType (newcontenttype : string) (r : t) : t :=
  setHeader "Content-Type" newcontenttype r.

(** [utc_offset] is the time zone that [mktime] finds in its
    environment. *)
Definition getDate (utc_offset : Z) (r : t) : option Z :=
  match headers r !! "Date" with
  | None => None
  | Some value =>
      match Ctime.get_time "%a, %d %b %Y %H:%M:%S" value Ctime.tm_zero with
      | None => None
      | Some date_tm =>
          Some (Ctime.from_time_t (Ctime.mktime utc_offset date_tm))
      end
  end.

Definition setDate (newdate : Z) (r : t) : t :=
  let newdate_t := Ctime.to_time_t newdate in
  let newdate_tm := Ctime.gmtime newdate_t in
  setHeader "Date"
    (Ctime.put_time newdate_tm "%a, %d %b %Y %H:%M:%S GMT") r.

Definition setBody (newbody : string) (r : t) : t :=
  mk (version r) (statusCode r) (statusReason r)
     (<["Content-Length" := to_string (Z.of_nat (String.length newbody))]>
        (headers r))
     newbody.

Definition appendBody (appendbody : string) (r : t) : t :=
  setBody (body r +:+ appendbody) r.

Definition getVersion (r : t) : string := version r.
Definition getStatusCode (r : t) : Z := statusCode r.
Definition getStatusReason (r : t) : string := statusReason r.
Definition getHeaders (r : t) : gmap string string := headers r.
Definition getBody (r : t) : string := body r.

(** The setters, as data. *)
Inductive op :=
| op_setStatusCode (newstatuscode : Z)
| op_setStatusReason (newstatusreason : string)
| op_setContentType (newcontenttype : string)
| op_setDate (newdate : Z)
| op_setHeader (key newvalue : string)
| op_setBody (newbody : string)
| op_appendBody (appendbody : string).

Definition apply (o : op) (r : t) : t :=
  match o with
  | op_setStatusCode newstatuscode => setStatusCode newstatuscode r
  | op_setStatusReason newstatusreason => setStatusReason newstatusreason r
  | op_setContentType newcontenttype => setContentType newcontenttype r
  | op_setDate newdate => setDate newdate r
  | op_setHeader key newvalue => setHeader key newvalue r
  | op_setBody newbody => setBody newbody r
  | op_appendBody appendbody => appendBody appendbody r
  end.

Definition run (ops : list op) (r : t) : t := foldl (fun r o => apply o r) r ops.

(** The setters that do not write the [Content-Length] header by hand. *)
Definition keeps_length (o : op) : bool :=
  match o with
  | op_setHeader key _ => negb (String.eqb key "Content-Length")
  | _ => true
  end.

(** The header [Content-Length] says how long the body is; a response
    whose body was never set has neither. *)
Definition length_declared (r : t) : Prop :=
  getHeader "Content-Length" r
  = Some (to_string (Z.of_nat (String.length (body r)))) \/
  (getHeader "Content-Length" r = None /\ body r = "").

End Response.

(** ** [internal::FileDescriptor]

    The object holds a descriptor number, or -1 when it owns nothing. The
    kernel is the set of the descriptors that are open; [close] on a number
    that is not open fails with [EBADF] and changes nothing. The mutex and
    the atomic only matter to concurrent callers and are left out. *)

Module FileDescriptor.

Definition t := Z.

(** [FileDescriptor()] *)
Definition init : t := -1.

Definition getfd (self : t) : Z := self.

(** [close(fd)] *)
Definition close (fd : Z) (open : gset Z) : gset Z := open ∖ {[ fd ]}.

(** The move constructor: the new object and what is left of [other]. *)
Definition move (other : t) : t * t := (other, -1).

(** The move assignment [self = std::move(other)] of two different
    objects: [self], [other] and the kernel afterwards. *)
Definition move_assign (self other : t) (open : gset Z) : t * t * gset Z :=
  let newfd := other in
  let other := -1 in
  let oldfd := self in
  let self := newfd in
  let open := if negb (oldfd =? newfd) then close oldfd open else open in
  (self, other, open).

(** The destructor. *)
Definition destroy (self : t) (open : gset Z) : gset Z := close self open.

(** [closefd()] *)
Definition closefd (self : t) (open : gset Z) : t * gset Z :=
  (-1, close self open).

End FileDescriptor.

(** ** [internal::ConnectionState] *)

Record ConnectionState := mkConnectionState {
  fd : Z;
  stage : Stage;
  reqBuffer : Buffer.t;
  resBuffer : Buffer.t;
  request : Request.t;
  response : Response.t
}.

(** [ConnectionState{ .fd = ..., .stage = ... }]: the other members are
    default-constructed. *)
Definition fresh_connection (fd : Z) (stage : Stage) : ConnectionState :=
  mkConnectionState fd stage Buffer.init Buffer.init Request.init Response.init.

(** ** [Server] *)

Module Server.

Definition sockBufferSize : Z := 8192.
Definition sockQueueSize : Z := 128.
Definition maxEventsPerLoop : Z := 12.
Definition maxHeaderSize : Z := 8192.

(** *** [DeserializeRequest]

    The C++ function returns [void] or throws. [parse_exit] names the
    [return] statement that was taken: the four places that return after
    [buffer.rollback()] (not enough data for the type, the path, the
    version, a header line) and the one that returns after the empty line
    that ends the header block. *)
Inductive parse_exit :=
| need_type
| need_path
| need_version
| need_header
| header_end.

Inductive outcome :=
| Returned (e : parse_exit) (buffer : Buffer.t) (request : Request.t)
| Thrown (what : string) (buffer : Buffer.t) (request : Request.t).

(** The result of one of the inner [while (1)] loops: the buffer ran dry
    (and was rolled back), or the delimiter [c] was read after [identifier]
    (and the buffer was committed). *)
Inductive scan :=
| Exhausted (buffer : Buffer.t)
| Token (identifier : string) (c : ascii) (buffer : Buffer.t).

(** Every loop iteration starts with [buffer.next()]; [fuel] bounds the
    number of iterations, [None] is "out of fuel". *)

(** The loops of the type and of the path: read until space. *)
Fixpoint scan_until_space (fuel : nat) (identifier : string)
    (buffer : Buffer.t) : option scan :=
  match fuel with
  | O => None
  | S fuel' =>
      match Buffer.next buffer with
      | (None, buffer) => Some (Exhausted (Buffer.rollback buffer))
      | (Some c, buffer) =>
          if Ascii.eqb c SP
          then Some (Token identifier c (Buffer.commit buffer))
          else scan_until_space fuel' (push_back identifier c) buffer
      end
  end.

(** The loops of the version and of a header value: skip carriage
    returns, read until newline. *)
Fixpoint scan_until_newline (fuel : nat) (identifier : string)
    (buffer : Buffer.t) : option scan :=
  match fuel with
  | O => None
  | S fuel' =>
      match Buffer.next buffer with
      | (None, buffer) => Some (Exhausted (Buffer.rollback buffer))
      | (Some c, buffer) =>
          if Ascii.eqb c CR
          then scan_until_newline fuel' identifier buffer
          else if Ascii.eqb c LF
          then Some (Token identifier c (Buffer.commit buffer))
          else scan_until_newline fuel' (push_back identifier c) buffer
      end
  end.

Definition expected_space (c : ascii) : string :=
  "Expected space (' ') character after colon (':'). Got "
    +:+ to_string (char_to_int c).

(** The header loop. [identifier += c.value()] stands inside the block of
    [if (c.value()==':')], after the value loop: it runs once per stored
    header, with [c] the newline that ended the value. *)
Fixpoint parse_headers (fuel : nat) (identifier : string)
    (buffer : Buffer.t) (request : Request.t) : option outcome :=
  match fuel with
  | O => None
  | S fuel' =>
      match Buffer.next buffer with
      | (None, buffer) =>
          Some (Returned need_header (Buffer.rollback buffer) request)
      | (Some c, buffer) =>
          if Ascii.eqb c CR
          then parse_headers fuel' identifier buffer request
          else if Ascii.eqb c LF
          then Some (Returned header_end (Buffer.commit buffer) request)
          else if Ascii.eqb c COLON
          then
            match Buffer.next buffer with
            | (None, buffer) =>
                Some (Returned need_header (Buffer.rollback buffer) request)
            | (Some c, buffer) =>
                if negb (Ascii.eqb c SP)
                then Some (Thrown (expected_space c) buffer request)
                else
                  match scan_until_newline fuel' "" buffer with
                  | None => None
                  | Some (Exhausted buffer) =>
                      Some (Returned need_header buffer request)
                  | Some (Token value c buffer) =>
                      let request := Request.setHeader identifier value request in
                      let identifier := "" in
                      parse_headers fuel' (push_back identifier c) buffer request
                  end
            end
          else parse_headers fuel' identifier buffer request
      end
  end.

(** One of the three guarded blocks of the request line either returns
    from the function or falls through to the next block. *)
Inductive block :=
| Return (o : outcome)
| Fall (buffer : Buffer.t) (request : Request.t).

Definition parse_type (fuel : nat) (buffer : Buffer.t) (request : Request.t)
    : option block :=
  if str_empty (Request.getType request)
  then
    match scan_until_space fuel "" buffer with
    | None => None
    | Some (Exhausted buffer) => Some (Return (Returned need_type buffer request))
    | Some (Token identifier _ buffer) =>
        Some (Fall buffer (Request.setType identifier request))
    end
  else Some (Fall buffer request).

Definition parse_path (fuel : nat) (buffer : Buffer.t) (request : Request.t)
    : option block :=
  if str_empty (Request.getPath request)
  then
    match scan_until_space fuel "" buffer with
    | None => None
    | Some (Exhausted buffer) => Some (Return (Returned need_path buffer request))
    | Some (Token identifier _ buffer) =>
        Some (Fall buffer (Request.setPath identifier request))
    end
  else Some (Fall buffer request).

Definition parse_version (fuel : nat) (buffer : Buffer.t) (request : Request.t)
    : option block :=
  if str_empty (Request.getVersion request)
  then
    match scan_until_newline fuel "" buffer with
    | None => None
    | Some (Exhausted buffer) =>
        Some (Return (Returned need_version buffer request))
    | Some (Token identifier _ buffer) =>
        Some (Fall buffer (Request.setVersion identifier request))
    end
  else Some (Fall buffer request).

(** Sequencing of the blocks. *)
Definition and_then (b : option block)
    (k : Buffer.t -> Request.t -> option outcome) : option outcome :=
  match b with
  | None => None
  | Some (Return o) => Some o
  | Some (Fall buffer request) => k buffer request
  end.

Definition DeserializeRequest_fuel (fuel : nat) (buffer : Buffer.t)
    (request : Request.t) : option outcome :=
  and_then (parse_type fuel buffer request) (fun buffer request =>
  and_then (parse_path fuel buffer request) (fun buffer request =>
  and_then (parse_version fuel buffer request) (fun buffer request =>
  parse_headers fuel "" buffer request))).

(** No loop can run more often than the buffer has characters. *)
Definition DeserializeRequest (buffer : Buffer.t) (request : Request.t)
    : option outcome :=
  DeserializeRequest_fuel (S (Buffer.size_nat buffer)) buffer request.

(** *** [ProcessRequest]

    The socket is the list of the results of the successive [recv] calls:
    some bytes (at most [sockBufferSize] of them, possibly none),
    [EAGAIN]/[EWOULDBLOCK], or another error. Past the end of the list the
    socket has nothing to read ([EAGAIN]). *)
Inductive recv_result :=
| recv_bytes (bytes : string)
| recv_would_block
| recv_failed.

(** The [catch] block: a 400 response, stage RES. *)
Definition bad_request (what : string) (state : ConnectionState)
    : ConnectionState :=
  mkConnectionState (fd state) RES (reqBuffer state) (resBuffer state)
    (request state)
    (Response.setBody what
       (Response.setContentType "text/plain"
          (Response.setStatusReason "Bad Request"
             (Response.setStatusCode 400 (response state))))).

Definition with_parse (buffer : Buffer.t) (request : Request.t)
    (state : ConnectionState) : ConnectionState :=
  mkConnectionState (fd state) (stage state) buffer (resBuffer state)
    request (response state).

Fixpoint ProcessRequest (socket : list recv_result) (state : ConnectionState)
    : option (bool * ConnectionState) :=
  match socket with
  | [] => Some (true, state)
  | recv_would_block :: _ => Some (true, state)
  | recv_failed :: _ => Some (false, state)
  | recv_bytes bytes :: socket =>
      let reqBuffer := Buffer.append_cstr bytes (reqBuffer state) in
      match DeserializeRequest reqBuffer (request state) with
      | None => None
      | Some (Thrown what buffer request) =>
          Some (true, bad_request what (with_parse buffer request state))
      | Some (Returned _ buffer request) =>
          if Buffer.sizeBeforeCursor buffer >? maxHeaderSize
          then Some (true,
                 bad_request "Header size exceeds defined maximum size"
                   (with_parse buffer request state))
          else ProcessRequest socket (with_parse buffer request state)
      end
  end.

(** *** [ProcessFunction]

    [routeMap] maps a path to the map from methods to handlers. A handler
    is a [function<void(Request, Response)>]: it receives copies, so a call
    leaves the connection state as it is; the call itself is recorded in
    the result. An iterator is an [option]: [None] is [end()]. *)
Section Routing.
Context {Handler : Type}.

Inductive function_result :=
| Undefined
| Finished (ret : bool) (state : ConnectionState) (called : option Handler).

(** [it != m.end()] *)
Definition not_end {A : Type} (it : option A) : bool :=
  match it with Some _ => true | None => false end.

Definition respond (code : Z) (reason body : string)
    (state : ConnectionState) : ConnectionState :=
  mkConnectionState (fd state) RES (reqBuffer state) (resBuffer state)
    (request state)
    (Response.setBody body
       (Response.setContentType "text/plain"
          (Response.setStatusReason reason
             (Response.setStatusCode code (response state))))).

Definition not_found (state : ConnectionState) : ConnectionState :=
  respond 404 "Not Found"
    ("The requested resource " +:+ Request.getPath (request state)
       +:+ " was not found on this server") state.

Definition method_not_allowed (state : ConnectionState) : ConnectionState :=
  respond 405 "Method Not Allowed"
    ("The method " +:+ Request.getType (request state)
       +:+ " is not allowed for the requested resource") state.

(** Dereferencing [end()] ([routeIter->second], [handlerIter->second])
    is undefined behaviour: [Undefined]. *)
Definition ProcessFunction (routeMap : gmap string (gmap string Handler))
    (state : ConnectionState) : function_result :=
  let routeIter := routeMap !! Request.getPath (request state) in
  if not_end routeIter
  then Finished true (not_found state) None
  else
    match routeIter with
    | None => Undefined
    | Some route =>
        let handlerIter := route !! Request.getType (request state) in
        if not_end handlerIter
        then Finished true (method_not_allowed state) None
        else
          match handlerIter with
          | None => Undefined
          | Some handler => Finished true state (Some handler)
          end
    end.
End Routing.

(** *** The connection branch of the event loop in [Serve]

    The event bits are those of Linux's [<sys/epoll.h>]. *)
Definition EPOLLIN : Z := 0x001.
Definition EPOLLOUT : Z := 0x004.
Definition EPOLLERR : Z := 0x008.
Definition EPOLLHUP : Z := 0x010.

(** [events & mask] as a condition. *)
Definition flagged (events mask : Z) : bool :=
  negb (Z.land events mask =? 0).

(** What the loop does with one event of a descriptor other than the core
    socket. *)
Inductive dispatch :=
| Deregister
| Erase
| CallProcessRequest
| CallProcessResponse
| Skip.

Definition dispatch_event (events : Z) (fd : Z)
    (conStateMap : gmap Z ConnectionState) : dispatch :=
  match conStateMap !! fd with
  | None => Deregister
  | Some state =>
      if flagged events EPOLLERR || flagged events EPOLLHUP
      then Erase
      else
        match stage state with
        | REQ => if flagged events EPOLLIN then CallProcessRequest else Skip
        | FUNC => Skip
        | RES => if flagged events EPOLLIN then CallProcessResponse else Skip
        end
  end.

(** *** [SerializeResponse] and [ProcessResponse]

    The loop of [SerializeResponse] visits the headers in the order in
    which the [unordered_map] enumerates them, which C++ leaves open:
    [enumerate] is that order. [std::format] prints the strings as they are
    and the status code in decimal. *)
Section Responding.
Context (enumerate : gmap string string -> list (string * string)).

Definition status_line (response : Response.t) : string :=
  Response.getVersion response +:+ " "
    +:+ to_string (Response.getStatusCode response) +:+ " "
    +:+ Response.getStatusReason response +:+ CRLF.

Definition header_line (header : string * string) : string :=
  header.1 +:+ ": " +:+ header.2 +:+ CRLF.

(** One iteration of the loop over the headers. *)
Definition append_header (buffer : Buffer.t) (header : string * string)
    : Buffer.t :=
  if str_empty header.2 then buffer
  else Buffer.append (header_line header) buffer.

Definition SerializeResponse (response : Response.t) (buffer : Buffer.t)
    : Buffer.t :=
  let buffer := Buffer.assign (status_line response) buffer in
  let buffer :=
    foldl append_header buffer (enumerate (Response.getHeaders response)) in
  Buffer.append (CRLF +:+ Response.getBody response) buffer.

(** The socket is the list of the results of the successive [send] calls:
    [n] bytes were taken, [EAGAIN]/[EWOULDBLOCK], or another error. Past the
    end of the list the socket takes nothing more ([EAGAIN]). *)
Inductive send_result :=
| send_sent (n : nat)
| send_would_block
| send_failed.

(** The [return] statement that was taken. *)
Inductive response_exit :=
| res_would_block
| res_failed
| res_close
| res_reset.

(** The return value, the [return] statement, the connection state, and
    what the calls of [send] have put on the wire. *)
Record response_result := mk_response_result {
  res_ret : bool;
  res_exit : response_exit;
  res_state : ConnectionState;
  res_wire : list string
}.

Definition with_resBuffer (buffer : Buffer.t) (state : ConnectionState)
    : ConnectionState :=
  mkConnectionState (fd state) (stage state) (reqBuffer state) buffer
    (request state) (response state).

Definition with_request (request : Request.t) (state : ConnectionState)
    : ConnectionState :=
  mkConnectionState (fd state) (stage state) (reqBuffer state)
    (resBuffer state) request (response state).

(** The [while (1)] loop of [ProcessResponse]. The result of
    [resBuffer.increment(n)] is not looked at. *)
Fixpoint send_loop (socket : list send_result) (state : ConnectionState)
    (wire : list string) : response_result :=
  match socket with
  | [] => mk_response_result true res_would_block state wire
  | send_would_block :: _ => mk_response_result true res_would_block state wire
  | send_failed :: _ => mk_response_result false res_failed state wire
  | send_sent n :: socket =>
      let wire :=
        wire ++ [str_take n (Buffer.cstrAfterCursor (resBuffer state))] in
      let state :=
        with_resBuffer (Buffer.increment (Z.of_nat n) (resBuffer state)).2
          state in
      if Buffer.sizeAfterCursor (resBuffer state) <? 1
      then
        let '(value, request) :=
          Request.getHeader "Connection" (request state) in
        if String.eqb value "close"
        then mk_response_result false res_close (with_request request state)
               wire
        else mk_response_result true res_reset
               (fresh_connection (fd state) REQ) wire
      else send_loop socket state wire
  end.

(** [now] is what [chrono::system_clock::now()] returns. *)
Definition ProcessResponse (now : Z) (socket : list send_result)
    (state : ConnectionState) : response_result :=
  let state :=
    if Buffer.empty (resBuffer state)
    then
      let response := Response.setDate now (response state) in
      mkConnectionState (fd state) (stage state) (reqBuffer state)
        (SerializeResponse response (resBuffer state)) (request state)
        response
    else state in
  send_loop socket state [].

(** *** [Serve]

    An event as [epoll_wait] reports it, together with the results of the
    system calls that the loop makes while it handles the event. *)
Record event := mk_event {
  ev_events : Z;
  ev_fd : Z;
  ev_getsockopt : Z;
  ev_strerror : string;
  ev_accept : Z;
  ev_epoll_ctl : Z;
  ev_recv : list recv_result;
  ev_now : Z;
  ev_send : list send_result
}.

(** [Serve] is still in its loop, has returned, or has thrown a
    [runtime_error]; in each case with the connection descriptors that are
    open. *)
Inductive served :=
| Running (conStateMap : gmap Z ConnectionState) (fds : gset Z)
| Exited (fds : gset Z)
| Failed (what : string) (fds : gset Z).

Definition init_failure (step text : string) : string :=
  "Failed to initialize HTTP server (" +:+ step +:+ "):"
    +:+ String LF text.

Definition run_failure (step text : string) : string :=
  "Critical failure while running HTTP server (" +:+ step +:+ "):"
    +:+ String LF text.

(** Leaving [Serve] destroys [conStateMap], and with it the
    [FileDescriptor] of every connection. *)
Definition unwind (conStateMap : gmap Z ConnectionState) (fds : gset Z)
    : gset Z :=
  map_fold (fun _ state fds => FileDescriptor.destroy (fd state) fds) fds
    conStateMap.

(** An event of the core socket. [conStateMap[conSockfd] = ...] is a move
    assignment to the entry, which [operator[]] default-constructs when the
    key is new; the temporary and [conSocket] are destroyed afterwards. *)
Definition handle_core (ev : event) (conStateMap : gmap Z ConnectionState)
    (fds : gset Z) : served :=
  if flagged (ev_events ev) EPOLLERR
  then
    if ev_getsockopt ev <? 0
    then Failed (run_failure "error on core socket" "Unknown error")
           (unwind conStateMap fds)
    else Failed (run_failure "error on core socket" (ev_strerror ev))
           (unwind conStateMap fds)
  else if flagged (ev_events ev) EPOLLHUP
  then Exited (unwind conStateMap fds)
  else
    let conSocket : FileDescriptor.t := ev_accept ev in
    let fds := if 0 <=? ev_accept ev then {[ ev_accept ev ]} ∪ fds else fds in
    if (0 <? FileDescriptor.getfd conSocket) && (ev_epoll_ctl ev =? 0)
    then
      let conSockfd := FileDescriptor.getfd conSocket in
      let '(moved, conSocket) := FileDescriptor.move conSocket in
      let entry :=
        default FileDescriptor.init (fd <$> conStateMap !! conSockfd) in
      let '(entry, moved, fds) := FileDescriptor.move_assign entry moved fds in
      let fds := FileDescriptor.destroy moved fds in
      Running (<[conSockfd := fresh_connection entry REQ]> conStateMap)
        (FileDescriptor.destroy conSocket fds)
    else Running conStateMap (FileDescriptor.destroy conSocket fds).

(** An event of another descriptor. *)
Definition handle_connection (ev : event)
    (conStateMap : gmap Z ConnectionState) (fds : gset Z) : option served :=
  match dispatch_event (ev_events ev) (ev_fd ev) conStateMap,
        conStateMap !! ev_fd ev with
  | Erase, Some state =>
      Some (Running (delete (ev_fd ev) conStateMap)
              (FileDescriptor.destroy (fd state) fds))
  | CallProcessRequest, Some state =>
      match ProcessRequest (ev_recv ev) state with
      | None => None
      | Some (true, state) =>
          Some (Running (<[ev_fd ev := state]> conStateMap) fds)
      | Some (false, state) =>
          Some (Running (delete (ev_fd ev) conStateMap)
                  (FileDescriptor.destroy (fd state) fds))
      end
  | CallProcessResponse, Some state =>
      let r := ProcessResponse (ev_now ev) (ev_send ev) state in
      if res_ret r
      then Some (Running (<[ev_fd ev := res_state r]> conStateMap) fds)
      else Some (Running (delete (ev_fd ev) conStateMap)
                   (FileDescriptor.destroy (fd (res_state r)) fds))
  | _, _ => Some (Running conStateMap fds)
  end.

Definition handle_event (coreSocket : Z) (ev : event)
    (conStateMap : gmap Z ConnectionState) (fds : gset Z) : option served :=
  if ev_fd ev =? coreSocket
  then Some (handle_core ev conStateMap fds)
  else handle_connection ev conStateMap fds.

(** The [for] loop over the events of one [epoll_wait]. *)
Fixpoint handle_events (coreSocket : Z) (conEvents : list event)
    (conStateMap : gmap Z ConnectionState) (fds : gset Z) : option served :=
  match conEvents with
  | [] => Some (Running conStateMap fds)
  | ev :: conEvents =>
      match handle_event coreSocket ev conStateMap fds with
      | Some (Running conStateMap fds) =>
          handle_events coreSocket conEvents conStateMap fds
      | r => r
      end
  end.

(** What one call of [epoll_wait] gives: an error, or the events. *)
Inductive wait_result :=
| wait_failed (strerror : string)
| wait_events (conEvents : list event).

(** The main loop, over the results of the successive calls of
    [epoll_wait]; after the last one [epoll_wait] blocks. *)
Fixpoint event_loop (coreSocket : Z) (waits : list wait_result)
    (conStateMap : gmap Z ConnectionState) (fds : gset Z) : option served :=
  match waits with
  | [] => Some (Running conStateMap fds)
  | wait_failed strerror :: _ =>
      Some (Failed (run_failure "wait for incoming events" strerror)
              (unwind conStateMap fds))
  | wait_events conEvents :: waits =>
      match handle_events coreSocket conEvents conStateMap fds with
      | Some (Running conStateMap fds) =>
          event_loop coreSocket waits conStateMap fds
      | r => r
      end
  end.

(** The results of [listen], [epoll_create1] and the first [epoll_ctl]. *)
Record serve_setup := mk_serve_setup {
  listen_res : Z;
  epoll_create1_res : Z;
  epoll_ctl_res : Z;
  setup_strerror : string
}.

Definition Serve (coreSocket : Z) (setup : serve_setup)
    (waits : list wait_result) : option served :=
  if listen_res setup <? 0
  then Some (Failed (init_failure "start listener" (setup_strerror setup)) ∅)
  else if epoll_create1_res setup <? 0
  then Some (Failed (init_failure "create epoll instance"
                       (setup_strerror setup)) ∅)
  else if epoll_ctl_res setup <? 0
  then Some (Failed (init_failure "add core socket to epoll instance"
                       (setup_strerror setup)) ∅)
  else event_loop coreSocket waits ∅ ∅.

End Responding.

(** *** [Kill] *)

(** [coreSocket.closefd()] *)
Definition Kill (coreSocket : FileDescriptor.t) (fds : gset Z)
    : FileDescriptor.t * gset Z :=
  FileDescriptor.closefd coreSocket fds.

(** *** The constructor [Server(string ipAddr, u_int16_t port)]

    The results of its library and system calls, in the order of the
    calls; [ctor_strerror] is [strerror(errno)] after the call that
    failed. *)
Record inet_calls := mk_inet_calls {
  inet_pton_res : Z;
  socket_res : Z;
  setsockopt_reuse_res : Z;
  setsockopt_rcvbuf_res : Z;
  setsockopt_sndbuf_res : Z;
  bind_res : Z;
  fcntl_getfl_res : Z;
  fcntl_setfl_res : Z;
  ctor_strerror : string
}.

Inductive constructed :=
| Constructed (coreSocket : Z) (sockFlags : Z)
| Logic_error (what : string)
| Runtime_error (what : string).

Definition O_NONBLOCK : Z := 0x800.

(** [res] is assigned by [inet_pton], [setsockopt], [bind] and the second
    [fcntl]; the result of the first [fcntl] goes to [sockFlags]. *)
Definition Server_inet (calls : inet_calls) : constructed :=
  let res := inet_pton_res calls in
  if res =? 0
  then Logic_error (init_failure "addr parsing" "Invalid IP-Address format")
  else if res =? -1
  then Runtime_error (init_failure "addr parsing" (ctor_strerror calls))
  else
    let coreSocket := socket_res calls in
    if FileDescriptor.getfd coreSocket <? 0
    then Runtime_error (init_failure "create socket" (ctor_strerror calls))
    else
      let res := setsockopt_reuse_res calls in
      if res <? 0
      then Runtime_error
             (init_failure "set socket options" (ctor_strerror calls))
      else
        let res := setsockopt_rcvbuf_res calls in
        if res <? 0
        then Runtime_error
               (init_failure "set socket options" (ctor_strerror calls))
        else
          let res := setsockopt_sndbuf_res calls in
          if res <? 0
          then Runtime_error
                 (init_failure "set socket options" (ctor_strerror calls))
          else
            let res := bind_res calls in
            if res <? 0
            then Runtime_error
                   (init_failure "bind socket" (ctor_strerror calls))
            else
              let sockFlags := fcntl_getfl_res calls in
              if res <? 0
              then Runtime_error
                     (init_failure "read socket flags" (ctor_strerror calls))
              else
                let sockFlags := Z.lor sockFlags O_NONBLOCK in
                let res := fcntl_setfl_res calls in
                if res <? 0
                then Runtime_error
                       (init_failure "update socket flags"
                          (ctor_strerror calls))
                else Constructed coreSocket sockFlags.

End Server.

(** ** [BodyReader]

    [read] is a coroutine; the model is its body up to the first
    [co_return], suspension or abort. The function suspends with
    [co_await BasicResumer{}] when [recv] reports [EAGAIN]; resuming it
    would go on with [readBuffer.insert(..., buffer, buffer + n)] for
    [n = -1], which is undefined, so the model stops there. [throw;] with no
    exception being handled ends the program. *)
Module BodyReader.

Record t := mk {
  socketBufferSize : Z;
  bodySize : Z;
  readBuffer : string
}.

(** How the body ended, with what is left of the socket's script. *)
Inductive read_result :=
| Returned (slice : string) (reader : t) (socket : list Server.recv_result)
| Suspended (reader : t) (socket : list Server.recv_result)
| Terminated (reader : t) (socket : list Server.recv_result).

(** The [while (1)] loop. [readBuffer.size() >= size] compares a [size_t]
    with an [int]. *)
Fixpoint read_loop (socket : list Server.recv_result) (size : Z) (reader : t)
    : read_result :=
  if bodySize reader <=? 0
  then Returned "" reader socket
  else if Int.to_size_t size <=? Z.of_nat (String.length (readBuffer reader))
  then
    let slice := str_take (Z.to_nat size) (readBuffer reader) in
    Returned slice
      (mk (socketBufferSize reader) (Int.sub (bodySize reader) size)
         (str_drop (Z.to_nat size) (readBuffer reader)))
      socket
  else
    match socket with
    | [] => Suspended reader []
    | Server.recv_would_block :: socket => Suspended reader socket
    | Server.recv_failed :: socket => Terminated reader socket
    | Server.recv_bytes bytes :: socket =>
        read_loop socket size
          (mk (socketBufferSize reader) (bodySize reader)
             (readBuffer reader +:+ bytes))
    end.

Definition read (size : Z) (reader : t) (socket : list Server.recv_result)
    : read_result :=
  let size := if size >? bodySize reader then bodySize reader else size in
  read_loop socket size reader.

(** The bytes of the segments. *)
Definition delivered (segments : list string) : string :=
  foldr String.append "" segments.

End BodyReader.

(** ** Notions for the statements and proofs about the parser *)

Module Parsing.

Import Server.

(** [b2] is [b1] with [rest] appended. *)
Definition appended (rest : string) (b1 b2 : Buffer.t) : Prop :=
  b2 = Buffer.append rest b1.

(** [b1] and [b2] are at the same place in strings that differ at most in
    their first character ([b1] within the bounds of its types). *)
Definition same_tail (b1 b2 : Buffer.t) : Prop :=
  Buffer.typed b1 /\
  0 <= Buffer.headCursor b1 /\ 0 <= Buffer.rollbackCursor b1 /\
  Buffer.headCursor b2 = Buffer.headCursor b1 /\
  Buffer.rollbackCursor b2 = Buffer.rollbackCursor b1 /\
  exists c1 c2 s,
    Buffer.buffer b1 = String c1 s /\ Buffer.buffer b2 = String c2 s.

(** [b] holds [pre +:+ post] and has read [pre]: the next character that
    [next()] yields is the first of [post]. *)
Definition at_pos (b : Buffer.t) (pre post : string) : Prop :=
  Buffer.buffer b = pre +:+ post /\
  Buffer.headCursor b = Z.of_nat (String.length pre) - 1 /\
  0 <= Buffer.headCursor b /\
  Int.range (Buffer.rollbackCursor b) /\
  Z.of_nat (String.length (pre +:+ post)) < 2^31.

(** The buffers the parser is given: cursors and length within their
    types, cursors within the string. *)
Definition parse_ready (b : Buffer.t) : Prop :=
  Buffer.typed b /\ Buffer.cursors_bounded b.

(** What a scanning loop leaves behind in the buffer. *)
Definition scan_post (b : Buffer.t) (r : scan) : Prop :=
  match r with
  | Exhausted b' => b' = Buffer.rollback b
  | Token _ _ b' =>
      Buffer.buffer b' = Buffer.buffer b /\ parse_ready b' /\
      Buffer.headCursor b < Buffer.headCursor b' /\
      Buffer.rollbackCursor b' = Buffer.headCursor b'
  end.

(** What a caller can see of a call: how it ended, where the cursors are,
    and the request. *)
Definition outcome_buffer (o : outcome) : Buffer.t :=
  match o with Returned _ buffer _ | Thrown _ buffer _ => buffer end.

Definition outcome_request (o : outcome) : Request.t :=
  match o with Returned _ _ request | Thrown _ _ request => request end.

Definition outcome_end (o : outcome) : parse_exit + string :=
  match o with Returned e _ _ => inl e | Thrown what _ _ => inr what end.

Definition observe (o : outcome) : (parse_exit + string) * Z * Z * Request.t :=
  (outcome_end o, Buffer.headCursor (outcome_buffer o),
   Buffer.rollbackCursor (outcome_buffer o), outcome_request o).

(** What a call leaves behind in the buffer: the same bytes; after a
    [return] the two cursors coincide (rolled back or committed). *)
Definition outcome_post (b : Buffer.t) (o : outcome) : Prop :=
  Buffer.buffer (outcome_buffer o) = Buffer.buffer b /\
  parse_ready (outcome_buffer o) /\
  match o with
  | Returned _ b' _ => Buffer.headCursor b' = Buffer.rollbackCursor b'
  | Thrown _ _ _ => True
  end.

(** The same for one block of the request line. *)
Definition block_post (b : Buffer.t) (blk : block) : Prop :=
  match blk with
  | Return o => outcome_post b o
  | Fall b' _ => Buffer.buffer b' = Buffer.buffer b /\ parse_ready b'
  end.

(** Results that do not come from running out of data. *)
Definition scan_final (r : scan) : Prop :=
  match r with Token _ _ _ => True | Exhausted _ => False end.

Definition outcome_final (o : outcome) : Prop :=
  match o with
  | Returned header_end _ _ | Thrown _ _ _ => True
  | Returned _ _ _ => False
  end.

Definition block_final (blk : block) : Prop :=
  match blk with Fall _ _ => True | Return o => outcome_final o end.

(** Results that agree up to a relation [R] between their buffers. *)
Definition scan_rel (R : Buffer.t -> Buffer.t -> Prop) (r1 r2 : scan) : Prop :=
  match r1, r2 with
  | Exhausted b1, Exhausted b2 => R b1 b2
  | Token i1 c1 b1, Token i2 c2 b2 => i1 = i2 /\ c1 = c2 /\ R b1 b2
  | _, _ => False
  end.

Definition outcome_rel (R : Buffer.t -> Buffer.t -> Prop) (o1 o2 : outcome)
    : Prop :=
  outcome_end o1 = outcome_end o2 /\
  outcome_request o1 = outcome_request o2 /\
  R (outcome_buffer o1) (outcome_buffer o2).

Definition block_rel (R : Buffer.t -> Buffer.t -> Prop) (k1 k2 : block)
    : Prop :=
  match k1, k2 with
  | Return o1, Return o2 => outcome_rel R o1 o2
  | Fall b1 r1, Fall b2 r2 => r1 = r2 /\ R b1 b2
  | _, _ => False
  end.

(** The common shape of the three blocks of the request line, and the
    rest of the function after the first and after the second block. *)
Definition parse_block (getter : Request.t -> string)
    (setter : string -> Request.t -> Request.t)
    (scanner : nat -> string -> Buffer.t -> option scan) (e : parse_exit)
    (fuel : nat) (buffer : Buffer.t) (request : Request.t) : option block :=
  if str_empty (getter request)
  then
    match scanner fuel "" buffer with
    | None => None
    | Some (Exhausted buffer) => Some (Return (Returned e buffer request))
    | Some (Token identifier _ buffer) =>
        Some (Fall buffer (setter identifier request))
    end
  else Some (Fall buffer request).

Definition from_headers (fuel : nat) (buffer : Buffer.t) (request : Request.t)
    : option outcome :=
  parse_headers fuel "" buffer request.

Definition from_version (fuel : nat) (buffer : Buffer.t) (request : Request.t)
    : option outcome :=
  and_then (parse_version fuel buffer request) (from_headers fuel).

Definition from_path (fuel : nat) (buffer : Buffer.t) (request : Request.t)
    : option outcome :=
  and_then (parse_path fuel buffer request) (from_version fuel).

(** Where the next call starts to read: the first block whose guard
    ([request.getX().empty()]) holds, or the header loop. A call that
    returned for lack of data resumes its own loop when this is its
    [parse_exit]. *)
Definition resume_point (request : Request.t) : parse_exit :=
  if str_empty (Request.getType request) then need_type
  else if str_empty (Request.getPath request) then need_path
  else if str_empty (Request.getVersion request) then need_version
  else need_header.

(** Appending the pieces one at a time, with a call of the parser after
    each append. An exception ends the sequence (as in [ProcessRequest]). *)
Fixpoint feed (piece : string) (pieces : list string) (buffer : Buffer.t)
    (request : Request.t) : option outcome :=
  match DeserializeRequest (Buffer.append piece buffer) request with
  | None => None
  | Some (Thrown what buffer request) => Some (Thrown what buffer request)
  | Some (Returned e buffer request) =>
      match pieces with
      | [] => Some (Returned e buffer request)
      | piece' :: pieces' => feed piece' pieces' buffer request
      end
  end.

(** The splits for which the parser is resumable: every call but the last
    either throws, or returns for lack of data in the loop where the next
    call resumes, without having stored a header. *)
Fixpoint resumable (piece : string) (pieces : list string) (buffer : Buffer.t)
    (request : Request.t) : Prop :=
  match pieces with
  | [] => True
  | piece' :: pieces' =>
      match DeserializeRequest (Buffer.append piece buffer) request with
      | None => False
      | Some (Thrown _ _ _) => True
      | Some (Returned e buffer' request') =>
          (e = resume_point request') /\ (e ≠ header_end) /\
          (Request.headers request' = ∅) /\
          resumable piece' pieces' buffer' request'
      end
  end.

(** A part [K] of the function is resumable: when it returns for lack of
    data under the conditions of [resumable], a new call on the longer
    buffer does what [K] would have done on it. *)
Definition resumes (F1 F2 : nat) (rest : string)
    (K : nat -> Buffer.t -> Request.t -> option outcome) : Prop :=
  forall B req e buf1 req1,
    K F1 B req = Some (Returned e buf1 req1) ->
    e = resume_point req1 -> e ≠ header_end ->
    Request.headers req1 = ∅ ->
    Buffer.headCursor B = Buffer.rollbackCursor B ->
    DeserializeRequest_fuel F2 (Buffer.append rest buf1) req1
    = K F2 (Buffer.append rest B) req.

(** The pieces, concatenated. *)
Definition whole (pieces : list string) : string :=
  foldr String.append "" pieces.

(** The number of bytes that the calls of [recv] add to the request
    buffer. *)
Fixpoint received (socket : list recv_result) : nat :=
  match socket with
  | [] => 0
  | recv_bytes bytes :: socket' => String.length (c_str bytes) + received socket'
  | _ :: socket' => received socket'
  end.

(** A request whose header block (request line, one header line, empty
    line) has [23 + n] bytes, as it arrives in two segments. *)
Definition request_of_size (n : Z) : list recv_result :=
  [recv_bytes ("GET / HTTP/1.1" +:+ CRLF);
   recv_bytes ("A: " +:+ fill (Z.to_nat n) "x" +:+ CRLF +:+ CRLF)].

(** What is left of a connection after [ProcessRequest]: the return value,
    the stage, the status code, the head cursor of the request buffer and
    the number of bytes in it. *)
Definition summary (r : option (bool * ConnectionState))
    : option (bool * Stage * Z * Z * Z) :=
  (fun r => (r.1, stage r.2, Response.statusCode (response r.2),
             Buffer.sizeBeforeCursor (reqBuffer r.2),
             Z.of_nat (Buffer.size_nat (reqBuffer r.2)))) <$> r.

End Parsing.

(** ** Notions for the further properties *)

Module Cursors.

(** A cursor is at 0 or on a character of the string. *)
Definition on_char (cursor : Z) (b : Buffer.t) : Prop :=
  cursor = 0 \/ 0 < cursor < Z.of_nat (Buffer.size_nat b).

Definition readable (b : Buffer.t) : Prop :=
  on_char (Buffer.headCursor b) b /\ on_char (Buffer.rollbackCursor b) b.

(** The operations of a reader between a commit and a rollback. *)
Definition reads (o : Buffer.op) : bool :=
  match o with
  | Buffer.op_next | Buffer.op_append _ => true
  | _ => false
  end.

(** What the operations append, in order. *)
Definition appended_by (ops : list Buffer.op) : string :=
  foldr (fun o rest =>
           match o with Buffer.op_append other => other +:+ rest | _ => rest end)
    "" ops.

End Cursors.

Module Words.

(** No character of [s] is [c]. *)
Fixpoint without (c : ascii) (s : string) : bool :=
  match s with
  | EmptyString => true
  | String x s' => negb (Ascii.eqb x c) && without c s'
  end.

(** A request line after a first character [c], followed by [rest]. *)
Definition request_line (c : ascii) (method path version rest : string)
    : string :=
  String c
    (method +:+ String SP (path +:+ String SP (version +:+ CRLF +:+ rest))).

(** A request line and the empty line. *)
Definition request_head (c : ascii) (method path version : string) : string :=
  request_line c method path version CRLF.

(** No character of [s] ends a header key: no colon, no line end. *)
Definition key_like (s : string) : bool :=
  without COLON s && without CR s && without LF s.

End Words.

(** The commit point after a call, against the one before. *)
Definition advanced (b : Buffer.t) (o : Server.outcome) : Prop :=
  Buffer.rollbackCursor b <= Buffer.rollbackCursor (Parsing.outcome_buffer o)
  /\ Buffer.rollbackCursor (Parsing.outcome_buffer o)
     <= Buffer.headCursor (Parsing.outcome_buffer o).

(** Where a call has thrown: the head cursor is on a character other than
    the space, right behind a colon, and the message names that
    character. *)
Definition thrown_at (what : string) (b : Buffer.t) : Prop :=
  1 <= Buffer.headCursor b /\
  char_at (Buffer.buffer b) (Buffer.headCursor b - 1) = COLON /\
  Buffer.current b ≠ SP /\
  what = Server.expected_space (Buffer.current b).

Module Sending.

Import Server.

(** The header lines as [SerializeResponse] writes them. *)
Definition header_block (headers : list (string * string)) : string :=
  foldr (fun header rest =>
           if str_empty header.2 then rest else header_line header +:+ rest)
    "" headers.

(** A response buffer with something left to send: the head cursor is on
    a character, and the length fits an [int]. *)
Definition ready (b : Buffer.t) : Prop :=
  0 <= Buffer.headCursor b < Z.of_nat (Buffer.size_nat b) /\
  Z.of_nat (Buffer.size_nat b) < 2^31.

(** The buffer that [ProcessResponse] sends from: the response buffer of
    the connection, or the serialized response when that is still empty. *)
Definition response_buffer
    (enumerate : gmap string string -> list (string * string)) (now : Z)
    (state : ConnectionState) : Buffer.t :=
  if Buffer.empty (resBuffer state)
  then SerializeResponse enumerate (Response.setDate now (response state))
         (resBuffer state)
  else resBuffer state.

End Sending.

(** What a call of [ProcessResponse] leaves of the connection when it does
    not take the branch of the finished response. *)
Definition still_sending (b : Buffer.t) (state : ConnectionState)
    (r : Server.response_result) : Prop :=
  (Server.res_exit r = Server.res_would_block /\ Server.res_ret r = true \/
   Server.res_exit r = Server.res_failed /\ Server.res_ret r = false) /\
  fd (Server.res_state r) = fd state /\
  stage (Server.res_state r) = stage state /\
  reqBuffer (Server.res_state r) = reqBuffer state /\
  request (Server.res_state r) = request state /\
  Buffer.buffer (resBuffer (Server.res_state r)) = Buffer.buffer b /\
  Sending.ready (resBuffer (Server.res_state r)).

(** The sum of the byte counts of a list of sends. *)
Definition sent_total (counts : list nat) : nat := foldr Nat.add 0%nat counts.

Module Serving.

Import Server.

(** A connection whose response nobody has touched yet. *)
Definition untouched (state : ConnectionState) : Prop :=
  stage state = REQ /\ response state = Response.init.

(** A connection that answers with the 400 response of [ProcessRequest]. *)
Definition answers_400 (state : ConnectionState) : Prop :=
  stage state = RES /\
  Response.statusCode (response state) = 400 /\
  Response.statusReason (response state) = "Bad Request".

(** An entry of [conStateMap] as the loop keeps it. *)
Definition managed (key : Z) (state : ConnectionState) : Prop :=
  fd state = key /\ 0 < key /\ (untouched state \/ answers_400 state).

(** The number of bytes that the calls of [recv] deliver while the events
    are handled. *)
Definition received_by (conEvents : list event) : nat :=
  foldr (fun ev n => (Parsing.received (ev_recv ev) + n)%nat) 0%nat conEvents.

Definition received_in (waits : list wait_result) : nat :=
  foldr (fun w n =>
           match w with
           | wait_events conEvents => (received_by conEvents + n)%nat
           | wait_failed _ => n
           end) 0%nat waits.

(** What the loop keeps of [conStateMap] and of the open connection
    descriptors, with [budget] bytes still to come. *)
Definition kept (budget : nat) (conStateMap : gmap Z ConnectionState)
    (fds : gset Z) : Prop :=
  (forall key state, conStateMap !! key = Some state ->
     managed key state /\ Parsing.parse_ready (reqBuffer state) /\
     Z.of_nat (Buffer.size_nat (reqBuffer state) + budget) < 2^63) /\
  fds ⊆ dom conStateMap.

(** The same for what [Serve] has come to. *)
Definition served_kept (budget : nat) (r : served) : Prop :=
  match r with
  | Running conStateMap fds => kept budget conStateMap fds
  | Exited fds | Failed _ fds => fds = ∅
  end.

(** Events of descriptors that some open file can have. *)
Definition valid_events (waits : list wait_result) : Prop :=
  Forall (fun w =>
            match w with
            | wait_events conEvents =>
                Forall (fun ev => 0 <= ev_fd ev) conEvents
            | wait_failed _ => True
            end) waits.

End Serving.

(** ** Notions for the statement about the loop of [ProcessRequest] *)

Module Receiving.

Import Server.

(** What the parser makes of the request buffer with a received segment
    appended. *)
Definition parsed (bytes : string) (state : ConnectionState)
    : option outcome :=
  DeserializeRequest (Buffer.append_cstr bytes (reqBuffer state))
    (request state).

(** A segment after which the loop calls [recv] again: the parser returns,
    at whichever of its [return]s, the one after the empty line among
    them, and the head cursor is within the limit. *)
Definition taken_in (bytes : string) (state state' : ConnectionState)
    : Prop :=
  exists e buffer request,
    parsed bytes state = Some (Returned e buffer request) /\
    Buffer.sizeBeforeCursor buffer <= maxHeaderSize /\
    state' = with_parse buffer request state.

Inductive all_taken_in
    : ConnectionState -> list string -> ConnectionState -> Prop :=
| taken_nil state : all_taken_in state [] state
| taken_cons state bytes state1 segments state2 :
    taken_in bytes state state1 ->
    all_taken_in state1 segments state2 ->
    all_taken_in state (bytes :: segments) state2.

(** A segment that ends the call in the [catch] block with the message
    [what]: the parser throws, or the head cursor is beyond the limit. *)
Definition refused (bytes what : string) (state state' : ConnectionState)
    : Prop :=
  exists buffer request,
    (parsed bytes state = Some (Thrown what buffer request) \/
     exists e,
       parsed bytes state = Some (Returned e buffer request) /\
       maxHeaderSize < Buffer.sizeBeforeCursor buffer /\
       what = "Header size exceeds defined maximum size") /\
    state' = bad_request what (with_parse buffer request state).

End Receiving.


(** * Properties *)

(** ** Machine integers *)

Lemma wrap_range (z : Z) : Int.range (Int.wrap z).
Proof.
  unfold Int.range, Int.wrap.
  pose proof (Z.mod_pos_bound (z + 2^31) (2^32)). lia.
Qed.

Lemma wrap_id (z : Z) : Int.range z -> Int.wrap z = z.
Proof.
  unfold Int.range, Int.wrap. intros H.
  rewrite Z.mod_small; lia.
Qed.

Lemma to_size_t_nonneg (z : Z) : 0 <= z < 2^64 -> Int.to_size_t z = z.
Proof. intros H. unfold Int.to_size_t. rewrite Z.mod_small; lia. Qed.

Lemma to_size_t_neg (z : Z) : - 2^31 <= z < 0 -> 2^63 <= Int.to_size_t z.
Proof.
  intros H. unfold Int.to_size_t.
  replace z with (z + 2^64 + (-1) * 2^64) by lia.
  rewrite Z.mod_add by lia. rewrite Z.mod_small; lia.
Qed.

(** An [int] that passes [i < size] for a size a string can have is a
    valid index. *)
Lemma lt_size_inv (i : Z) (size : nat) :
  Int.range i -> Z.of_nat size < 2^63 ->
  Int.lt_size i size = true -> 0 <= i < Z.of_nat size.
Proof.
  unfold Int.lt_size. intros Hi Hs Hlt. apply Z.ltb_lt in Hlt.
  destruct (Z_lt_le_dec i 0) as [Hneg | Hpos].
  - pose proof (to_size_t_neg i). unfold Int.range in Hi. lia.
  - rewrite to_size_t_nonneg in Hlt; unfold Int.range in Hi; lia.
Qed.

Lemma lt_size_intro (i : Z) (size : nat) :
  0 <= i < Z.of_nat size -> i < 2^64 -> Int.lt_size i size = true.
Proof.
  intros H1 H2. unfold Int.lt_size. apply Z.ltb_lt.
  rewrite to_size_t_nonneg; lia.
Qed.

(** ** Strings *)

Lemma app_cons (c : ascii) (s t : string) :
  String c s +:+ t = String c (s +:+ t).
Proof. reflexivity. Qed.

Lemma app_nil_l (s : string) : "" +:+ s = s.
Proof. reflexivity. Qed.

Lemma app_nil_r (s : string) : s +:+ "" = s.
Proof. induction s as [|c s IH]; [reflexivity|]. now rewrite app_cons, IH. Qed.

Lemma app_assoc (s t u : string) : (s +:+ t) +:+ u = s +:+ (t +:+ u).
Proof.
  induction s as [|c s IH]; [reflexivity|]. now rewrite !app_cons, IH.
Qed.

Lemma app_length (s t : string) :
  String.length (s +:+ t) = (String.length s + String.length t)%nat.
Proof.
  induction s as [|c s IH]; [reflexivity|].
  rewrite app_cons. simpl. now rewrite IH.
Qed.

(** ** The buffer *)

(** What a successful [next()] did. *)
Lemma next_Some (b b' : Buffer.t) (c : ascii) :
  Buffer.typed b -> 0 <= Buffer.headCursor b ->
  Buffer.next b = (Some c, b') ->
  Buffer.headCursor b + 1 < Z.of_nat (Buffer.size_nat b) /\
  c = char_at (Buffer.buffer b) (Buffer.headCursor b + 1) /\
  b' = Buffer.mk (Buffer.buffer b) (Buffer.headCursor b + 1)
         (Buffer.rollbackCursor b).
Proof.
  intros (Hh & _ & Hs) H0. unfold Buffer.next.
  destruct (Int.lt_size _ _) eqn:Hlt; [|discriminate].
  intros [= <- <-].
  apply lt_size_inv in Hlt; [|apply wrap_range|assumption].
  assert (Hw : Int.add (Buffer.headCursor b) 1 = Buffer.headCursor b + 1).
  { unfold Int.add in *. unfold Int.range in Hh.
    destruct (Z_lt_le_dec (Buffer.headCursor b + 1) (2^31)).
    - apply wrap_id. unfold Int.range. lia.
    - assert (Buffer.headCursor b + 1 = 2^31) as -> by lia.
      exfalso. revert Hlt.
      assert (Buffer.headCursor b + 1 = 2^31) as -> by lia.
      vm_compute. intros [Hc _]. apply Hc. reflexivity. }
  rewrite Hw in *. rewrite to_size_t_nonneg by lia.
  split; [lia|split; reflexivity].
Qed.

Lemma next_None (b b' : Buffer.t) : Buffer.next b = (None, b') -> b' = b.
Proof.
  unfold Buffer.next. destruct (Int.lt_size _ _); [discriminate|].
  now intros [= <-].
Qed.

Lemma next_buffer (b : Buffer.t) :
  Buffer.buffer (Buffer.next b).2 = Buffer.buffer b.
Proof. unfold Buffer.next. now destruct (Int.lt_size _ _). Qed.

Lemma apply_typed (o : Buffer.op) (b : Buffer.t) :
  Buffer.typed b -> Buffer.op_typed o ->
  Z.of_nat (Buffer.size_nat (Buffer.apply o b)) < 2^63 ->
  Buffer.typed (Buffer.apply o b).
Proof.
  intros (Hh & Hr & Hs) Ho Hs'. unfold Buffer.typed. split; [|split]; [| |exact Hs'].
  - destruct o; simpl in *; try assumption; try (unfold Int.range; lia).
    + unfold Buffer.next, Int.add.
      destruct (Int.lt_size _ _); simpl; auto using wrap_range.
    + unfold Buffer.set. destruct (_ && _); simpl; auto.
    + unfold Buffer.increment, Int.add.
      destruct (_ && _); simpl; auto using wrap_range.
  - destruct o; simpl in *; try assumption; try (unfold Int.range; lia).
    + unfold Buffer.next. destruct (Int.lt_size _ _); simpl; auto.
    + unfold Buffer.set. destruct (_ && _); simpl; auto.
    + unfold Buffer.increment. destruct (_ && _); simpl; auto.
Qed.

Lemma size_nat_append (s : string) (b : Buffer.t) :
  Buffer.size_nat (Buffer.append s b)
  = (Buffer.size_nat b + String.length s)%nat.
Proof. unfold Buffer.size_nat, Buffer.append. simpl. apply app_length. Qed.

(** One operation keeps the cursors within the string. *)
Lemma apply_bounded (o : Buffer.op) (b : Buffer.t) :
  Buffer.typed b -> Buffer.op_typed o ->
  Buffer.cursors_bounded b -> Buffer.cursors_bounded (Buffer.apply o b).
Proof.
  intros Ht Ho (Hr & Hh). unfold Buffer.cursors_bounded.
  destruct o; simpl in *.
  - unfold Buffer.size_nat. simpl. lia.
  - rewrite size_nat_append. simpl. lia.
  - destruct (Buffer.next b) as [[c|] b'] eqn:Hn; simpl.
    + apply next_Some in Hn as (Hlt & _ & ->); [|assumption|lia].
      unfold Buffer.size_nat in *. simpl. lia.
    + apply next_None in Hn as ->. lia.
  - unfold Buffer.size_nat in *. simpl. lia.
  - unfold Buffer.size_nat in *. simpl. lia.
  - unfold Buffer.size_nat in *. simpl. lia.
  - unfold Buffer.set. destruct (_ && _) eqn:Hc; simpl; [|lia].
    apply andb_true_iff in Hc as [Hlt Hpos]. apply Z.leb_le in Hpos.
    unfold Int.lt_size in Hlt. apply Z.ltb_lt in Hlt.
    unfold Int.range in Ho. rewrite to_size_t_nonneg in Hlt by lia.
    unfold Buffer.size_nat in *. simpl. lia.
  - unfold Buffer.increment. destruct (_ && _) eqn:Hc; simpl; [|lia].
    apply andb_true_iff in Hc as [Hlt Hpos]. apply Z.leb_le in Hpos.
    unfold Int.lt_size in Hlt. apply Z.ltb_lt in Hlt.
    pose proof (wrap_range (Buffer.headCursor b + update)) as Hw.
    unfold Int.add in *. unfold Int.range in Hw.
    rewrite to_size_t_nonneg in Hlt by lia.
    unfold Buffer.size_nat in *. simpl. lia.
Qed.

(** The operations other than [reset], [set] and [increment] keep the
    whole invariant. *)
Lemma apply_ordered (o : Buffer.op) (b : Buffer.t) :
  Buffer.typed b -> Buffer.forward o = true ->
  Buffer.cursors_ordered b -> Buffer.cursors_ordered (Buffer.apply o b).
Proof.
  intros Ht Ho (Hr & Hh). unfold Buffer.cursors_ordered.
  destruct o; simpl in *; try discriminate.
  - unfold Buffer.size_nat. simpl. lia.
  - rewrite size_nat_append. simpl. lia.
  - destruct (Buffer.next b) as [[c|] b'] eqn:Hn; simpl.
    + apply next_Some in Hn as (Hlt & _ & ->); [|assumption|lia].
      unfold Buffer.size_nat in *. simpl. lia.
    + apply next_None in Hn as ->. lia.
  - unfold Buffer.size_nat in *. simpl. lia.
  - unfold Buffer.size_nat in *. simpl. lia.
Qed.

(** C5, as stated, fails: after [assign], [set(2)] and [commit] the rollback
    cursor is 2, and [reset] then puts the head cursor at 0. *)
Lemma Buffer_reset_breaks_order :
  let ops := [Buffer.op_assign "abc"; Buffer.op_set 2; Buffer.op_commit;
              Buffer.op_reset] in
  Buffer.cursors_ordered Buffer.init /\
  Buffer.admissible ops Buffer.init /\
  Buffer.rollbackCursor (Buffer.run ops Buffer.init) = 2 /\
  Buffer.headCursor (Buffer.run ops Buffer.init) = 0 /\
  ~ Buffer.cursors_ordered (Buffer.run ops Buffer.init).
Proof.
  repeat split; try (vm_compute; congruence).
  intros [[_ H] _]. vm_compute in H. apply H. reflexivity.
Qed.

(** C5, amended: every sequence of public operations keeps both cursors
    between 0 and the length of the string; the order
    [rollback <= head] is kept as long as the sequence uses only [assign],
    [append], [next], [rollback] and [commit]. *)
Theorem Buffer_cursors_invariant (ops : list Buffer.op) (b : Buffer.t) :
  Buffer.typed b -> Buffer.admissible ops b ->
  Buffer.cursors_bounded b ->
  Buffer.cursors_bounded (Buffer.run ops b) /\
  (forallb Buffer.forward ops = true -> Buffer.cursors_ordered b ->
   Buffer.cursors_ordered (Buffer.run ops b)).
Proof.
  revert b. induction ops as [|o ops IH]; intros b Ht Ha Hb; simpl.
  - auto.
  - destruct Ha as (Ho & Hs & Ha).
    pose proof (apply_typed o b Ht Ho Hs) as Ht'.
    pose proof (apply_bounded o b Ht Ho Hb) as Hb'.
    destruct (IH _ Ht' Ha Hb') as [IH1 IH2]. split; [exact IH1|].
    intros Hf Hord. apply andb_true_iff in Hf as [Hf1 Hf2].
    apply IH2; [exact Hf2|]. now apply apply_ordered.
Qed.

Lemma Buffer_cursors_invariant_witness :
  let ops := [Buffer.op_assign "GET / "; Buffer.op_next; Buffer.op_next;
              Buffer.op_commit; Buffer.op_append "HTTP/1.1";
              Buffer.op_next; Buffer.op_rollback] in
  Buffer.cursors_bounded (Buffer.run ops Buffer.init) /\
  Buffer.cursors_ordered (Buffer.run ops Buffer.init).
Proof.
  intros ops.
  destruct (Buffer_cursors_invariant ops Buffer.init) as [H1 H2].
  - repeat split; vm_compute; congruence.
  - repeat split; vm_compute; congruence.
  - repeat split; vm_compute; congruence.
  - split; [exact H1|]. apply H2.
    + reflexivity.
    + repeat split; vm_compute; congruence.
Defined.

(** ** The parser: termination and what a call leaves behind *)

Lemma next_typed (b : Buffer.t) : Buffer.typed b -> Buffer.typed (Buffer.next b).2.
Proof.
  intros (Hh & Hr & Hs). unfold Buffer.next, Int.add.
  destruct (Int.lt_size _ _); simpl; [|unfold Buffer.typed; auto].
  split; [apply wrap_range|]. now split.
Qed.

Lemma next_ready (b b' : Buffer.t) (c : ascii) :
  Parsing.parse_ready b -> Buffer.next b = (Some c, b') ->
  Parsing.parse_ready b' /\
  Buffer.buffer b' = Buffer.buffer b /\
  Buffer.rollbackCursor b' = Buffer.rollbackCursor b /\
  Buffer.headCursor b' = Buffer.headCursor b + 1 /\
  Buffer.headCursor b' < Z.of_nat (Buffer.size_nat b).
Proof.
  intros [Ht [Hr Hh]] Hn.
  pose proof (next_typed b Ht) as Ht'. rewrite Hn in Ht'. simpl in Ht'.
  apply next_Some in Hn as (Hlt & _ & ->); [|assumption|lia].
  split; [split; [exact Ht'|]|].
  - unfold Buffer.cursors_bounded, Buffer.size_nat in *. simpl in *. lia.
  - unfold Buffer.size_nat in *. simpl. repeat split; try reflexivity; lia.
Qed.

Lemma rollback_ready (b : Buffer.t) :
  Parsing.parse_ready b -> Parsing.parse_ready (Buffer.rollback b).
Proof.
  intros [(Hh & Hr & Hs) [Hr' Hh']].
  unfold Parsing.parse_ready, Buffer.typed, Buffer.cursors_bounded,
    Buffer.size_nat in *. simpl. split; [auto|lia].
Qed.

Lemma commit_ready (b : Buffer.t) :
  Parsing.parse_ready b -> Parsing.parse_ready (Buffer.commit b).
Proof.
  intros [(Hh & Hr & Hs) [Hr' Hh']].
  unfold Parsing.parse_ready, Buffer.typed, Buffer.cursors_bounded,
    Buffer.size_nat in *. simpl. split; [auto|lia].
Qed.

(** Both scanning loops end, with the buffer rolled back or committed
    further on. *)
Lemma scan_until_space_total (fuel : nat) (identifier : string) (b : Buffer.t) :
  Parsing.parse_ready b ->
  Z.of_nat (Buffer.size_nat b) - Buffer.headCursor b < Z.of_nat fuel ->
  exists r, Server.scan_until_space fuel identifier b = Some r /\
            Parsing.scan_post b r.
Proof.
  revert identifier b.
  induction fuel as [|fuel IH]; intros identifier b Hb Hf.
  - destruct Hb as [_ [_ Hh]]. lia.
  - simpl. destruct (Buffer.next b) as [[c|] b1] eqn:Hn.
    + destruct (next_ready _ _ _ Hb Hn) as (Hb1 & Hbuf & Hrb & Hhd & Hlt).
      destruct (Ascii.eqb c SP).
      * eexists. split; [reflexivity|]. simpl.
        split; [exact Hbuf|]. split; [now apply commit_ready|]. split; [lia|reflexivity].
      * destruct (IH (push_back identifier c) b1 Hb1) as (r & Hr & Hpost).
        { unfold Buffer.size_nat in *. rewrite Hbuf. lia. }
        exists r. split; [exact Hr|].
        destruct r as [bx|tok d bx]; simpl in *.
        -- rewrite Hpost. unfold Buffer.rollback. now rewrite Hbuf, Hrb.
        -- destruct Hpost as (? & ? & ? & ?).
           split; [congruence|]. split; [assumption|]. split; [lia|assumption].
    + apply next_None in Hn as ->. eexists. split; reflexivity.
Qed.

Lemma scan_until_newline_total (fuel : nat) (identifier : string) (b : Buffer.t) :
  Parsing.parse_ready b ->
  Z.of_nat (Buffer.size_nat b) - Buffer.headCursor b < Z.of_nat fuel ->
  exists r, Server.scan_until_newline fuel identifier b = Some r /\
            Parsing.scan_post b r.
Proof.
  revert identifier b.
  induction fuel as [|fuel IH]; intros identifier b Hb Hf.
  - destruct Hb as [_ [_ Hh]]. lia.
  - simpl. destruct (Buffer.next b) as [[c|] b1] eqn:Hn.
    + destruct (next_ready _ _ _ Hb Hn) as (Hb1 & Hbuf & Hrb & Hhd & Hlt).
      assert (Hrec : forall identifier',
        exists r, Server.scan_until_newline fuel identifier' b1 = Some r /\
                  Parsing.scan_post b r).
      { intros identifier'.
        destruct (IH identifier' b1 Hb1) as (r & Hr & Hpost).
        { unfold Buffer.size_nat in *. rewrite Hbuf. lia. }
        exists r. split; [exact Hr|].
        destruct r as [bx|tok d bx]; simpl in *.
        - rewrite Hpost. unfold Buffer.rollback. now rewrite Hbuf, Hrb.
        - destruct Hpost as (? & ? & ? & ?).
          split; [congruence|]. split; [assumption|]. split; [lia|assumption]. }
      destruct (Ascii.eqb c CR); [apply Hrec|].
      destruct (Ascii.eqb c LF); [|apply Hrec].
      eexists. split; [reflexivity|]. simpl.
      split; [exact Hbuf|]. split; [now apply commit_ready|]. split; [lia|reflexivity].
    + apply next_None in Hn as ->. eexists. split; reflexivity.
Qed.

Lemma outcome_post_next (b b1 : Buffer.t) (o : Server.outcome) :
  Buffer.buffer b1 = Buffer.buffer b ->
  Parsing.outcome_post b1 o -> Parsing.outcome_post b o.
Proof. intros Hbuf (H1 & H2 & H3). split; [congruence|]. now split. Qed.

Lemma parse_headers_total (fuel : nat) (identifier : string) (b : Buffer.t)
    (request : Request.t) :
  Parsing.parse_ready b ->
  Z.of_nat (Buffer.size_nat b) - Buffer.headCursor b < Z.of_nat fuel ->
  exists o, Server.parse_headers fuel identifier b request = Some o /\
            Parsing.outcome_post b o.
Proof.
  revert identifier b request.
  induction fuel as [|fuel IH]; intros identifier b request Hb Hf.
  - destruct Hb as [_ [_ Hh]]. lia.
  - simpl. destruct (Buffer.next b) as [[c|] b1] eqn:Hn.
    + destruct (next_ready _ _ _ Hb Hn) as (Hb1 & Hbuf & Hrb & Hhd & Hlt).
      assert (Hf1 : Z.of_nat (Buffer.size_nat b1) - Buffer.headCursor b1
                    < Z.of_nat fuel).
      { unfold Buffer.size_nat in *. rewrite Hbuf. lia. }
      assert (Hrec : forall identifier',
        exists o, Server.parse_headers fuel identifier' b1 request = Some o /\
                  Parsing.outcome_post b o).
      { intros identifier'.
        destruct (IH identifier' b1 request Hb1 Hf1) as (o & Ho & Hpost).
        exists o. split; [exact Ho|]. eapply outcome_post_next; eauto. }
      destruct (Ascii.eqb c CR); [apply Hrec|].
      destruct (Ascii.eqb c LF).
      { eexists. split; [reflexivity|]. split; [exact Hbuf|].
        split; [now apply commit_ready|reflexivity]. }
      destruct (Ascii.eqb c COLON); [|apply Hrec].
      destruct (Buffer.next b1) as [[c2|] b2] eqn:Hn2.
      * destruct (next_ready _ _ _ Hb1 Hn2) as (Hb2 & Hbuf2 & Hrb2 & Hhd2 & Hlt2).
        destruct (negb (Ascii.eqb c2 SP)).
        { eexists. split; [reflexivity|]. split; [simpl; congruence|].
          split; [exact Hb2|exact I]. }
        destruct (scan_until_newline_total fuel "" b2 Hb2) as (r & Hr & Hpost).
        { unfold Buffer.size_nat in *. rewrite Hbuf2. lia. }
        rewrite Hr. destruct r as [bx|value c3 b3]; simpl in Hpost.
        -- subst bx. eexists. split; [reflexivity|].
           split; [simpl; congruence|].
           split; [now apply rollback_ready|reflexivity].
        -- destruct Hpost as (Hbuf3 & Hb3 & Hhd3 & Hrb3).
           destruct (IH (push_back "" c3) b3
                       (Request.setHeader identifier value request) Hb3)
             as (o & Ho & Hpost).
           { unfold Buffer.size_nat in *. rewrite Hbuf3, Hbuf2. lia. }
           exists o. split; [exact Ho|].
           eapply outcome_post_next; [|exact Hpost]. congruence.
      * apply next_None in Hn2 as ->. eexists. split; [reflexivity|].
        split; [simpl; congruence|].
        split; [now apply rollback_ready|reflexivity].
    + apply next_None in Hn as ->. eexists. split; [reflexivity|].
      split; [reflexivity|]. split; [now apply rollback_ready|reflexivity].
Qed.

(** [DeserializeRequest] returns or throws: the fuel it is given is
    enough. *)
Lemma DeserializeRequest_total (b : Buffer.t) (request : Request.t) :
  Parsing.parse_ready b ->
  exists o, Server.DeserializeRequest b request = Some o /\
            Parsing.outcome_post b o.
Proof.
  intros Hb. unfold Server.DeserializeRequest, Server.DeserializeRequest_fuel.
  set (fuel := S (Buffer.size_nat b)).
  assert (Hfuel : forall b', Parsing.parse_ready b' ->
            Buffer.buffer b' = Buffer.buffer b ->
            Z.of_nat (Buffer.size_nat b') - Buffer.headCursor b' < Z.of_nat fuel).
  { intros b' [_ [_ Hh]] Hbuf. unfold fuel, Buffer.size_nat in *.
    rewrite Hbuf. lia. }
  (* the type *)
  assert (H1 : exists blk, Server.parse_type fuel b request = Some blk /\
             Parsing.block_post b blk).
  { unfold Server.parse_type. destruct (str_empty _).
    - destruct (scan_until_space_total fuel "" b Hb (Hfuel b Hb eq_refl))
        as (r & -> & Hpost).
      destruct r as [bx|tok d bx]; simpl in Hpost; eexists; (split; [reflexivity|]).
      + subst bx. simpl. split; [reflexivity|].
        split; [now apply rollback_ready|reflexivity].
      + simpl. tauto.
    - eexists. split; [reflexivity|]. simpl. tauto. }
  destruct H1 as (blk1 & -> & Hblk1). simpl.
  destruct blk1 as [o|b1 request1]; [eauto|]. destruct Hblk1 as [Hbuf1 Hb1].
  (* the path *)
  assert (H2 : exists blk, Server.parse_path fuel b1 request1 = Some blk /\
             Parsing.block_post b1 blk).
  { unfold Server.parse_path. destruct (str_empty _).
    - destruct (scan_until_space_total fuel "" b1 Hb1 (Hfuel b1 Hb1 Hbuf1))
        as (r & -> & Hpost).
      destruct r as [bx|tok d bx]; simpl in Hpost; eexists; (split; [reflexivity|]).
      + subst bx. simpl. split; [reflexivity|].
        split; [now apply rollback_ready|reflexivity].
      + simpl. tauto.
    - eexists. split; [reflexivity|]. simpl. tauto. }
  destruct H2 as (blk2 & -> & Hblk2). simpl.
  destruct blk2 as [o|b2 request2].
  { exists o. split; [reflexivity|]. eapply outcome_post_next; eauto. }
  destruct Hblk2 as [Hbuf2 Hb2].
  (* the version *)
  assert (H3 : exists blk, Server.parse_version fuel b2 request2 = Some blk /\
             Parsing.block_post b2 blk).
  { unfold Server.parse_version. destruct (str_empty _).
    - destruct (scan_until_newline_total fuel "" b2 Hb2) as (r & -> & Hpost).
      { apply Hfuel; congruence. }
      destruct r as [bx|tok d bx]; simpl in Hpost; eexists; (split; [reflexivity|]).
      + subst bx. simpl. split; [reflexivity|].
        split; [now apply rollback_ready|reflexivity].
      + simpl. tauto.
    - eexists. split; [reflexivity|]. simpl. tauto. }
  destruct H3 as (blk3 & -> & Hblk3). simpl.
  destruct blk3 as [o|b3 request3].
  { exists o. split; [reflexivity|]. eapply outcome_post_next; [|exact Hblk3].
    congruence. }
  destruct Hblk3 as [Hbuf3 Hb3].
  (* the headers *)
  destruct (parse_headers_total fuel "" b3 request3 Hb3) as (o & Ho & Hpost).
  { apply Hfuel; congruence. }
  exists o. split; [exact Ho|]. eapply outcome_post_next; [|exact Hpost].
  congruence.
Qed.

(** ** The parser reads the buffer through [next()] only

    If a relation between buffers is kept by [next()] and [commit()], the
    parser run on related buffers gives related results, as far as they do
    not come from running out of data; if the relation is also kept when
    [next()] finds nothing and by [rollback()] ([strict]), then all results
    are related. *)

Section Simulation.

Variable R : Buffer.t -> Buffer.t -> Prop.
Variable strict : bool.

Hypothesis R_next : forall b1 b2 c b1', R b1 b2 ->
  Buffer.next b1 = (Some c, b1') ->
  exists b2', Buffer.next b2 = (Some c, b2') /\ R b1' b2'.
Hypothesis R_commit : forall b1 b2, R b1 b2 ->
  R (Buffer.commit b1) (Buffer.commit b2).
Hypothesis R_none : strict = true -> forall b1 b2 b1', R b1 b2 ->
  Buffer.next b1 = (None, b1') -> Buffer.next b2 = (None, b2).
Hypothesis R_rollback : strict = true -> forall b1 b2, R b1 b2 ->
  R (Buffer.rollback b1) (Buffer.rollback b2).

Lemma scan_until_space_sim (fuel fuel' : nat) (identifier : string)
    (b1 b2 : Buffer.t) (r1 : Server.scan) :
  R b1 b2 -> (fuel <= fuel')%nat ->
  Server.scan_until_space fuel identifier b1 = Some r1 ->
  strict = true \/ Parsing.scan_final r1 ->
  exists r2, Server.scan_until_space fuel' identifier b2 = Some r2 /\
             Parsing.scan_rel R r1 r2.
Proof.
  revert fuel' identifier b1 b2.
  induction fuel as [|fuel IH]; intros fuel' identifier b1 b2 HR Hle Hs Hfin;
    [discriminate|].
  destruct fuel' as [|fuel']; [lia|]. simpl in *.
  destruct (Buffer.next b1) as [[c|] b1'] eqn:Hn.
  - destruct (R_next _ _ _ _ HR Hn) as (b2' & -> & HR').
    destruct (Ascii.eqb c SP).
    + injection Hs as <-. eexists. split; [reflexivity|]. simpl. auto.
    + eapply IH; eauto. lia.
  - injection Hs as <-. destruct Hfin as [Hstrict|[]].
    rewrite (R_none Hstrict _ _ _ HR Hn).
    eexists. split; [reflexivity|]. simpl.
    apply next_None in Hn as ->. now apply R_rollback.
Qed.

Lemma scan_until_newline_sim (fuel fuel' : nat) (identifier : string)
    (b1 b2 : Buffer.t) (r1 : Server.scan) :
  R b1 b2 -> (fuel <= fuel')%nat ->
  Server.scan_until_newline fuel identifier b1 = Some r1 ->
  strict = true \/ Parsing.scan_final r1 ->
  exists r2, Server.scan_until_newline fuel' identifier b2 = Some r2 /\
             Parsing.scan_rel R r1 r2.
Proof.
  revert fuel' identifier b1 b2.
  induction fuel as [|fuel IH]; intros fuel' identifier b1 b2 HR Hle Hs Hfin;
    [discriminate|].
  destruct fuel' as [|fuel']; [lia|]. simpl in *.
  destruct (Buffer.next b1) as [[c|] b1'] eqn:Hn.
  - destruct (R_next _ _ _ _ HR Hn) as (b2' & -> & HR').
    destruct (Ascii.eqb c CR); [eapply IH; eauto; lia|].
    destruct (Ascii.eqb c LF).
    + injection Hs as <-. eexists. split; [reflexivity|]. simpl. auto.
    + eapply IH; eauto. lia.
  - injection Hs as <-. destruct Hfin as [Hstrict|[]].
    rewrite (R_none Hstrict _ _ _ HR Hn).
    eexists. split; [reflexivity|]. simpl.
    apply next_None in Hn as ->. now apply R_rollback.
Qed.

Lemma parse_headers_sim (fuel fuel' : nat) (identifier : string)
    (b1 b2 : Buffer.t) (request : Request.t) (o1 : Server.outcome) :
  R b1 b2 -> (fuel <= fuel')%nat ->
  Server.parse_headers fuel identifier b1 request = Some o1 ->
  strict = true \/ Parsing.outcome_final o1 ->
  exists o2, Server.parse_headers fuel' identifier b2 request = Some o2 /\
             Parsing.outcome_rel R o1 o2.
Proof.
  revert fuel' identifier b1 b2 request.
  induction fuel as [|fuel IH];
    intros fuel' identifier b1 b2 request HR Hle Hs Hfin; [discriminate|].
  destruct fuel' as [|fuel']; [lia|]. simpl in *.
  assert (Hle' : (fuel <= fuel')%nat) by lia.
  destruct (Buffer.next b1) as [[c|] b1'] eqn:Hn.
  - destruct (R_next _ _ _ _ HR Hn) as (b2' & -> & HR').
    destruct (Ascii.eqb c CR); [eapply IH; eauto|].
    destruct (Ascii.eqb c LF).
    { injection Hs as <-. eexists. split; [reflexivity|].
      repeat split; simpl; auto. }
    destruct (Ascii.eqb c COLON); [|eapply IH; eauto].
    destruct (Buffer.next b1') as [[c2|] b1''] eqn:Hn2.
    + destruct (R_next _ _ _ _ HR' Hn2) as (b2'' & -> & HR'').
      destruct (negb (Ascii.eqb c2 SP)).
      { injection Hs as <-. eexists. split; [reflexivity|].
        repeat split; simpl; auto. }
      destruct (Server.scan_until_newline fuel "" b1'') as [r1|] eqn:Hscan;
        [|discriminate].
      destruct r1 as [bx|value c3 b3].
      * injection Hs as <-. destruct Hfin as [Hstrict|[]].
        destruct (scan_until_newline_sim _ fuel' _ _ _ _ HR'' Hle' Hscan)
          as (r2 & -> & Hrel); [now left|].
        destruct r2 as [by_|? ? ?]; [|destruct Hrel].
        eexists. split; [reflexivity|]. repeat split; simpl; auto.
      * destruct (scan_until_newline_sim _ fuel' _ _ _ _ HR'' Hle' Hscan)
          as (r2 & -> & Hrel); [now right|].
        destruct r2 as [?|value' c3' b3']; [destruct Hrel|].
        destruct Hrel as (<- & <- & HR3). eapply IH; eauto.
    + injection Hs as <-. destruct Hfin as [Hstrict|[]].
      rewrite (R_none Hstrict _ _ _ HR' Hn2).
      eexists. split; [reflexivity|]. repeat split; simpl; auto.
      apply next_None in Hn2 as ->. now apply R_rollback.
  - injection Hs as <-. destruct Hfin as [Hstrict|[]].
    rewrite (R_none Hstrict _ _ _ HR Hn).
    eexists. split; [reflexivity|]. repeat split; simpl; auto.
    apply next_None in Hn as ->. now apply R_rollback.
Qed.

Lemma parse_type_sim (fuel fuel' : nat) (b1 b2 : Buffer.t)
    (request : Request.t) (k1 : Server.block) :
  R b1 b2 -> (fuel <= fuel')%nat ->
  Server.parse_type fuel b1 request = Some k1 ->
  strict = true \/ Parsing.block_final k1 ->
  exists k2, Server.parse_type fuel' b2 request = Some k2 /\
             Parsing.block_rel R k1 k2.
Proof.
  intros HR Hle Hp Hfin. unfold Server.parse_type in *.
  destruct (str_empty _).
  - destruct (Server.scan_until_space fuel "" b1) as [r1|] eqn:Hscan;
      [|discriminate].
    destruct (scan_until_space_sim _ fuel' _ _ _ _ HR Hle Hscan)
      as (r2 & -> & Hrel).
    { destruct Hfin as [?|Hfin]; [now left|right].
      destruct r1; [injection Hp as <-; destruct Hfin|exact I]. }
    destruct r1 as [bx|tok c bx], r2 as [by_|tok' c' by_]; simpl in Hrel;
      try contradiction;
      injection Hp as <-; eexists; (split; [reflexivity|]); simpl.
    + repeat split; simpl; auto.
    + destruct Hrel as (<- & _ & HR'). now split.
  - injection Hp as <-. eexists. split; [reflexivity|]. simpl. auto.
Qed.

Lemma parse_path_sim (fuel fuel' : nat) (b1 b2 : Buffer.t)
    (request : Request.t) (k1 : Server.block) :
  R b1 b2 -> (fuel <= fuel')%nat ->
  Server.parse_path fuel b1 request = Some k1 ->
  strict = true \/ Parsing.block_final k1 ->
  exists k2, Server.parse_path fuel' b2 request = Some k2 /\
             Parsing.block_rel R k1 k2.
Proof.
  intros HR Hle Hp Hfin. unfold Server.parse_path in *.
  destruct (str_empty _).
  - destruct (Server.scan_until_space fuel "" b1) as [r1|] eqn:Hscan;
      [|discriminate].
    destruct (scan_until_space_sim _ fuel' _ _ _ _ HR Hle Hscan)
      as (r2 & -> & Hrel).
    { destruct Hfin as [?|Hfin]; [now left|right].
      destruct r1; [injection Hp as <-; destruct Hfin|exact I]. }
    destruct r1 as [bx|tok c bx], r2 as [by_|tok' c' by_]; simpl in Hrel;
      try contradiction;
      injection Hp as <-; eexists; (split; [reflexivity|]); simpl.
    + repeat split; simpl; auto.
    + destruct Hrel as (<- & _ & HR'). now split.
  - injection Hp as <-. eexists. split; [reflexivity|]. simpl. auto.
Qed.

Lemma parse_version_sim (fuel fuel' : nat) (b1 b2 : Buffer.t)
    (request : Request.t) (k1 : Server.block) :
  R b1 b2 -> (fuel <= fuel')%nat ->
  Server.parse_version fuel b1 request = Some k1 ->
  strict = true \/ Parsing.block_final k1 ->
  exists k2, Server.parse_version fuel' b2 request = Some k2 /\
             Parsing.block_rel R k1 k2.
Proof.
  intros HR Hle Hp Hfin. unfold Server.parse_version in *.
  destruct (str_empty _).
  - destruct (Server.scan_until_newline fuel "" b1) as [r1|] eqn:Hscan;
      [|discriminate].
    destruct (scan_until_newline_sim _ fuel' _ _ _ _ HR Hle Hscan)
      as (r2 & -> & Hrel).
    { destruct Hfin as [?|Hfin]; [now left|right].
      destruct r1; [injection Hp as <-; destruct Hfin|exact I]. }
    destruct r1 as [bx|tok c bx], r2 as [by_|tok' c' by_]; simpl in Hrel;
      try contradiction;
      injection Hp as <-; eexists; (split; [reflexivity|]); simpl.
    + repeat split; simpl; auto.
    + destruct Hrel as (<- & _ & HR'). now split.
  - injection Hp as <-. eexists. split; [reflexivity|]. simpl. auto.
Qed.

Lemma block_final_intro (k1 : Server.block) (o1 : Server.outcome) :
  strict = true \/ Parsing.outcome_final o1 ->
  (forall o, k1 = Server.Return o -> o = o1) ->
  strict = true \/ Parsing.block_final k1.
Proof.
  intros [?|Hfin] Hk; [now left|right].
  destruct k1 as [o|? ?]; [|exact I]. simpl. now rewrite (Hk o eq_refl).
Qed.

Lemma DeserializeRequest_fuel_sim (fuel fuel' : nat) (b1 b2 : Buffer.t)
    (request : Request.t) (o1 : Server.outcome) :
  R b1 b2 -> (fuel <= fuel')%nat ->
  Server.DeserializeRequest_fuel fuel b1 request = Some o1 ->
  strict = true \/ Parsing.outcome_final o1 ->
  exists o2, Server.DeserializeRequest_fuel fuel' b2 request = Some o2 /\
             Parsing.outcome_rel R o1 o2.
Proof.
  intros HR Hle Hd Hfin. unfold Server.DeserializeRequest_fuel in *.
  (* the type *)
  destruct (Server.parse_type fuel b1 request) as [k1|] eqn:Hk1;
    [|discriminate].
  destruct (parse_type_sim _ fuel' _ _ _ _ HR Hle Hk1) as (k2 & -> & Hrel).
  { apply (block_final_intro _ o1 Hfin). intros o ->. simpl in Hd. congruence. }
  destruct k1 as [o|b1a r1], k2 as [o2|b2a r2]; simpl in Hrel;
    try contradiction; simpl in *.
  { injection Hd as <-. eexists. split; [reflexivity|]. exact Hrel. }
  destruct Hrel as [<- HRa].
  (* the path *)
  destruct (Server.parse_path fuel b1a r1) as [k1|] eqn:Hk2; [|discriminate].
  destruct (parse_path_sim _ fuel' _ _ _ _ HRa Hle Hk2) as (k2 & -> & Hrel).
  { apply (block_final_intro _ o1 Hfin). intros o ->. simpl in Hd. congruence. }
  destruct k1 as [o|b1b r1b], k2 as [o2|b2b r2b]; simpl in Hrel;
    try contradiction; simpl in *.
  { injection Hd as <-. eexists. split; [reflexivity|]. exact Hrel. }
  destruct Hrel as [<- HRb].
  (* the version *)
  destruct (Server.parse_version fuel b1b r1b) as [k1|] eqn:Hk3; [|discriminate].
  destruct (parse_version_sim _ fuel' _ _ _ _ HRb Hle Hk3) as (k2 & -> & Hrel).
  { apply (block_final_intro _ o1 Hfin). intros o ->. simpl in Hd. congruence. }
  destruct k1 as [o|b1c r1c], k2 as [o2|b2c r2c]; simpl in Hrel;
    try contradiction; simpl in *.
  { injection Hd as <-. eexists. split; [reflexivity|]. exact Hrel. }
  destruct Hrel as [<- HRc].
  (* the headers *)
  eapply parse_headers_sim; eauto.
Qed.

End Simulation.

(** ** More bytes behind the data do not change what was parsed *)

Lemma get_app_l (s t : string) (i : nat) :
  (i < String.length s)%nat -> String.get i (s +:+ t) = String.get i s.
Proof. intros H. symmetry. now apply String.append_correct1. Qed.

Lemma next_append (rest : string) (b b' : Buffer.t) (c : ascii) :
  Buffer.next b = (Some c, b') ->
  Buffer.next (Buffer.append rest b) = (Some c, Buffer.append rest b').
Proof.
  unfold Buffer.next. destruct (Int.lt_size _ (Buffer.size_nat b)) eqn:Hlt;
    [|discriminate].
  intros [= <- <-]. rewrite size_nat_append. simpl.
  unfold Int.lt_size in *. apply Z.ltb_lt in Hlt.
  assert (Hlt' : (Int.to_size_t (Int.add (Buffer.headCursor b) 1)
                  <? Z.of_nat (Buffer.size_nat b + String.length rest)) = true).
  { apply Z.ltb_lt. lia. }
  rewrite Hlt'. unfold char_at. rewrite get_app_l; [reflexivity|].
  unfold Buffer.size_nat in Hlt.
  pose proof (Z.mod_pos_bound (Int.add (Buffer.headCursor b) 1) (2^64)).
  unfold Int.to_size_t in *. lia.
Qed.

Lemma appended_next (rest : string) (b1 b2 : Buffer.t) (c : ascii)
    (b1' : Buffer.t) :
  Parsing.appended rest b1 b2 -> Buffer.next b1 = (Some c, b1') ->
  exists b2', Buffer.next b2 = (Some c, b2') /\ Parsing.appended rest b1' b2'.
Proof.
  unfold Parsing.appended. intros -> Hn.
  exists (Buffer.append rest b1'). split; [now apply next_append|reflexivity].
Qed.

Lemma appended_commit (rest : string) (b1 b2 : Buffer.t) :
  Parsing.appended rest b1 b2 ->
  Parsing.appended rest (Buffer.commit b1) (Buffer.commit b2).
Proof. unfold Parsing.appended. now intros ->. Qed.

(** A call that ended otherwise than for lack of data ends the same way
    when more bytes follow. *)
Lemma DeserializeRequest_fuel_append (rest : string) (fuel fuel' : nat)
    (b : Buffer.t) (request : Request.t) (o : Server.outcome) :
  (fuel <= fuel')%nat ->
  Server.DeserializeRequest_fuel fuel b request = Some o ->
  Parsing.outcome_final o ->
  exists o', Server.DeserializeRequest_fuel fuel' (Buffer.append rest b) request
             = Some o' /\
             Parsing.outcome_end o' = Parsing.outcome_end o /\
             Parsing.outcome_request o' = Parsing.outcome_request o /\
             Parsing.outcome_buffer o' = Buffer.append rest (Parsing.outcome_buffer o).
Proof.
  intros Hle Hd Hfin.
  destruct (DeserializeRequest_fuel_sim (Parsing.appended rest) false
              (appended_next rest) (appended_commit rest)
              ltac:(discriminate) ltac:(discriminate)
              fuel fuel' b (Buffer.append rest b) request o
              eq_refl Hle Hd (or_intror Hfin))
    as (o' & Ho' & He & Hr & Hb).
  exists o'. now repeat split.
Qed.

Lemma scan_until_space_append (rest : string) (fuel fuel' : nat)
    (identifier : string) (b : Buffer.t) (tok : string) (c : ascii)
    (b' : Buffer.t) :
  (fuel <= fuel')%nat ->
  Server.scan_until_space fuel identifier b = Some (Server.Token tok c b') ->
  Server.scan_until_space fuel' identifier (Buffer.append rest b)
  = Some (Server.Token tok c (Buffer.append rest b')).
Proof.
  intros Hle Hs.
  destruct (scan_until_space_sim (Parsing.appended rest) false
              (appended_next rest) (appended_commit rest)
              ltac:(discriminate) ltac:(discriminate)
              fuel fuel' identifier b (Buffer.append rest b) _
              eq_refl Hle Hs (or_intror I)) as (r2 & -> & Hrel).
  destruct r2 as [?|tok' c' b2]; [destruct Hrel|].
  destruct Hrel as (<- & <- & ->). reflexivity.
Qed.

Lemma scan_until_newline_append (rest : string) (fuel fuel' : nat)
    (identifier : string) (b : Buffer.t) (tok : string) (c : ascii)
    (b' : Buffer.t) :
  (fuel <= fuel')%nat ->
  Server.scan_until_newline fuel identifier b = Some (Server.Token tok c b') ->
  Server.scan_until_newline fuel' identifier (Buffer.append rest b)
  = Some (Server.Token tok c (Buffer.append rest b')).
Proof.
  intros Hle Hs.
  destruct (scan_until_newline_sim (Parsing.appended rest) false
              (appended_next rest) (appended_commit rest)
              ltac:(discriminate) ltac:(discriminate)
              fuel fuel' identifier b (Buffer.append rest b) _
              eq_refl Hle Hs (or_intror I)) as (r2 & -> & Hrel).
  destruct r2 as [?|tok' c' b2]; [destruct Hrel|].
  destruct Hrel as (<- & <- & ->). reflexivity.
Qed.

(** ** Resuming a call that returned for lack of data *)

Lemma next_keeps (b b' : Buffer.t) (x : option ascii) :
  Buffer.next b = (x, b') -> Buffer.rollback b' = Buffer.rollback b.
Proof.
  unfold Buffer.next. destruct (Int.lt_size _ _); now intros [= <- <-].
Qed.

Lemma rollback_id (b : Buffer.t) :
  Buffer.headCursor b = Buffer.rollbackCursor b -> Buffer.rollback b = b.
Proof. destruct b as [s h r]. simpl. now intros ->. Qed.

Lemma scan_until_space_exhausted (fuel : nat) (identifier : string)
    (b bx : Buffer.t) :
  Server.scan_until_space fuel identifier b = Some (Server.Exhausted bx) ->
  bx = Buffer.rollback b.
Proof.
  revert identifier b. induction fuel as [|fuel IH]; intros identifier b;
    [discriminate|]. simpl.
  destruct (Buffer.next b) as [[c|] b1] eqn:Hn.
  - destruct (Ascii.eqb c SP); [discriminate|].
    intros H. rewrite (IH _ _ H). eapply next_keeps; eauto.
  - intros [= <-]. eapply next_keeps; eauto.
Qed.

Lemma scan_until_newline_exhausted (fuel : nat) (identifier : string)
    (b bx : Buffer.t) :
  Server.scan_until_newline fuel identifier b = Some (Server.Exhausted bx) ->
  bx = Buffer.rollback b.
Proof.
  revert identifier b. induction fuel as [|fuel IH]; intros identifier b;
    [discriminate|]. simpl.
  destruct (Buffer.next b) as [[c|] b1] eqn:Hn.
  - destruct (Ascii.eqb c CR).
    { intros H. rewrite (IH _ _ H). eapply next_keeps; eauto. }
    destruct (Ascii.eqb c LF); [discriminate|].
    intros H. rewrite (IH _ _ H). eapply next_keeps; eauto.
  - intros [= <-]. eapply next_keeps; eauto.
Qed.

Lemma scan_until_space_committed (fuel : nat) (identifier : string)
    (b : Buffer.t) (tok : string) (c : ascii) (bt : Buffer.t) :
  Server.scan_until_space fuel identifier b = Some (Server.Token tok c bt) ->
  Buffer.headCursor bt = Buffer.rollbackCursor bt.
Proof.
  revert identifier b. induction fuel as [|fuel IH]; intros identifier b;
    [discriminate|]. simpl.
  destruct (Buffer.next b) as [[d|] b1]; [|discriminate].
  destruct (Ascii.eqb d SP); [now intros [= <- <- <-]|]. apply IH.
Qed.

Lemma scan_until_newline_committed (fuel : nat) (identifier : string)
    (b : Buffer.t) (tok : string) (c : ascii) (bt : Buffer.t) :
  Server.scan_until_newline fuel identifier b = Some (Server.Token tok c bt) ->
  Buffer.headCursor bt = Buffer.rollbackCursor bt.
Proof.
  revert identifier b. induction fuel as [|fuel IH]; intros identifier b;
    [discriminate|]. simpl.
  destruct (Buffer.next b) as [[d|] b1]; [|discriminate].
  destruct (Ascii.eqb d CR); [apply IH|].
  destruct (Ascii.eqb d LF); [now intros [= <- <- <-]|]. apply IH.
Qed.

(** The header loop only adds to the headers. *)
Lemma parse_headers_keeps (fuel : nat) (identifier : string) (b : Buffer.t)
    (request : Request.t) (o : Server.outcome) (key : string) :
  Server.parse_headers fuel identifier b request = Some o ->
  is_Some (Request.headers request !! key) ->
  is_Some (Request.headers (Parsing.outcome_request o) !! key).
Proof.
  revert identifier b request.
  induction fuel as [|fuel IH]; intros identifier b request; [discriminate|].
  simpl. destruct (Buffer.next b) as [[c|] b1]; [|now intros [= <-]].
  destruct (Ascii.eqb c CR); [apply IH|].
  destruct (Ascii.eqb c LF); [now intros [= <-]|].
  destruct (Ascii.eqb c COLON); [|apply IH].
  destruct (Buffer.next b1) as [[c2|] b2]; [|now intros [= <-]].
  destruct (negb (Ascii.eqb c2 SP)); [now intros [= <-]|].
  destruct (Server.scan_until_newline fuel "" b2) as [[bx|value c3 b3]|];
    [now intros [= <-]| |discriminate].
  intros H Hk. eapply IH; [exact H|]. simpl.
  destruct (decide (identifier = key)) as [->|Hne].
  - rewrite lookup_insert_eq. eauto.
  - now rewrite lookup_insert_ne.
Qed.

Lemma parse_headers_exit (fuel : nat) (identifier : string) (b : Buffer.t)
    (request : Request.t) (e : Server.parse_exit) (b' : Buffer.t)
    (request' : Request.t) :
  Server.parse_headers fuel identifier b request
  = Some (Server.Returned e b' request') ->
  e = Server.need_header \/ e = Server.header_end.
Proof.
  revert identifier b request.
  induction fuel as [|fuel IH]; intros identifier b request; [discriminate|].
  simpl. destruct (Buffer.next b) as [[c|] b1]; [|intros [= <- _ _]; auto].
  destruct (Ascii.eqb c CR); [apply IH|].
  destruct (Ascii.eqb c LF); [intros [= <- _ _]; auto|].
  destruct (Ascii.eqb c COLON); [|apply IH].
  destruct (Buffer.next b1) as [[c2|] b2]; [|intros [= <- _ _]; auto].
  destruct (negb (Ascii.eqb c2 SP)); [discriminate|].
  destruct (Server.scan_until_newline fuel "" b2) as [[bx|value c3 b3]|];
    [intros [= <- _ _]; auto|apply IH|discriminate].
Qed.

(** A run of the header loop that stored nothing and ran out of data left
    the request alone and rolled the buffer back. *)
Lemma parse_headers_no_store (fuel : nat) (identifier : string) (b : Buffer.t)
    (request : Request.t) (b' : Buffer.t) (request' : Request.t) :
  Server.parse_headers fuel identifier b request
  = Some (Server.Returned Server.need_header b' request') ->
  Request.headers request' = ∅ ->
  request' = request /\ b' = Buffer.rollback b.
Proof.
  revert identifier b request.
  induction fuel as [|fuel IH]; intros identifier b request; [discriminate|].
  simpl. destruct (Buffer.next b) as [[c|] b1] eqn:Hn.
  2:{ intros [= <- <-] _. split; [reflexivity|]. eapply next_keeps; eauto. }
  assert (Hrec : forall identifier',
    Server.parse_headers fuel identifier' b1 request
    = Some (Server.Returned Server.need_header b' request') ->
    Request.headers request' = ∅ ->
    request' = request /\ b' = Buffer.rollback b).
  { intros identifier' H He. destruct (IH _ _ _ H He) as [-> ->].
    split; [reflexivity|]. eapply next_keeps; eauto. }
  destruct (Ascii.eqb c CR); [apply Hrec|].
  destruct (Ascii.eqb c LF); [discriminate|].
  destruct (Ascii.eqb c COLON); [|apply Hrec].
  destruct (Buffer.next b1) as [[c2|] b2] eqn:Hn2.
  2:{ intros [= <- <-] _. split; [reflexivity|].
      rewrite (next_keeps _ _ _ Hn2). eapply next_keeps; eauto. }
  destruct (negb (Ascii.eqb c2 SP)); [discriminate|].
  destruct (Server.scan_until_newline fuel "" b2) as [[bx|value c3 b3]|] eqn:Hs;
    [|intros H He|discriminate].
  - intros [= <- <-] _. split; [reflexivity|].
    rewrite (scan_until_newline_exhausted _ _ _ _ Hs).
    rewrite (next_keeps _ _ _ Hn2). eapply next_keeps; eauto.
  - exfalso.
    pose proof (parse_headers_keeps _ _ _ _ _ identifier H) as Hk.
    simpl in Hk. rewrite lookup_insert_eq in Hk.
    destruct (Hk ltac:(eauto)) as [v Hv].
    rewrite He in Hv. now rewrite lookup_empty in Hv.
Qed.

Section Resume.

Variables (F1 F2 : nat) (rest : string).
Hypothesis HF : (F1 <= F2)%nat.

Lemma resumes_headers : Parsing.resumes F1 F2 rest Parsing.from_headers.
Proof.
  unfold Parsing.resumes, Parsing.from_headers.
  intros B req e buf1 req1 HK He Hne Hh Hc.
  destruct (parse_headers_exit _ _ _ _ _ _ _ HK) as [->| ->]; [|contradiction].
  destruct (parse_headers_no_store _ _ _ _ _ _ HK Hh) as [-> ->].
  rewrite rollback_id by assumption.
  unfold Parsing.resume_point in He.
  unfold Server.DeserializeRequest_fuel, Server.parse_type.
  destruct (str_empty (Request.getType req)); [discriminate|].
  simpl. unfold Server.parse_path.
  destruct (str_empty (Request.getPath req)); [discriminate|].
  simpl. unfold Server.parse_version.
  destruct (str_empty (Request.getVersion req)); [discriminate|].
  reflexivity.
Qed.

Lemma resumes_block (getter : Request.t -> string)
    (setter : string -> Request.t -> Request.t)
    (scanner : nat -> string -> Buffer.t -> option Server.scan)
    (exit : Server.parse_exit)
    (K : nat -> Buffer.t -> Request.t -> option Server.outcome) :
  (forall fuel identifier b bx,
     scanner fuel identifier b = Some (Server.Exhausted bx) ->
     bx = Buffer.rollback b) ->
  (forall fuel identifier b tok c bt,
     scanner fuel identifier b = Some (Server.Token tok c bt) ->
     Buffer.headCursor bt = Buffer.rollbackCursor bt) ->
  (forall identifier b tok c bt,
     scanner F1 identifier b = Some (Server.Token tok c bt) ->
     scanner F2 identifier (Buffer.append rest b)
     = Some (Server.Token tok c (Buffer.append rest bt))) ->
  (forall b req, exit = Parsing.resume_point req ->
     Server.DeserializeRequest_fuel F2 b req
     = Server.and_then (Parsing.parse_block getter setter scanner exit F2 b req)
         (K F2)) ->
  Parsing.resumes F1 F2 rest K ->
  Parsing.resumes F1 F2 rest (fun F b r =>
    Server.and_then (Parsing.parse_block getter setter scanner exit F b r) (K F)).
Proof.
  intros Hex Hcm Happ Hres HK. unfold Parsing.resumes.
  intros B req e buf1 req1 H He Hne Hh Hc.
  unfold Parsing.parse_block in H.
  destruct (str_empty (getter req)) eqn:Hempty.
  - destruct (scanner F1 "" B) as [[bx|tok c bt]|] eqn:Hs; [| |discriminate];
      simpl in H.
    + injection H as <- <- <-.
      rewrite (Hex _ _ _ _ Hs), rollback_id by assumption.
      now apply Hres.
    + pose proof (Hcm _ _ _ _ _ _ Hs) as Hc'.
      rewrite (HK _ _ _ _ _ H He Hne Hh Hc').
      unfold Parsing.parse_block. rewrite Hempty, (Happ _ _ _ _ _ Hs).
      reflexivity.
  - simpl in H. rewrite (HK _ _ _ _ _ H He Hne Hh Hc).
    unfold Parsing.parse_block. now rewrite Hempty.
Qed.

Lemma resumes_from_version : Parsing.resumes F1 F2 rest Parsing.from_version.
Proof.
  apply (resumes_block Request.getVersion Request.setVersion
           Server.scan_until_newline Server.need_version Parsing.from_headers).
  - apply scan_until_newline_exhausted.
  - apply scan_until_newline_committed.
  - intros. eapply scan_until_newline_append; eauto.
  - intros b req He. unfold Parsing.resume_point in He.
    unfold Server.DeserializeRequest_fuel, Server.parse_type.
    destruct (str_empty (Request.getType req)); [discriminate|].
    simpl. unfold Server.parse_path.
    destruct (str_empty (Request.getPath req)); [discriminate|].
    reflexivity.
  - apply resumes_headers.
Qed.

Lemma resumes_from_path : Parsing.resumes F1 F2 rest Parsing.from_path.
Proof.
  apply (resumes_block Request.getPath Request.setPath
           Server.scan_until_space Server.need_path Parsing.from_version).
  - apply scan_until_space_exhausted.
  - apply scan_until_space_committed.
  - intros. eapply scan_until_space_append; eauto.
  - intros b req He. unfold Parsing.resume_point in He.
    unfold Server.DeserializeRequest_fuel, Server.parse_type.
    destruct (str_empty (Request.getType req)); [discriminate|].
    reflexivity.
  - apply resumes_from_version.
Qed.

Lemma resumes_all : Parsing.resumes F1 F2 rest Server.DeserializeRequest_fuel.
Proof.
  apply (resumes_block Request.getType Request.setType
           Server.scan_until_space Server.need_type Parsing.from_path).
  - apply scan_until_space_exhausted.
  - apply scan_until_space_committed.
  - intros. eapply scan_until_space_append; eauto.
  - reflexivity.
  - apply resumes_from_path.
Qed.

End Resume.

(** A call that returned for lack of data, in the loop where the next call
    resumes and before any header was stored, is continued by the next call
    as if the first had seen all the bytes. *)
Lemma DeserializeRequest_resume (rest : string) (b : Buffer.t)
    (request : Request.t) (e : Server.parse_exit) (b1 : Buffer.t)
    (request1 : Request.t) :
  Parsing.parse_ready b ->
  Buffer.headCursor b = Buffer.rollbackCursor b ->
  Server.DeserializeRequest b request = Some (Server.Returned e b1 request1) ->
  e = Parsing.resume_point request1 -> e ≠ Server.header_end ->
  Request.headers request1 = ∅ ->
  Server.DeserializeRequest (Buffer.append rest b1) request1
  = Server.DeserializeRequest (Buffer.append rest b) request.
Proof.
  intros Hb Hc Hd He Hne Hh.
  destruct (DeserializeRequest_total b request Hb) as (o & Ho & Hbuf & _).
  rewrite Hd in Ho. injection Ho as <-. simpl in Hbuf.
  unfold Server.DeserializeRequest in *.
  assert (Hsz : Buffer.size_nat (Buffer.append rest b1)
                = Buffer.size_nat (Buffer.append rest b)).
  { rewrite !size_nat_append. unfold Buffer.size_nat. now rewrite Hbuf. }
  rewrite Hsz.
  apply (resumes_all (S (Buffer.size_nat b)) _ rest) with (e := e); auto.
  rewrite size_nat_append. lia.
Qed.

(** ** Feeding the parser piece by piece *)

Lemma append_append (s t : string) (b : Buffer.t) :
  Buffer.append (s +:+ t) b = Buffer.append t (Buffer.append s b).
Proof. unfold Buffer.append. simpl. now rewrite app_assoc. Qed.

Lemma append_ready (s : string) (b : Buffer.t) :
  Parsing.parse_ready b ->
  Z.of_nat (Buffer.size_nat b + String.length s) < 2^63 ->
  Parsing.parse_ready (Buffer.append s b).
Proof.
  intros [(Hh & Hr & _) [Hr' Hh']] Hs.
  unfold Parsing.parse_ready, Buffer.typed, Buffer.cursors_bounded.
  rewrite size_nat_append. simpl. split; [auto|lia].
Qed.

Lemma feed_whole (piece : string) (pieces : list string) (b : Buffer.t)
    (request : Request.t) :
  Parsing.parse_ready b ->
  Buffer.headCursor b = Buffer.rollbackCursor b ->
  Z.of_nat (Buffer.size_nat b
            + String.length (Parsing.whole (piece :: pieces))) < 2^63 ->
  Parsing.resumable piece pieces b request ->
  exists o,
    Server.DeserializeRequest
      (Buffer.append (Parsing.whole (piece :: pieces)) b) request = Some o /\
    Parsing.observe <$> Parsing.feed piece pieces b request
    = Some (Parsing.observe o).
Proof.
  revert piece b request.
  induction pieces as [|piece' pieces IH]; intros piece b request Hb Hc Hs Hres.
  - simpl in *. rewrite app_nil_r in *.
    destruct (DeserializeRequest_total (Buffer.append piece b) request)
      as (o & Ho & _); [now apply append_ready|].
    exists o. split; [exact Ho|]. rewrite Ho. now destruct o.
  - change (Parsing.whole (piece :: piece' :: pieces))
      with (piece +:+ Parsing.whole (piece' :: pieces)) in *.
    set (rest := Parsing.whole (piece' :: pieces)) in *.
    rewrite app_length in Hs. rewrite append_append.
    assert (Hb1 : Parsing.parse_ready (Buffer.append piece b)).
    { apply append_ready; [exact Hb|lia]. }
    destruct (DeserializeRequest_total _ request Hb1) as (o1 & Ho1 & Hpost).
    simpl in Hres. simpl Parsing.feed. rewrite Ho1 in *.
    destruct o1 as [e b1 request1|what b1 request1].
    + destruct Hres as (He & Hne & Hh & Hres).
      destruct Hpost as (Hbuf & Hb1' & Hc1). simpl in Hbuf, Hb1', Hc1.
      destruct (IH piece' b1 request1 Hb1' Hc1) as (o & Ho & Hobs).
      { fold rest. unfold Buffer.size_nat in *. rewrite Hbuf, app_length. lia. }
      { exact Hres. }
      exists o. split; [|exact Hobs]. fold rest in Ho. rewrite <- Ho.
      symmetry. eapply DeserializeRequest_resume; eauto.
    + unfold Server.DeserializeRequest in *.
      assert (Hle : (S (Buffer.size_nat (Buffer.append piece b))
                     <= S (Buffer.size_nat
                             (Buffer.append rest (Buffer.append piece b))))%nat).
      { rewrite (size_nat_append rest). lia. }
      destruct (DeserializeRequest_fuel_append rest _ _ _ _ _ Hle Ho1 I)
        as (o' & Ho' & Hend & Hreq & Hbuf').
      exists o'. split; [exact Ho'|]. simpl. f_equal. unfold Parsing.observe.
      rewrite Hend, Hreq, Hbuf'. reflexivity.
Qed.

(** C4, as stated, fails: once a piece has ended the header block, the next
    piece is read as more header lines (a header is stored, or an error is
    thrown), while one call on the concatenation stops at the empty line. *)
Lemma DeserializeRequest_split_differs :
  let piece1 := "GET / HTTP/1.1" +:+ CRLF +:+ CRLF in
  let stored := Parsing.feed piece1 ["a: b" +:+ CRLF] Buffer.init Request.init in
  let thrown := Parsing.feed piece1 ["a:b" +:+ CRLF] Buffer.init Request.init in
  let once1 := Server.DeserializeRequest
    (Buffer.append (piece1 +:+ "a: b" +:+ CRLF) Buffer.init) Request.init in
  let once2 := Server.DeserializeRequest
    (Buffer.append (piece1 +:+ "a:b" +:+ CRLF) Buffer.init) Request.init in
  (Request.headers <$> (Parsing.outcome_request <$> stored)) = Some {[ "" := "b" ]} /\
  (Request.headers <$> (Parsing.outcome_request <$> once1)) = Some ∅ /\
  (Parsing.outcome_end <$> thrown)
  = Some (inr "Expected space (' ') character after colon (':'). Got 98") /\
  (Parsing.outcome_end <$> once2) = Some (inl Server.header_end).
Proof. repeat split; vm_compute; reflexivity. Qed.

(** The other condition of the amended claim: a field that was read as
    empty counts as not yet read. Here the path is empty; the second call
    looks for the path again and the version is never set. *)
Lemma DeserializeRequest_split_empty_field :
  let split := Parsing.feed "Xa  " [String "v" (String LF "")]
                 Buffer.init Request.init in
  let once := Server.DeserializeRequest
    (Buffer.append ("Xa  " +:+ String "v" (String LF "")) Buffer.init)
    Request.init in
  (Parsing.outcome_end <$> split) = Some (inl Server.need_path) /\
  (Request.version <$> (Parsing.outcome_request <$> split)) = Some "" /\
  (Parsing.outcome_end <$> once) = Some (inl Server.need_header) /\
  (Request.version <$> (Parsing.outcome_request <$> once)) = Some "v".
Proof. repeat split; vm_compute; reflexivity. Qed.

(** C4, amended: for every split of a byte string into pieces, feeding the
    pieces one at a time to a fresh buffer and a fresh request ends like one
    call on the concatenation (same request, same cursors, same exit or
    error), provided every call but the last either throws or returns for
    lack of data in the loop where the next call resumes (no parsed field is
    empty) and before any header has been stored. *)
Theorem DeserializeRequest_split (piece : string) (pieces : list string) :
  Z.of_nat (String.length (Parsing.whole (piece :: pieces))) < 2^63 ->
  Parsing.resumable piece pieces Buffer.init Request.init ->
  exists o,
    Server.DeserializeRequest
      (Buffer.append (Parsing.whole (piece :: pieces)) Buffer.init)
      Request.init = Some o /\
    Parsing.observe <$> Parsing.feed piece pieces Buffer.init Request.init
    = Some (Parsing.observe o).
Proof.
  intros Hs Hres. apply feed_whole; auto.
  - repeat split; vm_compute; congruence.
Qed.

Lemma DeserializeRequest_split_witness :
  let piece := "GE" in
  let pieces := ["T /pi"; "ng HTTP/1.1" +:+ String CR ""; String LF "Host";
                 ": x" +:+ CRLF +:+ CRLF] in
  exists o,
    Server.DeserializeRequest
      (Buffer.append (Parsing.whole (piece :: pieces)) Buffer.init)
      Request.init = Some o /\
    Parsing.observe <$> Parsing.feed piece pieces Buffer.init Request.init
    = Some (Parsing.observe o).
Proof.
  intros piece pieces. apply (DeserializeRequest_split piece pieces).
  - vm_compute. reflexivity.
  - vm_compute. repeat split; congruence.
Defined.

(** ** [Request::getHeader] *)

(** C10: looking up a key that is missing returns the empty string and
    leaves the key in the map, with the empty string as its value; nothing
    else in the request changes. *)
Theorem getHeader_missing_inserts (key : string) (r : Request.t) :
  Request.headers r !! key = None ->
  (Request.getHeader key r).1 = "" /\
  Request.headers (Request.getHeader key r).2 = <[key := ""]> (Request.headers r) /\
  Request.headers (Request.getHeader key r).2 !! key = Some "" /\
  (forall other, other ≠ key ->
     Request.headers (Request.getHeader key r).2 !! other
     = Request.headers r !! other) /\
  Request.type (Request.getHeader key r).2 = Request.type r /\
  Request.path (Request.getHeader key r).2 = Request.path r /\
  Request.version (Request.getHeader key r).2 = Request.version r /\
  (Request.getHeader key r).2 ≠ r.
Proof.
  intros Hmiss. unfold Request.getHeader. rewrite Hmiss. simpl.
  repeat split.
  - apply lookup_insert_eq.
  - intros other Hne. now apply lookup_insert_ne.
  - intros Heq. apply (f_equal (fun x => Request.headers x !! key)) in Heq.
    simpl in Heq. rewrite lookup_insert_eq, Hmiss in Heq. discriminate.
Qed.

Lemma getHeader_missing_inserts_witness :
  (Request.getHeader "Connection" Request.init).1 = "" /\
  Request.headers (Request.getHeader "Connection" Request.init).2 !! "Connection"
  = Some "".
Proof.
  destruct (getHeader_missing_inserts "Connection" Request.init)
    as (H1 & _ & H3 & _).
  - reflexivity.
  - split; [exact H1|exact H3].
Defined.

(** ** [ProcessFunction] *)

(** C3 against the code: the two tests are [!= end()] where the messages
    call for [== end()]. A path that is registered gets the 404, whatever
    the method; a path that is not registered makes the function dereference
    [end()]. No 405 is ever produced and no handler is ever called. *)
Theorem ProcessFunction_inverted {Handler : Type}
    (routeMap : gmap string (gmap string Handler)) (state : ConnectionState) :
  Server.ProcessFunction routeMap state
  = match routeMap !! Request.getPath (request state) with
    | Some _ => Server.Finished true (Server.not_found state) None
    | None => Server.Undefined
    end.
Proof.
  unfold Server.ProcessFunction.
  now destruct (routeMap !! Request.getPath (request state)).
Qed.

(** The literal scenario: [/ping] is registered for GET and a GET request
    for [/ping] arrives. *)
Lemma ProcessFunction_registered_route {Handler : Type} (handler : Handler) :
  let routeMap : gmap string (gmap string Handler) :=
    {[ "/ping" := {[ "GET" := handler ]} ]} in
  let state := mkConnectionState 5 FUNC Buffer.init Buffer.init
                 (Request.mk "GET" "/ping" "HTTP/1.1" ∅) Response.init in
  routeMap !! "/ping" = Some {[ "GET" := handler ]} /\
  ({[ "GET" := handler ]} : gmap string Handler) !! "GET" = Some handler /\
  exists state',
    Server.ProcessFunction routeMap state = Server.Finished true state' None /\
    stage state' = RES /\
    Response.statusCode (response state') = 404 /\
    Response.statusReason (response state') = "Not Found" /\
    Response.body (response state')
    = "The requested resource /ping was not found on this server".
Proof.
  intros routeMap state. split; [apply lookup_singleton_eq|].
  split; [apply lookup_singleton_eq|].
  eexists. split.
  - unfold Server.ProcessFunction. simpl. unfold routeMap.
    rewrite lookup_singleton_eq. reflexivity.
  - repeat split.
Qed.

(** ** The dispatch of [Serve] *)

(** C6 against the code: the RES case tests [EPOLLIN]. An event that is
    readable and not writable runs [ProcessResponse]; an event that is
    writable only is skipped. *)
Theorem dispatch_RES_on_readable (fd : Z) (state : ConnectionState) :
  let state := mkConnectionState fd RES (reqBuffer state) (resBuffer state)
                 (request state) (response state) in
  Server.flagged Server.EPOLLIN Server.EPOLLOUT = false /\
  Server.dispatch_event Server.EPOLLIN fd {[ fd := state ]}
  = Server.CallProcessResponse /\
  Server.dispatch_event Server.EPOLLOUT fd {[ fd := state ]} = Server.Skip.
Proof.
  intros state'. split; [reflexivity|].
  unfold Server.dispatch_event. rewrite lookup_singleton_eq.
  split; reflexivity.
Qed.

(** ** The date accessors *)

Ltac div_lia := Z.div_mod_to_equations; lia.

(** The two calendar conversions are inverse to each other. *)
Lemma civil_from_days_spec (z : Z) :
  let '(y, m, d) := Ctime.civil_from_days z in
  Ctime.days_from_civil y m d = z /\ 1 <= m <= 12 /\ 1 <= d <= 31.
Proof.
  unfold Ctime.civil_from_days, Ctime.days_from_civil.
  set (z' := z + 719468).
  set (era := z' / 146097).
  set (doe := z' - era * 146097).
  assert (Hdoe : 0 <= doe <= 146096) by (unfold doe, era; div_lia).
  set (yoe := (doe - doe / 1460 + doe / 36524 - doe / 146096) / 365).
  assert (Hyoe : 0 <= yoe <= 399) by (unfold yoe; div_lia).
  set (doy := doe - (365 * yoe + yoe / 4 - yoe / 100)).
  assert (Hdoy : 0 <= doy <= 365) by (unfold doy, yoe; div_lia).
  set (mp := (5 * doy + 2) / 153).
  assert (Hmp : 0 <= mp <= 11) by (unfold mp; div_lia).
  set (d := doy - (153 * mp + 2) / 5 + 1).
  assert (Hd : 1 <= d <= 31) by (unfold d, mp; div_lia).
  destruct (Z.ltb_spec mp 10) as [H10|H10].
  - assert (Hm : (mp + 3 <=? 2) = false) by (apply Z.leb_gt; lia).
    rewrite Hm.
    assert (Hm2 : (2 <? mp + 3) = true) by (apply Z.ltb_lt; lia).
    rewrite Hm2.
    replace (mp + 3 - 3) with mp by lia.
    replace ((yoe + era * 400) / 400) with era by div_lia.
    replace (yoe + era * 400 - era * 400) with yoe by lia.
    split; [unfold d, doy, doe, z'; lia|]. split; [lia|exact Hd].
  - assert (Hm : (mp - 9 <=? 2) = true) by (apply Z.leb_le; lia).
    rewrite Hm.
    assert (Hm2 : (2 <? mp - 9) = false) by (apply Z.ltb_ge; lia).
    rewrite Hm2.
    replace (mp - 9 + 9) with mp by lia.
    replace (yoe + era * 400 + 1 - 1) with (yoe + era * 400) by lia.
    replace ((yoe + era * 400) / 400) with era by div_lia.
    replace (yoe + era * 400 - era * 400) with yoe by lia.
    split; [unfold d, doy, doe, z'; lia|]. split; [lia|exact Hd].
Qed.

Lemma timegm_gmtime (s : Z) : Ctime.timegm (Ctime.gmtime s) = s.
Proof.
  unfold Ctime.gmtime, Ctime.timegm.
  pose proof (civil_from_days_spec (s / 86400)) as H.
  destruct (Ctime.civil_from_days (s / 86400)) as [[y m] d].
  destruct H as (H & _ & _). simpl.
  replace (y - 1900 + 1900) with y by lia.
  replace (m - 1 + 1) with m by lia.
  rewrite H. div_lia.
Qed.

(** ** Printing and reading the fields *)

Lemma digit_facts (d : Z) :
  0 <= d <= 9 ->
  Ascii.is_nat (digit_char d) = Some (Z.to_nat d) /\
  Ascii.is_space (digit_char d) = false.
Proof.
  intros H.
  assert (Hd : d = 0 \/ d = 1 \/ d = 2 \/ d = 3 \/ d = 4 \/ d = 5 \/ d = 6
               \/ d = 7 \/ d = 8 \/ d = 9) by lia.
  repeat (destruct Hd as [->|Hd]; [split; reflexivity|]).
  subst d. split; reflexivity.
Qed.

Lemma to_digits_step (fuel : nat) (n : Z) (acc : string) :
  to_digits (S fuel) n acc
  = if n / 10 =? 0 then String (digit_char (n mod 10)) acc
    else to_digits fuel (n / 10) (String (digit_char (n mod 10)) acc).
Proof. reflexivity. Qed.

Lemma to_digits_last (fuel : nat) (n : Z) (acc : string) :
  0 <= n < 10 ->
  to_digits (S fuel) n acc = String (digit_char n) acc.
Proof.
  intros H. rewrite to_digits_step.
  rewrite Z.div_small, Z.mod_small by lia. reflexivity.
Qed.

Lemma to_digits_more (fuel : nat) (n : Z) (acc : string) :
  10 <= n ->
  to_digits (S fuel) n acc
  = to_digits fuel (n / 10) (String (digit_char (n mod 10)) acc).
Proof.
  intros H. rewrite to_digits_step.
  destruct (Z.eqb_spec (n / 10) 0) as [H0|_]; [exfalso; div_lia|reflexivity].
Qed.

Lemma to_string_2 (v : Z) :
  0 <= v < 100 ->
  Ctime.two_digits v
  = String (digit_char (v / 10)) (String (digit_char (v mod 10)) "").
Proof.
  intros H. unfold Ctime.two_digits, to_string.
  rewrite (proj2 (Z.ltb_ge v 0)) by lia.
  destruct (Z.ltb_spec v 10) as [Hlt|Hge].
  - rewrite to_digits_last by lia.
    rewrite Z.div_small, Z.mod_small by lia. reflexivity.
  - rewrite to_digits_more by lia.
    rewrite to_digits_last by div_lia. reflexivity.
Qed.

Lemma to_string_4 (y : Z) :
  1000 <= y <= 9999 ->
  to_string y
  = String (digit_char (y / 1000))
      (String (digit_char (y / 100 mod 10))
         (String (digit_char (y / 10 mod 10))
            (String (digit_char (y mod 10)) ""))).
Proof.
  intros H. unfold to_string.
  rewrite (proj2 (Z.ltb_ge y 0)) by lia.
  rewrite to_digits_more by lia.
  rewrite to_digits_more by div_lia.
  rewrite to_digits_more by div_lia.
  rewrite to_digits_last by div_lia.
  replace (y / 10 / 10 / 10) with (y / 1000) by div_lia.
  replace (y / 10 / 10 mod 10) with (y / 100 mod 10) by div_lia.
  reflexivity.
Qed.

Lemma get_digits_digit (width : nat) (acc : option Z) (d : Z)
    (input : string) :
  0 <= d <= 9 ->
  Ctime.get_digits (S width) acc (String (digit_char d) input)
  = Ctime.get_digits width (Some (10 * default 0 acc + d)) input.
Proof.
  intros Hd. change (Ctime.get_digits (S width) acc (String (digit_char d) input))
    with (match Ascii.is_nat (digit_char d) with
          | Some n =>
              Ctime.get_digits width
                (Some (10 * default 0 acc + Z.of_nat n)) input
          | None => (fun v => (v, String (digit_char d) input)) <$> acc
          end).
  rewrite (proj1 (digit_facts d Hd)). do 2 f_equal. lia.
Qed.

Lemma get_digits_O (acc : option Z) (input : string) :
  Ctime.get_digits 0 acc input = (fun v => (v, input)) <$> acc.
Proof. reflexivity. Qed.

Lemma get_digits_2 (a b : Z) (rest : string) :
  0 <= a <= 9 -> 0 <= b <= 9 ->
  Ctime.get_digits 2 None (String (digit_char a) (String (digit_char b) rest))
  = Some (10 * a + b, rest).
Proof.
  intros Ha Hb. rewrite !get_digits_digit, get_digits_O by assumption.
  cbn [default fmap option_fmap option_map]. unfold id.
  replace (10 * (10 * 0 + a) + b) with (10 * a + b) by lia. reflexivity.
Qed.

Lemma get_digits_4 (a b c d : Z) (rest : string) :
  0 <= a <= 9 -> 0 <= b <= 9 -> 0 <= c <= 9 -> 0 <= d <= 9 ->
  Ctime.get_digits 4 None
    (String (digit_char a) (String (digit_char b)
       (String (digit_char c) (String (digit_char d) rest))))
  = Some (1000 * a + 100 * b + 10 * c + d, rest).
Proof.
  intros Ha Hb Hc Hd. rewrite !get_digits_digit, get_digits_O by assumption.
  cbn [default fmap option_fmap option_map]. unfold id.
  replace (10 * (10 * (10 * (10 * 0 + a) + b) + c) + d)
    with (1000 * a + 100 * b + 10 * c + d) by lia. reflexivity.
Qed.

Lemma get_number_2 (v lo hi : Z) (rest : string) :
  0 <= v < 100 -> lo <= v <= hi ->
  Ctime.get_number 2 lo hi (Ctime.two_digits v +:+ rest) = Some (v, rest).
Proof.
  intros Hv Hr. unfold Ctime.get_number. rewrite to_string_2 by assumption.
  rewrite !app_cons, app_nil_l, get_digits_2 by div_lia.
  replace (10 * (v / 10) + v mod 10) with v by div_lia.
  rewrite (proj2 (Z.leb_le lo v)), (proj2 (Z.leb_le v hi)) by lia. reflexivity.
Qed.

Lemma get_number_4 (y : Z) (rest : string) :
  1000 <= y <= 9999 ->
  Ctime.get_number 4 0 9999 (to_string y +:+ rest) = Some (y, rest).
Proof.
  intros Hy. unfold Ctime.get_number. rewrite to_string_4 by assumption.
  rewrite !app_cons, app_nil_l, get_digits_4 by div_lia.
  replace (1000 * (y / 1000) + 100 * (y / 100 mod 10) + 10 * (y / 10 mod 10)
           + y mod 10) with y by div_lia.
  rewrite (proj2 (Z.leb_le 0 y)), (proj2 (Z.leb_le y 9999)) by lia. reflexivity.
Qed.

Lemma skip_spaces_digits (v : Z) (rest : string) :
  0 <= v < 100 ->
  Ctime.skip_spaces (String " " (Ctime.two_digits v +:+ rest))
  = Ctime.two_digits v +:+ rest.
Proof.
  intros Hv. rewrite to_string_2 by assumption. rewrite !app_cons.
  cbn [Ctime.skip_spaces].
  change (Ascii.is_space " ") with true. cbv iota.
  now rewrite (proj2 (digit_facts (v / 10) ltac:(div_lia))).
Qed.

Lemma skip_spaces_year (y : Z) (rest : string) :
  1000 <= y <= 9999 ->
  Ctime.skip_spaces (String " " (to_string y +:+ rest)) = to_string y +:+ rest.
Proof.
  intros Hy. rewrite to_string_4 by assumption. rewrite !app_cons.
  cbn [Ctime.skip_spaces].
  change (Ascii.is_space " ") with true. cbv iota.
  now rewrite (proj2 (digit_facts (y / 1000) ltac:(div_lia))).
Qed.

Lemma get_name_wday (w : Z) (rest : string) :
  0 <= w <= 6 ->
  Ctime.get_name Ctime.wday_names 0
    (default "?" (Ctime.wday_names !! Z.to_nat w) +:+ rest) = Some (w, rest).
Proof.
  intros H.
  assert (Hw : w = 0 \/ w = 1 \/ w = 2 \/ w = 3 \/ w = 4 \/ w = 5 \/ w = 6)
    by lia.
  repeat (destruct Hw as [->|Hw]; [vm_compute; reflexivity|]).
  subst w. vm_compute. reflexivity.
Qed.

Lemma get_name_mon (m : Z) (rest : string) :
  0 <= m <= 11 ->
  Ctime.get_name Ctime.mon_names 0
    (default "?" (Ctime.mon_names !! Z.to_nat m) +:+ rest) = Some (m, rest) /\
  Ctime.skip_spaces
    (String " " (default "?" (Ctime.mon_names !! Z.to_nat m) +:+ rest))
  = default "?" (Ctime.mon_names !! Z.to_nat m) +:+ rest.
Proof.
  intros H.
  assert (Hm : m = 0 \/ m = 1 \/ m = 2 \/ m = 3 \/ m = 4 \/ m = 5 \/ m = 6
               \/ m = 7 \/ m = 8 \/ m = 9 \/ m = 10 \/ m = 11) by lia.
  repeat (destruct Hm as [->|Hm]; [split; vm_compute; reflexivity|]).
  subst m. split; vm_compute; reflexivity.
Qed.

(** ** Reading back what [put_time] wrote *)

Lemma get_time_conv (conv : ascii) (fmt input : string) (date date' : Ctime.tm)
    (rest : string) :
  Ctime.get_field conv input date = Some (date', rest) ->
  Ctime.get_time (String "%" (String conv fmt)) input date
  = Ctime.get_time fmt rest date'.
Proof. intros H. cbn [Ctime.get_time]. now rewrite H. Qed.

Lemma get_time_space (fmt input : string) (date : Ctime.tm) :
  Ctime.get_time (String " " fmt) input date
  = Ctime.get_time fmt (Ctime.skip_spaces input) date.
Proof. reflexivity. Qed.

Lemma get_time_comma (fmt input : string) (date : Ctime.tm) :
  Ctime.get_time (String "," fmt) (String "," input) date
  = Ctime.get_time fmt input date.
Proof. reflexivity. Qed.

Lemma get_time_colon (fmt input : string) (date : Ctime.tm) :
  Ctime.get_time (String ":" fmt) (String ":" input) date
  = Ctime.get_time fmt input date.
Proof. reflexivity. Qed.

Lemma get_field_wday (w : Z) (rest : string) (d : Ctime.tm) :
  0 <= w <= 6 ->
  Ctime.get_field "a"
    (default "?" (Ctime.wday_names !! Z.to_nat w) +:+ rest) d
  = Some (Ctime.mk_tm (Ctime.tm_sec d) (Ctime.tm_min d) (Ctime.tm_hour d)
            (Ctime.tm_mday d) (Ctime.tm_mon d) (Ctime.tm_year d) w
            (Ctime.tm_yday d) (Ctime.tm_isdst d), rest).
Proof.
  intros H.
  change (Ctime.get_field "a" ?i d)
    with ('(v, rest) ← Ctime.get_name Ctime.wday_names 0 i;
          Some (Ctime.mk_tm (Ctime.tm_sec d) (Ctime.tm_min d) (Ctime.tm_hour d)
            (Ctime.tm_mday d) (Ctime.tm_mon d) (Ctime.tm_year d) v
            (Ctime.tm_yday d) (Ctime.tm_isdst d), rest)).
  now rewrite get_name_wday.
Qed.

Lemma get_field_mon (m : Z) (rest : string) (d : Ctime.tm) :
  0 <= m <= 11 ->
  Ctime.get_field "b"
    (default "?" (Ctime.mon_names !! Z.to_nat m) +:+ rest) d
  = Some (Ctime.mk_tm (Ctime.tm_sec d) (Ctime.tm_min d) (Ctime.tm_hour d)
            (Ctime.tm_mday d) m (Ctime.tm_year d) (Ctime.tm_wday d)
            (Ctime.tm_yday d) (Ctime.tm_isdst d), rest).
Proof.
  intros H.
  change (Ctime.get_field "b" ?i d)
    with ('(v, rest) ← Ctime.get_name Ctime.mon_names 0 i;
          Some (Ctime.mk_tm (Ctime.tm_sec d) (Ctime.tm_min d) (Ctime.tm_hour d)
            (Ctime.tm_mday d) v (Ctime.tm_year d) (Ctime.tm_wday d)
            (Ctime.tm_yday d) (Ctime.tm_isdst d), rest)).
  now rewrite (proj1 (get_name_mon m rest H)).
Qed.

Lemma get_field_year (y : Z) (rest : string) (d : Ctime.tm) :
  1000 <= y <= 9999 ->
  Ctime.get_field "Y" (to_string y +:+ rest) d = Some (Ctime.mk_tm (Ctime.tm_sec d) (Ctime.tm_min d) (Ctime.tm_hour d)
            (Ctime.tm_mday d) (Ctime.tm_mon d) (y - 1900) (Ctime.tm_wday d)
            (Ctime.tm_yday d) (Ctime.tm_isdst d), rest).
Proof.
  intros H.
  change (Ctime.get_field "Y" ?i d)
    with ('(v, rest) ← Ctime.get_number 4 0 9999 i;
          Some (Ctime.mk_tm (Ctime.tm_sec d) (Ctime.tm_min d) (Ctime.tm_hour d)
            (Ctime.tm_mday d) (Ctime.tm_mon d) (v - 1900) (Ctime.tm_wday d)
            (Ctime.tm_yday d) (Ctime.tm_isdst d), rest)).
  now rewrite get_number_4.
Qed.

Lemma get_field_mday (v : Z) (rest : string) (d : Ctime.tm) :
  1 <= v <= 31 ->
  Ctime.get_field "d" (Ctime.two_digits v +:+ rest) d
  = Some (Ctime.mk_tm (Ctime.tm_sec d) (Ctime.tm_min d) (Ctime.tm_hour d)
            v (Ctime.tm_mon d) (Ctime.tm_year d) (Ctime.tm_wday d)
            (Ctime.tm_yday d) (Ctime.tm_isdst d), rest).
Proof.
  intros H.
  change (Ctime.get_field "d" ?i d)
    with ('(v, rest) ← Ctime.get_number 2 1 31 i;
          Some (Ctime.mk_tm (Ctime.tm_sec d) (Ctime.tm_min d) (Ctime.tm_hour d)
            v (Ctime.tm_mon d) (Ctime.tm_year d) (Ctime.tm_wday d)
            (Ctime.tm_yday d) (Ctime.tm_isdst d), rest)).
  now rewrite get_number_2 by lia.
Qed.

Lemma get_field_hour (v : Z) (rest : string) (d : Ctime.tm) :
  0 <= v <= 23 ->
  Ctime.get_field "H" (Ctime.two_digits v +:+ rest) d
  = Some (Ctime.mk_tm (Ctime.tm_sec d) (Ctime.tm_min d) v
            (Ctime.tm_mday d) (Ctime.tm_mon d) (Ctime.tm_year d) (Ctime.tm_wday d)
            (Ctime.tm_yday d) (Ctime.tm_isdst d), rest).
Proof.
  intros H.
  change (Ctime.get_field "H" ?i d)
    with ('(v, rest) ← Ctime.get_number 2 0 23 i;
          Some (Ctime.mk_tm (Ctime.tm_sec d) (Ctime.tm_min d) v
            (Ctime.tm_mday d) (Ctime.tm_mon d) (Ctime.tm_year d) (Ctime.tm_wday d)
            (Ctime.tm_yday d) (Ctime.tm_isdst d), rest)).
  now rewrite get_number_2 by lia.
Qed.

Lemma get_field_min (v : Z) (rest : string) (d : Ctime.tm) :
  0 <= v <= 59 ->
  Ctime.get_field "M" (Ctime.two_digits v +:+ rest) d
  = Some (Ctime.mk_tm (Ctime.tm_sec d) v (Ctime.tm_hour d)
            (Ctime.tm_mday d) (Ctime.tm_mon d) (Ctime.tm_year d) (Ctime.tm_wday d)
            (Ctime.tm_yday d) (Ctime.tm_isdst d), rest).
Proof.
  intros H.
  change (Ctime.get_field "M" ?i d)
    with ('(v, rest) ← Ctime.get_number 2 0 59 i;
          Some (Ctime.mk_tm (Ctime.tm_sec d) v (Ctime.tm_hour d)
            (Ctime.tm_mday d) (Ctime.tm_mon d) (Ctime.tm_year d) (Ctime.tm_wday d)
            (Ctime.tm_yday d) (Ctime.tm_isdst d), rest)).
  now rewrite get_number_2 by lia.
Qed.

Lemma get_field_sec (v : Z) (rest : string) (d : Ctime.tm) :
  0 <= v <= 59 ->
  Ctime.get_field "S" (Ctime.two_digits v +:+ rest) d
  = Some (Ctime.mk_tm v (Ctime.tm_min d) (Ctime.tm_hour d)
            (Ctime.tm_mday d) (Ctime.tm_mon d) (Ctime.tm_year d) (Ctime.tm_wday d)
            (Ctime.tm_yday d) (Ctime.tm_isdst d), rest).
Proof.
  intros H.
  change (Ctime.get_field "S" ?i d)
    with ('(v, rest) ← Ctime.get_number 2 0 60 i;
          Some (Ctime.mk_tm v (Ctime.tm_min d) (Ctime.tm_hour d)
            (Ctime.tm_mday d) (Ctime.tm_mon d) (Ctime.tm_year d) (Ctime.tm_wday d)
            (Ctime.tm_yday d) (Ctime.tm_isdst d), rest)).
  now rewrite get_number_2 by lia.
Qed.

Lemma put_time_imf (date : Ctime.tm) :
  Ctime.put_time date "%a, %d %b %Y %H:%M:%S GMT"
  = default "?" (Ctime.wday_names !! Z.to_nat (Ctime.tm_wday date))
    +:+ String "," (String " "
      (Ctime.two_digits (Ctime.tm_mday date) +:+ String " "
        (default "?" (Ctime.mon_names !! Z.to_nat (Ctime.tm_mon date))
         +:+ String " "
           (to_string (Ctime.tm_year date + 1900) +:+ String " "
             (Ctime.two_digits (Ctime.tm_hour date) +:+ String ":"
               (Ctime.two_digits (Ctime.tm_min date) +:+ String ":"
                 (Ctime.two_digits (Ctime.tm_sec date) +:+ " GMT"))))))).
Proof. reflexivity. Qed.

Ltac tm_fields :=
  cbn [Ctime.tm_sec Ctime.tm_min Ctime.tm_hour Ctime.tm_mday Ctime.tm_mon
       Ctime.tm_year Ctime.tm_wday Ctime.tm_yday Ctime.tm_isdst
       Ctime.tm_zero].

Lemma get_put_time (date : Ctime.tm) :
  0 <= Ctime.tm_sec date <= 59 -> 0 <= Ctime.tm_min date <= 59 ->
  0 <= Ctime.tm_hour date <= 23 -> 1 <= Ctime.tm_mday date <= 31 ->
  0 <= Ctime.tm_mon date <= 11 -> 0 <= Ctime.tm_wday date <= 6 ->
  1000 <= Ctime.tm_year date + 1900 <= 9999 ->
  Ctime.get_time "%a, %d %b %Y %H:%M:%S"
    (Ctime.put_time date "%a, %d %b %Y %H:%M:%S GMT") Ctime.tm_zero
  = Some (Ctime.mk_tm (Ctime.tm_sec date) (Ctime.tm_min date)
            (Ctime.tm_hour date) (Ctime.tm_mday date) (Ctime.tm_mon date)
            (Ctime.tm_year date) (Ctime.tm_wday date) 0 0).
Proof.
  intros Hsec Hmin Hhour Hmday Hmon Hwday Hyear.
  rewrite put_time_imf.
  tm_fields. rewrite (get_time_conv _ _ _ _ _ _ (get_field_wday _ _ _ Hwday)).
  rewrite get_time_comma, get_time_space, skip_spaces_digits by lia.
  tm_fields. rewrite (get_time_conv _ _ _ _ _ _ (get_field_mday _ _ _ Hmday)).
  rewrite get_time_space, (proj2 (get_name_mon _ _ Hmon)).
  tm_fields. rewrite (get_time_conv _ _ _ _ _ _ (get_field_mon _ _ _ Hmon)).
  rewrite get_time_space, skip_spaces_year by assumption.
  tm_fields. rewrite (get_time_conv _ _ _ _ _ _ (get_field_year _ _ _ Hyear)).
  rewrite get_time_space, skip_spaces_digits by lia.
  tm_fields. rewrite (get_time_conv _ _ _ _ _ _ (get_field_hour _ _ _ Hhour)).
  rewrite get_time_colon.
  tm_fields. rewrite (get_time_conv _ _ _ _ _ _ (get_field_min _ _ _ Hmin)).
  rewrite get_time_colon.
  tm_fields. rewrite (get_time_conv _ _ _ _ _ _ (get_field_sec _ _ _ Hsec)).
  cbn [Ctime.get_time]. tm_fields. do 2 f_equal. lia.
Qed.


Lemma gmtime_ranges (s : Z) :
  let date := Ctime.gmtime s in
  0 <= Ctime.tm_sec date <= 59 /\ 0 <= Ctime.tm_min date <= 59 /\
  0 <= Ctime.tm_hour date <= 23 /\ 1 <= Ctime.tm_mday date <= 31 /\
  0 <= Ctime.tm_mon date <= 11 /\ 0 <= Ctime.tm_wday date <= 6.
Proof.
  unfold Ctime.gmtime.
  pose proof (civil_from_days_spec (s / 86400)) as H.
  destruct (Ctime.civil_from_days (s / 86400)) as [[y m] d].
  destruct H as (_ & Hm & Hd).
  cbn [Ctime.tm_sec Ctime.tm_min Ctime.tm_hour Ctime.tm_mday Ctime.tm_mon
       Ctime.tm_wday].
  (split; [div_lia|]). 
  (split; [div_lia|]). 
  (split; [div_lia|]). 
  (split; [lia|]). 
  (split; [lia|]). 
  div_lia.
Qed.


Lemma civil_from_days_year (z : Z) :
  -354285 <= z < 2932897 ->
  1000 <= (Ctime.civil_from_days z).1.1 <= 9999.
Proof.
  intros Hz. unfold Ctime.civil_from_days.
  set (z' := z + 719468).
  set (era := z' / 146097).
  set (doe := z' - era * 146097).
  assert (Hdoe : 0 <= doe <= 146096) by (unfold doe, era; div_lia).
  set (yoe := (doe - doe / 1460 + doe / 36524 - doe / 146096) / 365).
  assert (Hyoe : 0 <= yoe <= 399) by (unfold yoe; div_lia).
  set (doy := doe - (365 * yoe + yoe / 4 - yoe / 100)).
  assert (Hdoy : 0 <= doy <= 365) by (unfold doy, yoe; div_lia).
  set (mp := (5 * doy + 2) / 153).
  assert (Hera : 2 <= era <= 24) by (unfold era, z'; div_lia).
  cbn [fst].
  assert (Hz' : z' = era * 146097 + 365 * yoe + yoe / 4 - yoe / 100 + doy)
    by (unfold doy, doe; lia).
  assert (Hz2 : 365183 <= z' < 3652365) by (unfold z'; lia).
  assert (Hmp : 0 <= mp <= 11 /\ (mp < 10 <-> doy < 306)) by (unfold mp; div_lia).
  clearbody mp doy yoe era z'. clear doe Hdoe.
  destruct (Z.ltb_spec mp 10) as [H10|H10].
  - assert (Hm : (mp + 3 <=? 2) = false) by (apply Z.leb_gt; lia).
    rewrite Hm. div_lia.
  - assert (Hm : (mp - 9 <=? 2) = true) by (apply Z.leb_le; lia).
    rewrite Hm. div_lia.
Qed.

Lemma gmtime_year (s : Z) :
  -30610224000 <= s < 253402300800 ->
  1000 <= Ctime.tm_year (Ctime.gmtime s) + 1900 <= 9999.
Proof.
  intros Hs. unfold Ctime.gmtime.
  assert (Hd : -354285 <= s / 86400 < 2932897) by div_lia.
  pose proof (civil_from_days_year _ Hd) as Hy.
  destruct (Ctime.civil_from_days (s / 86400)) as [[y m] d].
  cbn [fst] in Hy. cbn [Ctime.tm_year]. lia.
Qed.

(** What the date accessors do to any time point of a year with four
    digits: the seconds come back shifted by the zone offset, the fraction
    of a second is dropped. *)
Lemma getDate_setDate (t utc_offset : Z) (r : Response.t) :
  -30610224000 <= Ctime.to_time_t t < 253402300800 ->
  Response.getDate utc_offset (Response.setDate t r)
  = Some (Ctime.from_time_t (Ctime.to_time_t t - utc_offset)).
Proof.
  intros Ht.
  pose proof (gmtime_year _ Ht) as Hyear.
  pose proof (gmtime_ranges (Ctime.to_time_t t)) as Hr.
  pose proof (timegm_gmtime (Ctime.to_time_t t)) as Hg.
  revert Hyear Hr Hg.
  unfold Response.getDate, Response.setDate, Response.setHeader.
  generalize (Ctime.gmtime (Ctime.to_time_t t)). intros date Hyear Hr Hg.
  cbv zeta in Hr. destruct Hr as (Hsec & Hmin & Hhour & Hmday & Hmon & Hwday).
  cbn [Response.headers]. rewrite lookup_insert_eq.
  rewrite get_put_time by assumption.
  unfold Ctime.mktime. rewrite <- Hg. reflexivity.
Qed.

Lemma to_time_t_from_time_t (s : Z) :
  Ctime.to_time_t (Ctime.from_time_t s) = s.
Proof.
  unfold Ctime.to_time_t, Ctime.from_time_t. apply Z.quot_mul. lia.
Qed.

(** C8 against the code: [setDate] writes the date in UTC ([gmtime]) and
    [getDate] reads it back as local time ([mktime]). A time point [t] of
    whole seconds, of a year with four digits, comes back as [t] minus the
    zone offset: the round trip is the identity exactly in a zone without
    offset. (Every time point of a 64-bit nanosecond clock lies in the
    years 1677 to 2262.) *)
Theorem getDate_setDate_local_time (s utc_offset : Z) (r : Response.t) :
  -30610224000 <= s < 253402300800 ->
  let t := Ctime.from_time_t s in
  Response.getDate utc_offset (Response.setDate t r)
  = Some (t - Ctime.from_time_t utc_offset) /\
  (Response.getDate utc_offset (Response.setDate t r) = Some t
   <-> utc_offset = 0).
Proof.
  intros Hs t.
  assert (Hget : Response.getDate utc_offset (Response.setDate t r)
                 = Some (t - Ctime.from_time_t utc_offset)).
  { unfold t. rewrite getDate_setDate; rewrite to_time_t_from_time_t;
      [|exact Hs].
    unfold Ctime.from_time_t. f_equal. lia. }
  split; [exact Hget|]. rewrite Hget. unfold Ctime.from_time_t.
  split; [intros [= H]; lia|intros ->; f_equal; lia].
Qed.

Lemma getDate_setDate_local_time_witness :
  (-30610224000 <= 0 < 253402300800) /\
  Response.getDate 3600 (Response.setDate (Ctime.from_time_t 0) Response.init)
  = Some (Ctime.from_time_t 0 - Ctime.from_time_t 3600) /\
  (Response.getDate 3600
     (Response.setDate (Ctime.from_time_t 0) Response.init)
   = Some (Ctime.from_time_t 0) <-> 3600 = 0).
Proof.
  split; [lia|].
  apply (getDate_setDate_local_time 0 3600 Response.init). lia.
Defined.

(** The epoch, one hour east of Greenwich: the header holds the UTC date,
    and [getDate] returns one hour before the epoch. *)
Example getDate_setDate_epoch :
  Response.getHeader "Date" (Response.setDate 0 Response.init)
  = Some "Thu, 01 Jan 1970 00:00:00 GMT" /\
  Response.getDate 3600 (Response.setDate 0 Response.init)
  = Some (-3600 * 1000000000) /\
  Response.getDate 3600 (Response.setDate 0 Response.init) ≠ Some 0 /\
  Response.getDate 0 (Response.setDate 0 Response.init) = Some 0.
Proof. repeat split; vm_compute; congruence. Qed.


(** ** [next()] never yields the first byte *)

Lemma char_at_get (s : string) (z : Z) :
  0 <= z < Z.of_nat (String.length s) ->
  String.get (Z.to_nat z) s = Some (char_at s z).
Proof.
  intros Hz. unfold char_at.
  destruct (String.get (Z.to_nat z) s) as [c|] eqn:Hg; [reflexivity|].
  exfalso. revert Hg.
  assert (Hn : (Z.to_nat z < String.length s)%nat) by lia.
  revert Hn. generalize (Z.to_nat z). clear Hz.
  induction s as [|c s IH]; simpl; intros n Hn; [lia|].
  destruct n as [|n]; [discriminate|]. apply IH. lia.
Qed.

Lemma char_at_cons (c : ascii) (s : string) (z : Z) :
  1 <= z -> char_at (String c s) z = char_at s (z - 1).
Proof.
  intros Hz. unfold char_at.
  replace (Z.to_nat z) with (S (Z.to_nat (z - 1))) by lia. reflexivity.
Qed.

Lemma nexts_after_none (n : nat) (b : Buffer.t) (i : nat) (x : ascii) :
  (Buffer.next b).1 = None -> Buffer.nexts n b !! i = Some (Some x) -> False.
Proof.
  intros Hnone. revert i. induction n as [|n IH]; intros i; [discriminate|].
  simpl. destruct (Buffer.next b) as [o b'] eqn:Hn. simpl in *. subst o.
  apply next_None in Hn as ->.
  destruct i as [|i]; simpl; [discriminate|apply IH].
Qed.

(** The [i]-th call of [next()] in a row (counting from 0) reads the
    character [i + 1] places after the head cursor. *)
Lemma nexts_index (n : nat) (b : Buffer.t) (i : nat) (x : ascii) :
  Buffer.typed b -> 0 <= Buffer.headCursor b ->
  Buffer.nexts n b !! i = Some (Some x) ->
  String.get (Z.to_nat (Buffer.headCursor b) + 1 + i) (Buffer.buffer b) = Some x.
Proof.
  revert b i. induction n as [|n IH]; intros b i Ht Hh; [discriminate|].
  simpl. destruct (Buffer.next b) as [[c|] b'] eqn:Hn; simpl.
  - pose proof (next_typed b Ht) as Ht'. rewrite Hn in Ht'. simpl in Ht'.
    apply next_Some in Hn as (Hlt & -> & ->); [|assumption|assumption].
    destruct i as [|i]; simpl.
    + intros [= <-].
      replace (Z.to_nat (Buffer.headCursor b) + 1 + 0)%nat
        with (Z.to_nat (Buffer.headCursor b + 1)) by lia.
      apply char_at_get. unfold Buffer.size_nat in Hlt. lia.
    + intros Hi. apply IH in Hi; [|assumption|simpl; lia]. simpl in Hi.
      rewrite <- Hi. f_equal. lia.
  - destruct i as [|i]; simpl; [discriminate|].
    intros Hi. exfalso. pose proof Hn as Hn'. apply next_None in Hn' as ->.
    eapply nexts_after_none; [|exact Hi]. now rewrite Hn.
Qed.

Lemma same_tail_next (b1 b2 : Buffer.t) (c : ascii) (b1' : Buffer.t) :
  Parsing.same_tail b1 b2 -> Buffer.next b1 = (Some c, b1') ->
  exists b2', Buffer.next b2 = (Some c, b2') /\ Parsing.same_tail b1' b2'.
Proof.
  intros (Ht & Hh & Hr & Hh2 & Hr2 & c1 & c2 & s & Hs1 & Hs2) Hn.
  pose proof (next_typed b1 Ht) as Ht'. rewrite Hn in Ht'. simpl in Ht'.
  pose proof Hn as Hn'.
  apply next_Some in Hn' as (Hlt & -> & ->); [|assumption|assumption].
  unfold Buffer.next in Hn |- *.
  assert (Hsz : Buffer.size_nat b2 = Buffer.size_nat b1).
  { unfold Buffer.size_nat. now rewrite Hs1, Hs2. }
  rewrite Hh2, Hsz, Hr2.
  destruct (Int.lt_size _ _); [|discriminate].
  injection Hn as Hc Hadd. rewrite Hadd.
  assert (Hto : Int.to_size_t (Buffer.headCursor b1 + 1)
                = Buffer.headCursor b1 + 1).
  { apply to_size_t_nonneg. destruct Ht as (_ & _ & Hsize). lia. }
  eexists. split.
  - f_equal. f_equal. rewrite Hto, Hs1, Hs2.
    rewrite !char_at_cons by lia. reflexivity.
  - unfold Parsing.same_tail. simpl.
    split; [exact Ht'|]. repeat (split; [lia || reflexivity|]).
    now exists c1, c2, s.
Qed.

Lemma same_tail_none (b1 b2 b1' : Buffer.t) :
  Parsing.same_tail b1 b2 -> Buffer.next b1 = (None, b1') ->
  Buffer.next b2 = (None, b2).
Proof.
  intros (Ht & Hh & Hr & Hh2 & Hr2 & c1 & c2 & s & Hs1 & Hs2).
  unfold Buffer.next.
  assert (Hsz : Buffer.size_nat b2 = Buffer.size_nat b1).
  { unfold Buffer.size_nat. now rewrite Hs1, Hs2. }
  rewrite Hh2, Hsz. now destruct (Int.lt_size _ _).
Qed.

Lemma same_tail_commit (b1 b2 : Buffer.t) :
  Parsing.same_tail b1 b2 ->
  Parsing.same_tail (Buffer.commit b1) (Buffer.commit b2).
Proof.
  intros ((Hth & Htr & Hts) & Hh & Hr & Hh2 & Hr2 & c1 & c2 & s & Hs1 & Hs2).
  unfold Parsing.same_tail, Buffer.typed. simpl.
  split; [split; [assumption|split; [assumption|exact Hts]]|].
  do 4 (split; [assumption|]).
  now exists c1, c2, s.
Qed.

Lemma same_tail_rollback (b1 b2 : Buffer.t) :
  Parsing.same_tail b1 b2 ->
  Parsing.same_tail (Buffer.rollback b1) (Buffer.rollback b2).
Proof.
  intros ((Hth & Htr & Hts) & Hh & Hr & Hh2 & Hr2 & c1 & c2 & s & Hs1 & Hs2).
  unfold Parsing.same_tail, Buffer.typed. simpl.
  split; [split; [assumption|split; [assumption|exact Hts]]|].
  do 4 (split; [assumption|]).
  now exists c1, c2, s.
Qed.

(** The parser does not see the first character of the buffer. *)
Lemma DeserializeRequest_same_tail (b1 b2 : Buffer.t) (request : Request.t)
    (o1 : Server.outcome) :
  Parsing.same_tail b1 b2 ->
  Server.DeserializeRequest b1 request = Some o1 ->
  exists o2, Server.DeserializeRequest b2 request = Some o2 /\
             Parsing.observe o2 = Parsing.observe o1.
Proof.
  intros Hst Hd. unfold Server.DeserializeRequest in *.
  assert (Hsz : Buffer.size_nat b2 = Buffer.size_nat b1).
  { destruct Hst as (_ & _ & _ & _ & _ & c1 & c2 & s & Hs1 & Hs2).
    unfold Buffer.size_nat. now rewrite Hs1, Hs2. }
  rewrite Hsz.
  destruct (DeserializeRequest_fuel_sim Parsing.same_tail true
              same_tail_next same_tail_commit
              (fun _ => same_tail_none) (fun _ => same_tail_rollback)
              _ _ b1 b2 request o1 Hst (le_n _) Hd (or_introl eq_refl))
    as (o2 & Ho2 & Hend & Hreq & Hbuf).
  exists o2. split; [exact Ho2|].
  destruct Hbuf as (_ & _ & _ & Hh2 & Hr2 & _).
  unfold Parsing.observe. now rewrite Hend, Hreq, Hh2, Hr2.
Qed.

(** What one call of [next()] gives, while the [int] cursor can be
    incremented: the character behind the head cursor when there is one,
    [nullopt] and the same buffer otherwise. *)
Lemma next_exact (b : Buffer.t) :
  Buffer.typed b -> 0 <= Buffer.headCursor b ->
  Buffer.headCursor b + 1 < 2^31 ->
  Buffer.next b
  = if Buffer.headCursor b + 1 <? Z.of_nat (Buffer.size_nat b)
    then (Some (char_at (Buffer.buffer b) (Buffer.headCursor b + 1)),
          Buffer.mk (Buffer.buffer b) (Buffer.headCursor b + 1)
            (Buffer.rollbackCursor b))
    else (None, b).
Proof.
  intros (Hh & _ & Hs) H0 H1. unfold Buffer.next, Int.add, Int.lt_size.
  rewrite wrap_id by (unfold Int.range; lia).
  rewrite to_size_t_nonneg by lia. reflexivity.
Qed.

Lemma get_beyond (s : string) (i : nat) :
  (String.length s <= i)%nat -> String.get i s = None.
Proof.
  revert i. induction s as [|d s IH]; intros i H; [now destruct i|].
  destruct i as [|i]; simpl in *; [lia|]. apply IH. lia.
Qed.

Lemma nexts_length (n : nat) (b : Buffer.t) : length (Buffer.nexts n b) = n.
Proof.
  revert b. induction n as [|n IH]; intros b; simpl; [reflexivity|].
  now rewrite IH.
Qed.

(** The [i]-th of [n] calls in a row reads the index [i + 1] behind the
    head cursor: a character when that index is within the string,
    [nullopt] when it is not. *)
Lemma nexts_exact (n : nat) (b : Buffer.t) (i : nat) :
  Buffer.typed b -> 0 <= Buffer.headCursor b ->
  (i < n)%nat -> Buffer.headCursor b + 1 + Z.of_nat i < 2^31 ->
  Buffer.nexts n b !! i
  = Some (String.get (Z.to_nat (Buffer.headCursor b) + 1 + i)
            (Buffer.buffer b)).
Proof.
  revert b i. induction n as [|n IH]; intros b i Ht Hh Hi Hmax; [lia|].
  pose proof (next_typed b Ht) as Ht'. simpl.
  rewrite (next_exact b Ht Hh) in * by lia.
  destruct (Z.ltb_spec (Buffer.headCursor b + 1) (Z.of_nat (Buffer.size_nat b)))
    as [Hlt|Hge]; simpl in *.
  - destruct i as [|i]; simpl.
    + f_equal. symmetry.
      replace (Z.to_nat (Buffer.headCursor b) + 1 + 0)%nat
        with (Z.to_nat (Buffer.headCursor b + 1)) by lia.
      apply char_at_get. unfold Buffer.size_nat in Hlt. lia.
    + rewrite IH; simpl; [|exact Ht'|lia|lia|lia]. do 2 f_equal. lia.
  - unfold Buffer.size_nat in Hge.
    rewrite (get_beyond (Buffer.buffer b)) by lia.
    destruct i as [|i]; simpl; [reflexivity|].
    rewrite IH; [|exact Ht|exact Hh|lia|lia].
    f_equal. apply get_beyond. lia.
Qed.

(** A reader that only calls [next()] gets the same from two buffers that
    differ in their first character. *)
Lemma nexts_same_tail (n : nat) (b1 b2 : Buffer.t) :
  Parsing.same_tail b1 b2 -> Buffer.nexts n b2 = Buffer.nexts n b1.
Proof.
  revert b1 b2. induction n as [|n IH]; intros b1 b2 Hst; [reflexivity|].
  simpl. destruct (Buffer.next b1) as [[x|] b1'] eqn:Hn; simpl.
  - destruct (same_tail_next b1 b2 x b1' Hst Hn) as (b2' & -> & Hst').
    simpl. f_equal. now apply IH.
  - rewrite (same_tail_none b1 b2 b1' Hst Hn). simpl. f_equal.
    apply next_None in Hn as ->. now apply IH.
Qed.

(** C9, as stated, fails in one part: the first character is not shown by
    [current()] alone. [cstr()] and, with the head cursor at 0,
    [cstrAfterCursor()] hand out the characters from index 0 on, and tell
    two buffers apart that differ in their first character only. *)
Lemma first_byte_shown_by_cstr :
  let b := Buffer.assign "GET / " Buffer.init in
  let b' := Buffer.assign "PET / " Buffer.init in
  String.get 0 (Buffer.cstr b) = Some "G"%char /\
  String.get 0 (Buffer.cstrAfterCursor b) = Some "G"%char /\
  Buffer.cstr b <> Buffer.cstr b' /\
  Buffer.cstrAfterCursor b <> Buffer.cstrAfterCursor b'.
Proof. repeat split; vm_compute; congruence. Qed.

(** C9, amended: [next()] from head position [h] yields the character at
    [h + 1] when [h + 1] is within the string, and [nullopt] without moving
    the cursor when it is not. So after an assignment of a non-empty
    string the [i]-th [next()] in a row reads index [i + 1], never index
    0. The first character is shown by [current()], by [cstr()] and by
    [cstrAfterCursor()]; a reader that only calls [next()] gets the same
    whatever the first character is, and so does the request parser. *)
Theorem next_never_yields_first_byte (c : ascii) (s : string) :
  Z.of_nat (String.length (String c s)) < 2^63 ->
  let b := Buffer.assign (String c s) Buffer.init in
  (forall b0, Buffer.typed b0 -> 0 <= Buffer.headCursor b0 ->
     Buffer.headCursor b0 + 1 < 2^31 ->
     Buffer.next b0
     = if Buffer.headCursor b0 + 1 <? Z.of_nat (Buffer.size_nat b0)
       then (Some (char_at (Buffer.buffer b0) (Buffer.headCursor b0 + 1)),
             Buffer.mk (Buffer.buffer b0) (Buffer.headCursor b0 + 1)
               (Buffer.rollbackCursor b0))
       else (None, b0)) /\
  (Buffer.current b = c /\ Buffer.cstr b = String c s /\
   Buffer.cstrAfterCursor b = String c s) /\
  (forall n i, (i < n)%nat -> Z.of_nat (S i) < 2^31 ->
     Buffer.nexts n b !! i = Some (String.get (S i) (String c s))) /\
  (forall n i x, Buffer.nexts n b !! i = Some (Some x) ->
     String.get (S i) (String c s) = Some x) /\
  (forall c' n,
     Buffer.nexts n (Buffer.assign (String c' s) Buffer.init)
     = Buffer.nexts n b) /\
  (forall c' request,
     exists o o',
       Server.DeserializeRequest b request = Some o /\
       Server.DeserializeRequest (Buffer.assign (String c' s) Buffer.init)
         request = Some o' /\
       Parsing.observe o' = Parsing.observe o).
Proof.
  intros Hlen b.
  assert (Ht : Buffer.typed b).
  { split; [|split]; [unfold Int.range; simpl; lia|unfold Int.range; simpl; lia|exact Hlen]. }
  assert (Hst : forall c', Parsing.same_tail b
                             (Buffer.assign (String c' s) Buffer.init)).
  { intros c'. split; [exact Ht|]. simpl. repeat (split; [lia || reflexivity|]).
    now exists c, c', s. }
  split; [exact next_exact|].
  split; [repeat split; reflexivity|]. split.
  { intros n i Hi Hmax.
    rewrite (nexts_exact n b i Ht); simpl; [reflexivity|lia|exact Hi|lia]. }
  split.
  { intros n i x Hi. apply nexts_index in Hi; [exact Hi|exact Ht|simpl; lia]. }
  split.
  { intros c' n. apply nexts_same_tail, Hst. }
  intros c' request.
  destruct (DeserializeRequest_total b request) as (o & Ho & _).
  { split; [exact Ht|]. unfold Buffer.cursors_bounded. simpl. lia. }
  destruct (DeserializeRequest_same_tail b
              (Buffer.assign (String c' s) Buffer.init) request o)
    as (o' & Ho' & Hobs); [apply Hst|exact Ho|].
  now exists o, o'.
Qed.

Lemma next_never_yields_first_byte_witness :
  let b := Buffer.assign "GET / " Buffer.init in
  Buffer.next b = (Some "E"%char, Buffer.mk "GET / " 1 0) /\
  Buffer.current b = "G"%char /\
  Buffer.nexts 7 b !! 0%nat = Some (Some "E"%char) /\
  Buffer.nexts 7 b !! 5%nat = Some None /\
  Buffer.nexts 7 (Buffer.assign "PET / " Buffer.init) = Buffer.nexts 7 b /\
  (Request.type <$> (Parsing.outcome_request
                       <$> Server.DeserializeRequest b Request.init))
  = Some "ET".
Proof.
  intros b. subst b.
  destruct (next_never_yields_first_byte "G"%char "ET / ")
    as (Hnext & (Hcur & _) & Hexact & _ & Hsame & _).
  - vm_compute. reflexivity.
  - split.
    { rewrite Hnext; [reflexivity| |simpl; lia|simpl; lia].
      repeat split; vm_compute; congruence. }
    split; [exact Hcur|]. split.
    { rewrite (Hexact 7%nat 0%nat); [reflexivity|lia|lia]. }
    split.
    { rewrite (Hexact 7%nat 5%nat); [reflexivity|lia|lia]. }
    split; [exact (Hsame "P"%char 7%nat)|].
    vm_compute. reflexivity.
Defined.

(** ** [ProcessRequest] *)

Lemma c_str_length (bytes : string) :
  (String.length (c_str bytes) <= String.length bytes)%nat.
Proof.
  induction bytes as [|c bytes IH]; simpl; [lia|].
  destruct (Ascii.eqb c NUL); simpl; lia.
Qed.

(** [ProcessRequest] returns, and the stage it leaves is the one it found
    or RES. *)
Lemma ProcessRequest_total (socket : list Server.recv_result)
    (state : ConnectionState) :
  Parsing.parse_ready (reqBuffer state) ->
  Z.of_nat (Buffer.size_nat (reqBuffer state) + Parsing.received socket) < 2^63 ->
  exists ret state',
    Server.ProcessRequest socket state = Some (ret, state') /\
    (stage state' = stage state \/ stage state' = RES).
Proof.
  revert state. induction socket as [|r socket IH]; intros state Hb Hs.
  - exists true, state. auto.
  - destruct r as [bytes| |]; simpl in *.
    + assert (Hb1 : Parsing.parse_ready (Buffer.append_cstr bytes (reqBuffer state))).
      { apply append_ready; [exact Hb|lia]. }
      destruct (DeserializeRequest_total _ (request state) Hb1)
        as (o & -> & Hbuf & Hb' & _).
      destruct o as [e b' request'|what b' request']; simpl in *.
      * destruct (Buffer.sizeBeforeCursor b' >? Server.maxHeaderSize).
        { eexists _, _. split; [reflexivity|]. now right. }
        destruct (IH (Server.with_parse b' request' state)) as (ret & st & H & Hst).
        { exact Hb'. }
        { simpl. unfold Buffer.size_nat in *. rewrite Hbuf.
          unfold Buffer.append_cstr. simpl. rewrite app_length. lia. }
        exists ret, st. split; [exact H|exact Hst].
      * eexists _, _. split; [reflexivity|]. now right.
    + exists true, state. auto.
    + exists false, state. auto.
Qed.

(** C2, as stated, fails: the parser has read the request line and the
    empty line (it left through the [return] after the empty line), the
    socket has nothing more, and the connection is still in stage REQ. *)
Lemma ProcessRequest_complete_stays_REQ :
  let bytes := "GET / HTTP/1.1" +:+ CRLF +:+ CRLF in
  (Parsing.outcome_end
     <$> Server.DeserializeRequest (Buffer.append_cstr bytes Buffer.init)
           Request.init)
  = Some (inl Server.header_end) /\
  ((fun r => (r.1, stage r.2))
     <$> Server.ProcessRequest [Server.recv_bytes bytes; Server.recv_would_block]
           (fresh_connection 5 REQ))
  = Some (true, REQ).
Proof. split; vm_compute; reflexivity. Qed.

Lemma ProcessRequest_taken_in (bytes : string)
    (state state1 : ConnectionState) (more : list Server.recv_result) :
  Receiving.taken_in bytes state state1 ->
  Server.ProcessRequest (Server.recv_bytes bytes :: more) state
  = Server.ProcessRequest more state1.
Proof.
  intros (e & b & r & Hp & Hsz & ->). unfold Receiving.parsed in Hp.
  cbn [Server.ProcessRequest]. rewrite Hp.
  destruct (Z.gtb_spec (Buffer.sizeBeforeCursor b) Server.maxHeaderSize);
    [lia|reflexivity].
Qed.

Lemma ProcessRequest_refused (bytes what : string)
    (state state' : ConnectionState) (more : list Server.recv_result) :
  Receiving.refused bytes what state state' ->
  Server.ProcessRequest (Server.recv_bytes bytes :: more) state
  = Some (true, state').
Proof.
  intros (b & r & [Hp|(e & Hp & Hsz & ->)] & ->);
    unfold Receiving.parsed in Hp; cbn [Server.ProcessRequest]; rewrite Hp;
    [reflexivity|].
  destruct (Z.gtb_spec (Buffer.sizeBeforeCursor b) Server.maxHeaderSize);
    [reflexivity|lia].
Qed.

Lemma ProcessRequest_all_taken_in (segments : list string)
    (state state1 : ConnectionState) (more : list Server.recv_result) :
  Receiving.all_taken_in state segments state1 ->
  Server.ProcessRequest ((Server.recv_bytes <$> segments) ++ more) state
  = Server.ProcessRequest more state1.
Proof.
  induction 1 as [state|state bytes state1 segments state2 H1 _ IH];
    [reflexivity|].
  rewrite fmap_cons, <- app_comm_cons.
  now rewrite (ProcessRequest_taken_in _ _ _ _ H1).
Qed.

Lemma all_taken_in_keeps (segments : list string)
    (state state1 : ConnectionState) :
  Receiving.all_taken_in state segments state1 ->
  stage state1 = stage state /\ response state1 = response state /\
  fd state1 = fd state /\ resBuffer state1 = resBuffer state.
Proof.
  induction 1 as [state|state bytes state1 segments state2 H1 _ IH]; [auto|].
  destruct H1 as (e & b & r & _ & _ & ->). exact IH.
Qed.

(** What the loop does with one received segment: it takes it in, or it
    ends in the [catch] block. *)
Lemma segment_settled (bytes : string) (state : ConnectionState) :
  Parsing.parse_ready (reqBuffer state) ->
  Z.of_nat (Buffer.size_nat (reqBuffer state) + String.length (c_str bytes))
    < 2^63 ->
  (exists state1,
     Receiving.taken_in bytes state state1 /\
     Parsing.parse_ready (reqBuffer state1) /\
     Buffer.size_nat (reqBuffer state1)
     = (Buffer.size_nat (reqBuffer state) + String.length (c_str bytes))%nat) \/
  (exists what state', Receiving.refused bytes what state state').
Proof.
  intros Hb Hs.
  assert (Hb1 : Parsing.parse_ready
                  (Buffer.append_cstr bytes (reqBuffer state))).
  { apply append_ready; [exact Hb|lia]. }
  destruct (DeserializeRequest_total _ (request state) Hb1)
    as (o & Ho & Hbuf & Hb' & _).
  destruct o as [e b' request'|what b' request']; simpl in *.
  - destruct (Z_le_gt_dec (Buffer.sizeBeforeCursor b') Server.maxHeaderSize)
      as [Hle|Hgt].
    + left. exists (Server.with_parse b' request' state).
      split; [now exists e, b', request'|]. split; [exact Hb'|].
      simpl. unfold Buffer.size_nat in *. rewrite Hbuf.
      unfold Buffer.append_cstr. simpl. now rewrite app_length.
    + right. eexists _, _. exists b', request'.
      split; [right; exists e; split; [exact Ho|split; [lia|reflexivity]]|].
      reflexivity.
  - right. exists what. eexists. exists b', request'.
    split; [left; exact Ho|reflexivity].
Qed.

(** Every script of [recv] results is a run of segments that the loop takes
    in, followed by nothing, by a [recv] that delivers nothing, or by a
    segment that the loop refuses. *)
Lemma socket_split (socket : list Server.recv_result)
    (state : ConnectionState) :
  Parsing.parse_ready (reqBuffer state) ->
  Z.of_nat (Buffer.size_nat (reqBuffer state) + Parsing.received socket) < 2^63 ->
  exists segments rest state1,
    socket = (Server.recv_bytes <$> segments) ++ rest /\
    Receiving.all_taken_in state segments state1 /\
    match rest with
    | Server.recv_bytes bytes :: _ =>
        exists what state', Receiving.refused bytes what state1 state'
    | _ => True
    end.
Proof.
  revert state. induction socket as [|r socket IH]; intros state Hb Hs.
  - exists [], [], state. repeat split. constructor.
  - destruct r as [bytes| |].
    + simpl in Hs.
      destruct (segment_settled bytes state Hb) as
        [(st1 & Ht & Hb1 & Hsz)|Href]; [lia| |].
      * destruct (IH st1 Hb1) as (segments & rest & state1 & -> & Hall & Hrest).
        { rewrite Hsz. lia. }
        exists (bytes :: segments), rest, state1.
        split; [reflexivity|]. split; [|exact Hrest].
        econstructor; [exact Ht|exact Hall].
      * exists [], (Server.recv_bytes bytes :: socket), state.
        split; [reflexivity|]. split; [constructor|exact Href].
    + exists [], (Server.recv_would_block :: socket), state.
      repeat split. constructor.
    + exists [], (Server.recv_failed :: socket), state.
      repeat split. constructor.
Qed.

(** C2, amended: the REQ-stage step never sets the stage to FUNC. A call of
    the parser that has consumed the whole header block is a call that
    returns, like any other: as long as [recv] delivers segments on which
    the parser returns with the head cursor within the limit, the loop
    calls [recv] again, the stage is REQ and the response is untouched.
    The call ends in three ways only: [recv] would block (it returns
    [true], stage REQ); [recv] fails (it returns [false], stage REQ); on a
    segment the parser throws or the head cursor is beyond the limit (it
    returns [true], stage RES, the response is 400 Bad Request with the
    message as its body). *)
Theorem ProcessRequest_REQ_or_RES (socket : list Server.recv_result)
    (state : ConnectionState) :
  stage state = REQ ->
  Parsing.parse_ready (reqBuffer state) ->
  Z.of_nat (Buffer.size_nat (reqBuffer state) + Parsing.received socket) < 2^63 ->
  exists segments rest state1,
    socket = (Server.recv_bytes <$> segments) ++ rest /\
    Receiving.all_taken_in state segments state1 /\
    stage state1 = REQ /\ response state1 = response state /\
    (forall more,
       Server.ProcessRequest ((Server.recv_bytes <$> segments) ++ more) state
       = Server.ProcessRequest more state1) /\
    match rest with
    | [] => True
    | Server.recv_would_block :: _ =>
        Server.ProcessRequest socket state = Some (true, state1)
    | Server.recv_failed :: _ =>
        Server.ProcessRequest socket state = Some (false, state1)
    | Server.recv_bytes bytes :: _ =>
        exists what state',
          Receiving.refused bytes what state1 state' /\
          Server.ProcessRequest socket state = Some (true, state') /\
          stage state' = RES /\
          response state'
          = Response.setBody what
              (Response.setContentType "text/plain"
                 (Response.setStatusReason "Bad Request"
                    (Response.setStatusCode 400 (response state))))
    end /\
    (forall ret state',
       Server.ProcessRequest socket state = Some (ret, state') ->
       stage state' <> FUNC).
Proof.
  intros Hst Hb Hs.
  destruct (socket_split socket state Hb Hs)
    as (segments & rest & state1 & -> & Hall & Hrest).
  pose proof (all_taken_in_keeps _ _ _ Hall) as (Hstage & Hresp & _ & _).
  rewrite Hst in Hstage.
  pose proof (fun more => ProcessRequest_all_taken_in segments state state1
                            more Hall) as Hrun.
  exists segments, rest, state1.
  do 4 (split; [reflexivity || assumption|]).
  split; [exact Hrun|]. rewrite Hrun.
  destruct rest as [|[bytes| |] rest].
  - split; [exact I|]. intros ret state' [= _ <-]. congruence.
  - destruct Hrest as (what & state' & Href).
    pose proof (ProcessRequest_refused _ _ _ _ rest Href) as Hres.
    assert (Hshape : stage state' = RES /\
                     response state'
                     = Response.setBody what
                         (Response.setContentType "text/plain"
                            (Response.setStatusReason "Bad Request"
                               (Response.setStatusCode 400 (response state))))).
    { destruct Href as (b & r & _ & ->). simpl. now rewrite Hresp. }
    destruct Hshape as (Hres_stage & Hres_resp). split.
    + exists what, state'. auto.
    + rewrite Hres. intros ret st [= _ <-]. congruence.
  - split; [reflexivity|]. intros ret state' [= _ <-]. congruence.
  - split; [reflexivity|]. intros ret state' [= _ <-]. congruence.
Qed.

Lemma ProcessRequest_REQ_or_RES_witness :
  let socket :=
    [Server.recv_bytes ("GET / HTTP/1.1" +:+ CRLF +:+ "Host: x" +:+ CRLF);
     Server.recv_bytes CRLF;
     Server.recv_bytes ("a:b" +:+ CRLF);
     Server.recv_would_block] in
  let state := fresh_connection 5 REQ in
  (exists segments rest state1,
     socket = (Server.recv_bytes <$> segments) ++ rest /\
     Receiving.all_taken_in state segments state1 /\
     stage state1 = REQ /\ response state1 = response state /\
     (forall more,
        Server.ProcessRequest ((Server.recv_bytes <$> segments) ++ more) state
        = Server.ProcessRequest more state1) /\
     match rest with
     | [] => True
     | Server.recv_would_block :: _ =>
         Server.ProcessRequest socket state = Some (true, state1)
     | Server.recv_failed :: _ =>
         Server.ProcessRequest socket state = Some (false, state1)
     | Server.recv_bytes bytes :: _ =>
         exists what state',
           Receiving.refused bytes what state1 state' /\
           Server.ProcessRequest socket state = Some (true, state') /\
           stage state' = RES /\
           response state'
           = Response.setBody what
               (Response.setContentType "text/plain"
                  (Response.setStatusReason "Bad Request"
                     (Response.setStatusCode 400 (response state))))
     end /\
     (forall ret state',
        Server.ProcessRequest socket state = Some (ret, state') ->
        stage state' <> FUNC)) /\
  ((fun r => (r.1, stage r.2, Response.statusCode (response r.2),
              Response.body (response r.2)))
     <$> Server.ProcessRequest socket state)
  = Some (true, RES, 400,
          "Expected space (' ') character after colon (':'). Got 98").
Proof.
  split.
  - apply ProcessRequest_REQ_or_RES.
    + reflexivity.
    + repeat split; vm_compute; congruence.
    + vm_compute. reflexivity.
  - vm_compute. reflexivity.
Defined.

(** ** The bound on the header size

    A request of one header line, with a value of any length, is followed
    through [ProcessRequest] symbolically. *)

Lemma get_app_r (s t : string) (i : nat) :
  String.get (String.length s + i) (s +:+ t) = String.get i t.
Proof.
  induction s as [|c s IH]; [reflexivity|]. rewrite app_cons. simpl. exact IH.
Qed.

Lemma get_lt (s : string) (i : nat) (c : ascii) :
  String.get i s = Some c -> (i < String.length s)%nat.
Proof.
  revert i. induction s as [|d s IH]; intros i; simpl; [discriminate|].
  destruct i as [|i]; [lia|]. intros H. apply IH in H. lia.
Qed.

Lemma next_at (b : Buffer.t) (c : ascii) :
  Buffer.typed b -> 0 <= Buffer.headCursor b ->
  Buffer.headCursor b + 1 < 2^31 ->
  String.get (Z.to_nat (Buffer.headCursor b + 1)) (Buffer.buffer b) = Some c ->
  Buffer.next b
  = (Some c, Buffer.mk (Buffer.buffer b) (Buffer.headCursor b + 1)
               (Buffer.rollbackCursor b)).
Proof.
  intros (Hh & Hr & Hs) H0 H1 Hg. unfold Buffer.next, Int.add.
  rewrite wrap_id by (unfold Int.range; lia).
  pose proof (get_lt _ _ _ Hg) as Hlt.
  rewrite lt_size_intro by (unfold Buffer.size_nat; lia).
  rewrite to_size_t_nonneg by lia. unfold char_at. now rewrite Hg.
Qed.

Lemma next_at_pos (b : Buffer.t) (pre post : string) (c : ascii) :
  Parsing.at_pos b pre (String c post) ->
  let b' := Buffer.mk (Buffer.buffer b) (Buffer.headCursor b + 1)
              (Buffer.rollbackCursor b) in
  Buffer.next b = (Some c, b') /\ Parsing.at_pos b' (push_back pre c) post.
Proof.
  intros (Hbuf & Hh & H0 & Hr & Hs) b'.
  assert (Hlen : String.length (pre +:+ String c post)
                 = (String.length pre + S (String.length post))%nat).
  { now rewrite app_length. }
  split.
  - apply next_at; try assumption.
    + split; [unfold Int.range; lia|]. split; [exact Hr|].
      unfold Buffer.size_nat. rewrite Hbuf. lia.
    + lia.
    + rewrite Hbuf, Hh.
      replace (Z.to_nat (Z.of_nat (String.length pre) - 1 + 1))
        with (String.length pre + 0)%nat by lia.
      now rewrite get_app_r.
  - unfold Parsing.at_pos, push_back. simpl. rewrite app_assoc, !app_length. simpl.
    rewrite Hbuf. unfold Int.range in *.
    repeat split; try assumption; try reflexivity; try lia.
Qed.

Lemma at_pos_typed (b : Buffer.t) (pre post : string) :
  Parsing.at_pos b pre post -> Buffer.typed b.
Proof.
  intros (Hbuf & Hh & H0 & Hr & Hs).
  split; [unfold Int.range; rewrite app_length in Hs; lia|].
  split; [exact Hr|]. unfold Buffer.size_nat. rewrite Hbuf. lia.
Qed.

Lemma fill_app (n : nat) (c : ascii) :
  String c (fill n c) = fill n c +:+ String c "".
Proof.
  induction n as [|n IH]; [reflexivity|]. simpl. rewrite app_cons. now f_equal.
Qed.

(** The value loop over [n] characters [x] and the line end. *)
Lemma scan_until_newline_fill (n : nat) (fuel : nat) (identifier : string)
    (b : Buffer.t) (pre post : string) :
  Parsing.at_pos b pre (fill n "x" +:+ CRLF +:+ post) ->
  (n + 2 <= fuel)%nat ->
  let b' := Buffer.mk (Buffer.buffer b) (Buffer.headCursor b + Z.of_nat n + 2)
              (Buffer.headCursor b + Z.of_nat n + 2) in
  Server.scan_until_newline fuel identifier b
  = Some (Server.Token (identifier +:+ fill n "x") LF b') /\
  Parsing.at_pos b' (pre +:+ fill n "x" +:+ CRLF) post.
Proof.
  revert fuel identifier b pre.
  induction n as [|n IH]; intros fuel identifier b pre Hpos Hfuel b'.
  - simpl in Hpos. rewrite app_nil_l in Hpos.
    destruct fuel as [|[|fuel]]; [lia|lia|].
    destruct (next_at_pos b pre _ CR Hpos) as [Hn1 Hpos1].
    destruct (next_at_pos _ _ _ LF Hpos1) as [Hn2 Hpos2].
    simpl in Hn2, Hpos2.
    split.
    + simpl. rewrite Hn1. simpl. rewrite Hn2. simpl.
      rewrite app_nil_r. unfold b', Buffer.commit. simpl.
      do 2 f_equal. f_equal; lia.
    + unfold push_back in Hpos2. rewrite app_assoc in Hpos2.
      change (String CR "" +:+ String LF "") with CRLF in Hpos2.
      destruct Hpos2 as (H1 & H2 & H3 & H4 & H5).
      unfold Parsing.at_pos, b'. simpl in *. rewrite app_nil_l.
      rewrite app_length in H5.
      split; [exact H1|]. split; [lia|]. split; [lia|].
      split; [unfold Int.range; lia|]. rewrite app_length. exact H5.
  - destruct fuel as [|fuel]; [lia|].
    change (fill (S n) "x" +:+ CRLF +:+ post)
      with (String "x" (fill n "x" +:+ CRLF +:+ post)) in Hpos.
    destruct (next_at_pos b pre _ "x"%char Hpos) as [Hn1 Hpos1].
    destruct (IH fuel (push_back identifier "x") _ _ Hpos1) as [Hs Hpos']; [lia|].
    simpl in Hs, Hpos'. split.
    + simpl. rewrite Hn1. simpl. rewrite Hs. unfold b'. f_equal. f_equal.
      * unfold push_back. rewrite app_assoc. reflexivity.
      * f_equal; lia.
    + unfold b'. replace (Buffer.headCursor b + Z.of_nat (S n) + 2)
        with (Buffer.headCursor b + 1 + Z.of_nat n + 2) by lia.
      unfold push_back in Hpos'. rewrite app_assoc in Hpos'. exact Hpos'.
Qed.

(** The header loop, one character at a time. *)
Lemma parse_headers_skip (fuel : nat) (identifier : string) (b b' : Buffer.t)
    (request : Request.t) (c : ascii) :
  Buffer.next b = (Some c, b') ->
  Ascii.eqb c CR = false -> Ascii.eqb c LF = false ->
  Ascii.eqb c COLON = false ->
  Server.parse_headers (S fuel) identifier b request
  = Server.parse_headers fuel identifier b' request.
Proof. intros Hn H1 H2 H3. simpl. now rewrite Hn, H1, H2, H3. Qed.

Lemma parse_headers_cr (fuel : nat) (identifier : string) (b b' : Buffer.t)
    (request : Request.t) :
  Buffer.next b = (Some CR, b') ->
  Server.parse_headers (S fuel) identifier b request
  = Server.parse_headers fuel identifier b' request.
Proof. intros Hn. simpl. now rewrite Hn. Qed.

Lemma parse_headers_lf (fuel : nat) (identifier : string) (b b' : Buffer.t)
    (request : Request.t) :
  Buffer.next b = (Some LF, b') ->
  Server.parse_headers (S fuel) identifier b request
  = Some (Server.Returned Server.header_end (Buffer.commit b') request).
Proof. intros Hn. simpl. now rewrite Hn. Qed.

Lemma parse_headers_colon (fuel : nat) (identifier : string)
    (b b1 b2 b3 : Buffer.t) (request : Request.t) (value : string) (c : ascii) :
  Buffer.next b = (Some COLON, b1) ->
  Buffer.next b1 = (Some SP, b2) ->
  Server.scan_until_newline fuel "" b2 = Some (Server.Token value c b3) ->
  Server.parse_headers (S fuel) identifier b request
  = Server.parse_headers fuel (push_back "" c) b3
      (Request.setHeader identifier value request).
Proof. intros Hn1 Hn2 Hs. simpl. now rewrite Hn1, Hn2, Hs. Qed.

(** The header loop over one header line with a value of [n] characters
    and the empty line: the cursor ends [n + 7] characters further, on the
    last newline. *)
Lemma parse_headers_one_line (n fuel : nat) (b : Buffer.t) (pre : string)
    (request : Request.t) :
  Parsing.at_pos b pre ("A: " +:+ fill n "x" +:+ CRLF +:+ CRLF) ->
  (n + 4 <= fuel)%nat ->
  Server.parse_headers fuel "" b request
  = Some (Server.Returned Server.header_end
            (Buffer.mk (Buffer.buffer b)
               (Buffer.headCursor b + Z.of_nat n + 7)
               (Buffer.headCursor b + Z.of_nat n + 7))
            (Request.setHeader "" (fill n "x") request)).
Proof.
  intros Hpos Hfuel.
  destruct fuel as [|[|[|[|fuel]]]]; try lia.
  change ("A: " +:+ fill n "x" +:+ CRLF +:+ CRLF)
    with (String "A" (String ":" (String " " (fill n "x" +:+ CRLF +:+ CRLF))))
    in Hpos.
  destruct (next_at_pos _ _ _ _ Hpos) as [Hn1 Hpos1].
  destruct (next_at_pos _ _ _ _ Hpos1) as [Hn2 Hpos2].
  destruct (next_at_pos _ _ _ _ Hpos2) as [Hn3 Hpos3].
  destruct (scan_until_newline_fill n (S (S fuel)) "" _ _ _ Hpos3)
    as [Hscan Hpos4]; [lia|].
  change CRLF with (String CR (String LF "")) in Hpos4 at 2.
  destruct (next_at_pos _ _ _ _ Hpos4) as [Hn5 Hpos5].
  destruct (next_at_pos _ _ _ _ Hpos5) as [Hn6 Hpos6].
  rewrite (parse_headers_skip _ _ _ _ _ _ Hn1) by reflexivity.
  rewrite (parse_headers_colon _ _ _ _ _ _ _ _ _ Hn2 Hn3 Hscan).
  rewrite (parse_headers_cr _ _ _ _ _ Hn5).
  rewrite (parse_headers_lf _ _ _ _ _ Hn6).
  unfold Buffer.commit. simpl. rewrite app_nil_l.
  do 2 f_equal. f_equal; lia.
Qed.

Lemma fill_length (n : nat) (c : ascii) : String.length (fill n c) = n.
Proof. induction n as [|n IH]; simpl; [reflexivity|now rewrite IH]. Qed.

Lemma c_str_app (s t : string) :
  c_str s = s -> c_str (s +:+ t) = s +:+ c_str t.
Proof.
  induction s as [|c s IH]; [reflexivity|]. rewrite app_cons. simpl.
  destruct (Ascii.eqb c NUL); [discriminate|].
  intros [= Hs]. now rewrite IH.
Qed.

Lemma c_str_fill (n : nat) : c_str (fill n "x") = fill n "x".
Proof. induction n as [|n IH]; simpl; [reflexivity|now rewrite IH]. Qed.

Lemma DeserializeRequest_fuel_headers (fuel : nat) (b : Buffer.t)
    (request : Request.t) :
  str_empty (Request.getType request) = false ->
  str_empty (Request.getPath request) = false ->
  str_empty (Request.getVersion request) = false ->
  Server.DeserializeRequest_fuel fuel b request
  = Server.parse_headers fuel "" b request.
Proof.
  intros H1 H2 H3.
  unfold Server.DeserializeRequest_fuel, Server.parse_type. rewrite H1. simpl.
  unfold Server.parse_path. rewrite H2. simpl.
  unfold Server.parse_version. now rewrite H3.
Qed.

Lemma ProcessRequest_unfold (bytes : string) (socket : list Server.recv_result)
    (state : ConnectionState) :
  Server.ProcessRequest (Server.recv_bytes bytes :: socket) state
  = match Server.DeserializeRequest
            (Buffer.append_cstr bytes (reqBuffer state)) (request state) with
    | None => None
    | Some (Server.Thrown what buffer request) =>
        Some (true, Server.bad_request what
                      (Server.with_parse buffer request state))
    | Some (Server.Returned _ buffer request) =>
        if Buffer.sizeBeforeCursor buffer >? Server.maxHeaderSize
        then Some (true,
               Server.bad_request "Header size exceeds defined maximum size"
                 (Server.with_parse buffer request state))
        else Server.ProcessRequest socket
               (Server.with_parse buffer request state)
    end.
Proof. reflexivity. Qed.

Lemma first_segment :
  Server.DeserializeRequest
    (Buffer.append_cstr ("GET / HTTP/1.1" +:+ CRLF) Buffer.init) Request.init
  = Some (Server.Returned Server.need_header
            (Buffer.mk ("GET / HTTP/1.1" +:+ CRLF) 15 15)
            (Request.mk "ET" "/" "HTTP/1.1" ∅)).
Proof. vm_compute. reflexivity. Qed.

(** The request of [23 + n] bytes leaves the cursor at [22 + n]. *)
Lemma ProcessRequest_one_header (n fd : Z) :
  0 <= n -> 23 + n < 2^31 ->
  Parsing.summary
    (Server.ProcessRequest (Parsing.request_of_size n) (fresh_connection fd REQ))
  = Some (if 22 + n >? Server.maxHeaderSize
          then (true, RES, 400, 22 + n, 23 + n)
          else (true, REQ, 200, 22 + n, 23 + n)).
Proof.
  intros Hn Hmax. unfold Parsing.request_of_size.
  rewrite ProcessRequest_unfold.
  change (reqBuffer (fresh_connection fd REQ)) with Buffer.init.
  change (request (fresh_connection fd REQ)) with Request.init.
  rewrite first_segment.
  change (Buffer.sizeBeforeCursor
            (Buffer.mk ("GET / HTTP/1.1" +:+ CRLF) 15 15) >? Server.maxHeaderSize)
    with false. cbv iota.
  rewrite ProcessRequest_unfold.
  set (n' := Z.to_nat n).
  set (bytes1 := "GET / HTTP/1.1" +:+ CRLF).
  set (bytes2 := "A: " +:+ fill n' "x" +:+ CRLF +:+ CRLF).
  set (request1 := Request.mk "ET" "/" "HTTP/1.1" ∅).
  set (state1 := Server.with_parse _ request1 _).
  change (reqBuffer state1) with (Buffer.mk bytes1 15 15).
  change (request state1) with request1.
  assert (Hc : c_str bytes2 = bytes2).
  { unfold bytes2. rewrite c_str_app by reflexivity.
    rewrite c_str_app by apply c_str_fill. reflexivity. }
  unfold Buffer.append_cstr. rewrite Hc.
  set (b2 := Buffer.append bytes2 _).
  assert (Hsize : Buffer.size_nat b2 = (23 + n')%nat).
  { unfold b2. rewrite size_nat_append. unfold bytes2.
    rewrite !app_length, fill_length.
    change (Buffer.size_nat (Buffer.mk bytes1 15 15)) with 16%nat.
    change (String.length "A: ") with 3%nat.
    change (String.length CRLF) with 2%nat. lia. }
  assert (Hpos : Parsing.at_pos b2 bytes1 bytes2).
  { unfold Parsing.at_pos. split; [reflexivity|]. split; [reflexivity|].
    split; [simpl; lia|]. split; [simpl; unfold Int.range; lia|].
    change (String.length (bytes1 +:+ bytes2)) with (Buffer.size_nat b2).
    rewrite Hsize. lia. }
  unfold Server.DeserializeRequest.
  rewrite DeserializeRequest_fuel_headers by reflexivity.
  rewrite (parse_headers_one_line n' _ b2 bytes1 request1 Hpos)
    by (rewrite Hsize; lia).
  change (Buffer.headCursor b2) with 15.
  replace (15 + Z.of_nat n' + 7) with (22 + n) by lia.
  unfold Buffer.sizeBeforeCursor at 1. cbv [Buffer.headCursor].
  destruct (22 + n >? Server.maxHeaderSize).
  - unfold Parsing.summary. simpl. do 2 f_equal.
    change (Buffer.size_nat _) with (Buffer.size_nat b2). rewrite Hsize. lia.
  - unfold Parsing.summary. simpl. do 2 f_equal.
    change (Buffer.size_nat _) with (Buffer.size_nat b2). rewrite Hsize. lia.
Qed.

(** C7 against the code: [sizeBeforeCursor()] is the index of the last byte
    read, one less than the number of bytes read, and the test is
    [> maxHeaderSize]. A header block of [23 + n] bytes gets the 400 only
    when it is longer than 8193 bytes: with 8193 bytes the cursor is at
    8192, there is no error response and the connection stays in stage REQ
    with the default response. *)
Theorem ProcessRequest_header_size (n fd : Z) :
  0 <= n -> 23 + n < 2^31 ->
  Parsing.summary
    (Server.ProcessRequest (Parsing.request_of_size n) (fresh_connection fd REQ))
  = Some (if 23 + n >? 8193
          then (true, RES, 400, 22 + n, 23 + n)
          else (true, REQ, 200, 22 + n, 23 + n)).
Proof.
  intros Hn Hmax. rewrite ProcessRequest_one_header by assumption.
  unfold Server.maxHeaderSize.
  destruct (Z.gtb_spec (22 + n) 8192), (Z.gtb_spec (23 + n) 8193);
    try reflexivity; lia.
Qed.

Lemma ProcessRequest_header_size_witness :
  Parsing.summary
    (Server.ProcessRequest (Parsing.request_of_size 8170) (fresh_connection 5 REQ))
  = Some (true, REQ, 200, 8192, 8193).
Proof.
  exact (ProcessRequest_header_size 8170 5 ltac:(lia) ltac:(lia)).
Defined.

(** The bound on both sides: 8192 bytes pass, 8194 bytes give the 400. *)
Lemma ProcessRequest_header_8192_8194 :
  Parsing.summary
    (Server.ProcessRequest (Parsing.request_of_size 8169) (fresh_connection 5 REQ))
  = Some (true, REQ, 200, 8191, 8192) /\
  Parsing.summary
    (Server.ProcessRequest (Parsing.request_of_size 8171) (fresh_connection 5 REQ))
  = Some (true, RES, 400, 8193, 8194).
Proof.
  split.
  - exact (ProcessRequest_one_header 8169 5 ltac:(lia) ltac:(lia)).
  - exact (ProcessRequest_one_header 8171 5 ltac:(lia) ltac:(lia)).
Qed.

(** ** The keys of the stored headers *)

Lemma scan_until_newline_delimiter (fuel : nat) (identifier : string)
    (b : Buffer.t) (tok : string) (c : ascii) (bt : Buffer.t) :
  Server.scan_until_newline fuel identifier b = Some (Server.Token tok c bt) ->
  c = LF.
Proof.
  revert identifier b. induction fuel as [|fuel IH]; intros identifier b;
    [discriminate|]. simpl.
  destruct (Buffer.next b) as [[d|] b1]; [|discriminate].
  destruct (Ascii.eqb d CR); [apply IH|].
  destruct (Ascii.eqb_spec d LF) as [->|_]; [now intros [= _ <- _]|apply IH].
Qed.

(** The key accumulator of the header loop holds nothing, or one newline:
    these are the only keys under which the loop stores. *)
Lemma parse_headers_keys (fuel : nat) (identifier : string) (b : Buffer.t)
    (request : Request.t) (o : Server.outcome) (key : string) :
  Server.parse_headers fuel identifier b request = Some o ->
  identifier = "" \/ identifier = String LF "" ->
  key ≠ "" -> key ≠ String LF "" ->
  Request.headers (Parsing.outcome_request o) !! key
  = Request.headers request !! key.
Proof.
  intros Hp Hid Hk1 Hk2. revert identifier b request Hp Hid.
  induction fuel as [|fuel IH]; intros identifier b request; [discriminate|].
  simpl. destruct (Buffer.next b) as [[c|] b1]; [|now intros [= <-]].
  destruct (Ascii.eqb c CR); [apply IH|].
  destruct (Ascii.eqb c LF); [now intros [= <-]|].
  destruct (Ascii.eqb c COLON); [|apply IH].
  destruct (Buffer.next b1) as [[c2|] b2]; [|now intros [= <-]].
  destruct (negb (Ascii.eqb c2 SP)); [now intros [= <-]|].
  destruct (Server.scan_until_newline fuel "" b2) as [[bx|value c3 b3]|] eqn:Hs;
    [now intros [= <-]| |discriminate].
  intros Hp Hid. apply scan_until_newline_delimiter in Hs as ->.
  rewrite (IH _ _ _ Hp) by (now right). simpl.
  apply lookup_insert_ne. destruct Hid as [-> | ->]; congruence.
Qed.

Lemma parse_block_headers (getter : Request.t -> string)
    (setter : string -> Request.t -> Request.t)
    (scanner : nat -> string -> Buffer.t -> option Server.scan)
    (e : Server.parse_exit) (fuel : nat) (b : Buffer.t) (request : Request.t)
    (k : Server.block) :
  (forall v r, Request.headers (setter v r) = Request.headers r) ->
  Parsing.parse_block getter setter scanner e fuel b request = Some k ->
  match k with
  | Server.Return o =>
      Request.headers (Parsing.outcome_request o) = Request.headers request
  | Server.Fall _ request' => Request.headers request' = Request.headers request
  end.
Proof.
  intros Hset. unfold Parsing.parse_block.
  destruct (str_empty _); [|now intros [= <-]].
  destruct (scanner fuel "" b) as [[bx|tok c bt]|]; [| |discriminate];
    intros [= <-]; [reflexivity|apply Hset].
Qed.

(** No call of the parser stores under a key other than those two: a
    header line [K: V] with any other [K] leaves the entry of [K] as it
    was. *)
Lemma DeserializeRequest_keys (b : Buffer.t) (request : Request.t)
    (o : Server.outcome) (key : string) :
  Server.DeserializeRequest b request = Some o ->
  key ≠ "" -> key ≠ String LF "" ->
  Request.headers (Parsing.outcome_request o) !! key
  = Request.headers request !! key.
Proof.
  unfold Server.DeserializeRequest, Server.DeserializeRequest_fuel.
  generalize (S (Buffer.size_nat b)). intros fuel Hd Hk1 Hk2.
  destruct (Server.parse_type fuel b request) as [k1|] eqn:H1; [|discriminate].
  apply (parse_block_headers Request.getType Request.setType) in H1;
    [|reflexivity].
  destruct k1 as [o1|b1 request1]; simpl in Hd; [injection Hd as <-; now rewrite H1|].
  destruct (Server.parse_path fuel b1 request1) as [k2|] eqn:H2; [|discriminate].
  apply (parse_block_headers Request.getPath Request.setPath) in H2;
    [|reflexivity].
  destruct k2 as [o2|b2 request2]; simpl in Hd;
    [injection Hd as <-; now rewrite H2, H1|].
  destruct (Server.parse_version fuel b2 request2) as [k3|] eqn:H3;
    [|discriminate].
  apply (parse_block_headers Request.getVersion Request.setVersion) in H3;
    [|reflexivity].
  destruct k3 as [o3|b3 request3]; simpl in Hd;
    [injection Hd as <-; now rewrite H3, H2, H1|].
  rewrite (parse_headers_keys _ _ _ _ _ key Hd) by auto.
  now rewrite H3, H2, H1.
Qed.

(** C1 against the code: the characters before the colon are dropped (the
    statement that collects them stands after the value loop, inside the
    block of the colon), so the value is stored under the empty key, and
    under the key made of one newline for every later header of the same
    call. The first character of the buffer is skipped as well (C9), hence
    the method [ET]. *)
Theorem DeserializeRequest_header_key_lost :
  let bytes := "GET /ping HTTP/1.1" +:+ CRLF +:+ "Host: x" +:+ CRLF
                 +:+ "Accept: y" +:+ CRLF +:+ CRLF in
  exists b request,
    Server.DeserializeRequest (Buffer.assign bytes Buffer.init) Request.init
    = Some (Server.Returned Server.header_end b request) /\
    Request.headers request !! "Host" = None /\
    Request.headers request !! "Accept" = None /\
    Request.headers request = {[ "" := "x"; String LF "" := "y" ]} /\
    Request.type request = "ET".
Proof.
  eexists _, _. split; [vm_compute; reflexivity|].
  repeat split; vm_compute; reflexivity.
Qed.

(** * Further properties *)

Lemma run_reads (ops : list Buffer.op) (b : Buffer.t) :
  forallb Cursors.reads ops = true ->
  Buffer.buffer (Buffer.run ops b)
  = Buffer.buffer b +:+ Cursors.appended_by ops /\
  Buffer.rollbackCursor (Buffer.run ops b) = Buffer.rollbackCursor b.
Proof.
  revert b. induction ops as [|o ops IH]; intros b Hops; simpl.
  - now rewrite app_nil_r.
  - apply andb_true_iff in Hops as [Ho Hops].
    destruct (IH (Buffer.apply o b) Hops) as [IH1 IH2].
    unfold Buffer.run in *. rewrite IH1, IH2.
    destruct o; try discriminate; simpl.
    + now rewrite app_assoc.
    + unfold Buffer.next. now destruct (Int.lt_size _ _).
Qed.

(** X1: After a commit, any number of [next()] calls and appends followed by
    [rollback()] puts both cursors back at the commit point; the string
    is the old one with what was appended. *)
Theorem rollback_restores_commit (ops : list Buffer.op) (b : Buffer.t) :
  forallb Cursors.reads ops = true ->
  Buffer.rollback (Buffer.run ops (Buffer.commit b))
  = Buffer.mk (Buffer.buffer b +:+ Cursors.appended_by ops)
      (Buffer.headCursor b) (Buffer.headCursor b).
Proof.
  intros Hops.
  destruct (run_reads ops (Buffer.commit b) Hops) as [H1 H2].
  unfold Buffer.rollback. now rewrite H1, H2.
Qed.

Lemma rollback_restores_commit_witness :
  Buffer.rollback
    (Buffer.run [Buffer.op_next; Buffer.op_append "T /"; Buffer.op_next;
                 Buffer.op_next]
       (Buffer.commit (Buffer.mk "GE" 1 0)))
  = Buffer.mk "GET /" 1 1.
Proof.
  exact (rollback_restores_commit
           [Buffer.op_next; Buffer.op_append "T /"; Buffer.op_next;
            Buffer.op_next] (Buffer.mk "GE" 1 0) eq_refl).
Defined.

Lemma apply_readable (o : Buffer.op) (b : Buffer.t) :
  Buffer.typed b -> Buffer.op_typed o ->
  Cursors.readable b -> Cursors.readable (Buffer.apply o b).
Proof.
  intros Ht Ho [Hh Hr]. unfold Cursors.readable, Cursors.on_char in *.
  destruct o; simpl in *.
  - auto.
  - rewrite size_nat_append. lia.
  - destruct (Buffer.next b) as [[c|] b'] eqn:Hn; simpl.
    + apply next_Some in Hn as (Hlt & _ & ->); [|assumption|lia].
      unfold Buffer.size_nat in *. simpl. lia.
    + apply next_None in Hn as ->. auto.
  - unfold Buffer.size_nat in *. simpl. auto.
  - unfold Buffer.size_nat in *. simpl. auto.
  - unfold Buffer.size_nat in *. simpl. auto.
  - unfold Buffer.set. destruct (_ && _) eqn:Hc; simpl; [|auto].
    apply andb_true_iff in Hc as [Hlt Hpos]. apply Z.leb_le in Hpos.
    unfold Int.lt_size in Hlt. apply Z.ltb_lt in Hlt.
    unfold Int.range in Ho. rewrite to_size_t_nonneg in Hlt by lia.
    unfold Buffer.size_nat in *. simpl. lia.
  - unfold Buffer.increment. destruct (_ && _) eqn:Hc; simpl; [|auto].
    apply andb_true_iff in Hc as [Hlt Hpos]. apply Z.leb_le in Hpos.
    unfold Int.lt_size in Hlt. apply Z.ltb_lt in Hlt.
    pose proof (wrap_range (Buffer.headCursor b + update)) as Hw.
    unfold Int.add in *. unfold Int.range in Hw.
    rewrite to_size_t_nonneg in Hlt by lia.
    unfold Buffer.size_nat in *. simpl. lia.
Qed.

Lemma run_readable (ops : list Buffer.op) (b : Buffer.t) :
  Buffer.typed b -> Buffer.admissible ops b ->
  Cursors.readable b -> Cursors.readable (Buffer.run ops b).
Proof.
  revert b. induction ops as [|o ops IH]; intros b Ht Ha Hb; simpl.
  - exact Hb.
  - destruct Ha as (Ho & Hs & Ha).
    apply IH; [now apply apply_typed|exact Ha|now apply apply_readable].
Qed.

(** X2: No sequence of operations puts a cursor behind the last character: the
    head cursor of a non-empty buffer is always on a character, so
    [sizeAfterCursor()] is at least 1. *)
Theorem cursor_never_behind_last (ops : list Buffer.op) (b : Buffer.t) :
  Buffer.typed b -> Buffer.admissible ops b -> Cursors.readable b ->
  let b' := Buffer.run ops b in
  Cursors.readable b' /\
  (0 < Z.of_nat (Buffer.size_nat b') < 2^31 ->
   0 <= Buffer.headCursor b' < Z.of_nat (Buffer.size_nat b') /\
   1 <= Buffer.sizeAfterCursor b').
Proof.
  intros Ht Ha Hb b'.
  pose proof (run_readable ops b Ht Ha Hb) as Hr. fold b' in Hr.
  split; [exact Hr|]. intros Hs.
  destruct Hr as [Hh _]. unfold Cursors.on_char in Hh.
  split; [lia|]. unfold Buffer.sizeAfterCursor.
  rewrite wrap_id; unfold Int.range; lia.
Qed.

Lemma cursor_never_behind_last_witness :
  let b' := Buffer.run [Buffer.op_assign "HTTP/1.1 200 OK";
                        Buffer.op_increment 14; Buffer.op_increment 1;
                        Buffer.op_next]
              Buffer.init in
  Buffer.headCursor b' = 14 /\ 1 <= Buffer.sizeAfterCursor b'.
Proof.
  destruct (cursor_never_behind_last
              [Buffer.op_assign "HTTP/1.1 200 OK"; Buffer.op_increment 14;
               Buffer.op_increment 1; Buffer.op_next] Buffer.init)
    as [_ H].
  - repeat split; vm_compute; congruence.
  - repeat split; vm_compute; congruence.
  - split; left; reflexivity.
  - split; [reflexivity|]. apply H. vm_compute. split; reflexivity.
Defined.

(** ** The parser: what a call leaves behind *)

Lemma scan_until_space_post (fuel : nat) (identifier : string) (b : Buffer.t)
    (r : Server.scan) :
  Parsing.parse_ready b ->
  Server.scan_until_space fuel identifier b = Some r -> Parsing.scan_post b r.
Proof.
  revert identifier b.
  induction fuel as [|fuel IH]; intros identifier b Hb; [discriminate|].
  simpl. destruct (Buffer.next b) as [[c|] b1] eqn:Hn.
  - destruct (next_ready _ _ _ Hb Hn) as (Hb1 & Hbuf & Hrb & Hhd & Hlt).
    destruct (Ascii.eqb c SP).
    + intros [= <-]. simpl.
      split; [exact Hbuf|]. split; [now apply commit_ready|].
      split; [lia|reflexivity].
    + intros Hr. apply IH in Hr; [|exact Hb1].
      destruct r as [bx|tok d bx]; simpl in *.
      * rewrite Hr. unfold Buffer.rollback. now rewrite Hbuf, Hrb.
      * destruct Hr as (? & ? & ? & ?).
        split; [congruence|]. split; [assumption|]. split; [lia|assumption].
  - apply next_None in Hn as ->. now intros [= <-].
Qed.

Lemma scan_until_newline_post (fuel : nat) (identifier : string) (b : Buffer.t)
    (r : Server.scan) :
  Parsing.parse_ready b ->
  Server.scan_until_newline fuel identifier b = Some r -> Parsing.scan_post b r.
Proof.
  revert identifier b.
  induction fuel as [|fuel IH]; intros identifier b Hb; [discriminate|].
  simpl. destruct (Buffer.next b) as [[c|] b1] eqn:Hn.
  - destruct (next_ready _ _ _ Hb Hn) as (Hb1 & Hbuf & Hrb & Hhd & Hlt).
    assert (Hrec : forall identifier',
      Server.scan_until_newline fuel identifier' b1 = Some r ->
      Parsing.scan_post b r).
    { intros identifier' Hr. apply IH in Hr; [|exact Hb1].
      destruct r as [bx|tok d bx]; simpl in *.
      - rewrite Hr. unfold Buffer.rollback. now rewrite Hbuf, Hrb.
      - destruct Hr as (? & ? & ? & ?).
        split; [congruence|]. split; [assumption|]. split; [lia|assumption]. }
    destruct (Ascii.eqb c CR); [apply Hrec|].
    destruct (Ascii.eqb c LF); [|apply Hrec].
    intros [= <-]. simpl.
    split; [exact Hbuf|]. split; [now apply commit_ready|].
    split; [lia|reflexivity].
  - apply next_None in Hn as ->. now intros [= <-].
Qed.

Lemma parse_headers_advanced (fuel : nat) (identifier : string) (b : Buffer.t)
    (request : Request.t) (o : Server.outcome) :
  Parsing.parse_ready b ->
  Buffer.rollbackCursor b <= Buffer.headCursor b ->
  Server.parse_headers fuel identifier b request = Some o -> advanced b o.
Proof.
  revert identifier b request.
  induction fuel as [|fuel IH]; intros identifier b request Hb Hord;
    [discriminate|].
  simpl. destruct (Buffer.next b) as [[c|] b1] eqn:Hn.
  - destruct (next_ready _ _ _ Hb Hn) as (Hb1 & Hbuf & Hrb & Hhd & Hlt).
    assert (Hrec : forall identifier',
      Server.parse_headers fuel identifier' b1 request = Some o ->
      advanced b o).
    { intros identifier' Ho. apply IH in Ho; [|exact Hb1|lia].
      unfold advanced in *. lia. }
    destruct (Ascii.eqb c CR); [apply Hrec|].
    destruct (Ascii.eqb c LF).
    { intros [= <-]. unfold advanced. simpl. lia. }
    destruct (Ascii.eqb c COLON); [|apply Hrec].
    destruct (Buffer.next b1) as [[c2|] b2] eqn:Hn2.
    + destruct (next_ready _ _ _ Hb1 Hn2) as (Hb2 & Hbuf2 & Hrb2 & Hhd2 & Hlt2).
      destruct (negb (Ascii.eqb c2 SP)).
      { intros [= <-]. unfold advanced. simpl. lia. }
      destruct (Server.scan_until_newline fuel "" b2) as [r|] eqn:Hr;
        [|discriminate].
      apply scan_until_newline_post in Hr; [|exact Hb2].
      destruct r as [bx|value c3 b3]; simpl in Hr.
      * subst bx. intros [= <-]. unfold advanced. simpl. lia.
      * destruct Hr as (Hbuf3 & Hb3 & Hhd3 & Hrb3).
        intros Ho. apply IH in Ho; [|exact Hb3|lia].
        unfold advanced in *. lia.
    + apply next_None in Hn2 as ->. intros [= <-]. unfold advanced. simpl. lia.
  - apply next_None in Hn as ->. intros [= <-]. unfold advanced. simpl. lia.
Qed.

Lemma parse_block_advanced (getter : Request.t -> string)
    (setter : string -> Request.t -> Request.t)
    (scanner : nat -> string -> Buffer.t -> option Server.scan)
    (e : Server.parse_exit) (fuel : nat) (b : Buffer.t) (request : Request.t)
    (k : Server.block) :
  (forall fuel identifier b r, Parsing.parse_ready b ->
     scanner fuel identifier b = Some r -> Parsing.scan_post b r) ->
  Parsing.parse_ready b ->
  Buffer.rollbackCursor b <= Buffer.headCursor b ->
  Parsing.parse_block getter setter scanner e fuel b request = Some k ->
  match k with
  | Server.Return o => advanced b o
  | Server.Fall b' _ =>
      Parsing.parse_ready b' /\
      Buffer.rollbackCursor b <= Buffer.rollbackCursor b' /\
      Buffer.rollbackCursor b' <= Buffer.headCursor b'
  end.
Proof.
  intros Hscan Hb Hord. unfold Parsing.parse_block.
  destruct (str_empty _).
  - destruct (scanner fuel "" b) as [r|] eqn:Hr; [|discriminate].
    apply Hscan in Hr; [|exact Hb].
    destruct r as [bx|tok d bx]; simpl in Hr; intros [= <-].
    + subst bx. unfold advanced. simpl. lia.
    + destruct Hr as (_ & Hb' & Hh & Hr). split; [exact Hb'|]. lia.
  - intros [= <-]. split; [exact Hb|]. lia.
Qed.

Lemma DeserializeRequest_advanced (b : Buffer.t) (request : Request.t)
    (o : Server.outcome) :
  Parsing.parse_ready b ->
  Buffer.rollbackCursor b <= Buffer.headCursor b ->
  Server.DeserializeRequest b request = Some o -> advanced b o.
Proof.
  intros Hb Hord. unfold Server.DeserializeRequest, Server.DeserializeRequest_fuel.
  generalize (S (Buffer.size_nat b)). intros fuel.
  change (Server.parse_type fuel b request)
    with (Parsing.parse_block Request.getType Request.setType
            Server.scan_until_space Server.need_type fuel b request).
  destruct (Parsing.parse_block _ _ _ _ fuel b request) as [k1|] eqn:H1;
    [|discriminate].
  apply parse_block_advanced in H1;
    [|exact scan_until_space_post|exact Hb|exact Hord].
  destruct k1 as [o1|b1 r1]; simpl; [now intros [= <-]|].
  destruct H1 as (Hb1 & Hr1 & Hord1).
  change (Server.parse_path fuel b1 r1)
    with (Parsing.parse_block Request.getPath Request.setPath
            Server.scan_until_space Server.need_path fuel b1 r1).
  destruct (Parsing.parse_block _ _ _ _ fuel b1 r1) as [k2|] eqn:H2;
    [|discriminate].
  apply parse_block_advanced in H2;
    [|exact scan_until_space_post|exact Hb1|exact Hord1].
  destruct k2 as [o2|b2 r2]; simpl.
  { intros [= <-]. unfold advanced in *. lia. }
  destruct H2 as (Hb2 & Hr2 & Hord2).
  change (Server.parse_version fuel b2 r2)
    with (Parsing.parse_block Request.getVersion Request.setVersion
            Server.scan_until_newline Server.need_version fuel b2 r2).
  destruct (Parsing.parse_block _ _ _ _ fuel b2 r2) as [k3|] eqn:H3;
    [|discriminate].
  apply parse_block_advanced in H3;
    [|exact scan_until_newline_post|exact Hb2|exact Hord2].
  destruct k3 as [o3|b3 r3]; simpl.
  { intros [= <-]. unfold advanced in *. lia. }
  destruct H3 as (Hb3 & Hr3 & Hord3).
  intros Ho. apply parse_headers_advanced in Ho; [|exact Hb3|exact Hord3].
  unfold advanced in *. lia.
Qed.

(** X3: A call of the parser returns or throws; it leaves the bytes of the
    buffer as they are and both cursors within the string; the commit point
    never moves backwards; and when the call returns, the head cursor is at
    the commit point: nothing read after the last commit stays read. *)
Theorem DeserializeRequest_commits (b : Buffer.t) (request : Request.t) :
  Parsing.parse_ready b ->
  Buffer.rollbackCursor b <= Buffer.headCursor b ->
  exists o, Server.DeserializeRequest b request = Some o /\
    Buffer.buffer (Parsing.outcome_buffer o) = Buffer.buffer b /\
    Buffer.rollbackCursor b
      <= Buffer.rollbackCursor (Parsing.outcome_buffer o)
      <= Buffer.headCursor (Parsing.outcome_buffer o) /\
    Buffer.headCursor (Parsing.outcome_buffer o)
      <= Z.of_nat (Buffer.size_nat b) /\
    (forall e b' request', o = Server.Returned e b' request' ->
       Buffer.headCursor b' = Buffer.rollbackCursor b').
Proof.
  intros Hb Hord.
  destruct (DeserializeRequest_total b request Hb) as (o & Ho & Hbuf & Hb' & Hret).
  exists o. split; [exact Ho|]. split; [exact Hbuf|].
  split; [exact (DeserializeRequest_advanced b request o Hb Hord Ho)|].
  split.
  - destruct Hb' as [_ [_ Hh]]. unfold Buffer.size_nat in *.
    rewrite Hbuf in Hh. lia.
  - intros e b' request' ->. exact Hret.
Qed.

Lemma DeserializeRequest_commits_witness :
  exists o,
    Server.DeserializeRequest (Buffer.mk "GET /index.html HT" 3 3)
      (Request.mk "ET" "" "" ∅) = Some o /\
    Buffer.buffer (Parsing.outcome_buffer o) = "GET /index.html HT" /\
    3 <= Buffer.rollbackCursor (Parsing.outcome_buffer o)
      <= Buffer.headCursor (Parsing.outcome_buffer o) /\
    Buffer.headCursor (Parsing.outcome_buffer o) <= 18 /\
    (forall e b' request', o = Server.Returned e b' request' ->
       Buffer.headCursor b' = Buffer.rollbackCursor b').
Proof.
  apply (DeserializeRequest_commits (Buffer.mk "GET /index.html HT" 3 3)
           (Request.mk "ET" "" "" ∅)).
  - repeat split; vm_compute; congruence.
  - simpl. lia.
Defined.

(** ** What follows the end of the header block is not looked at *)

(** X4: When a call ends at the empty line, or throws, the bytes behind the
    place where it ended played no part: with any bytes appended to the
    buffer beforehand, the call ends in the same way, with the same request
    and the same cursors. *)
Theorem DeserializeRequest_ignores_rest (rest : string) (b : Buffer.t)
    (request : Request.t) (o : Server.outcome) :
  Server.DeserializeRequest b request = Some o ->
  Parsing.outcome_final o ->
  exists o',
    Server.DeserializeRequest (Buffer.append rest b) request = Some o' /\
    Parsing.observe o' = Parsing.observe o /\
    Parsing.outcome_buffer o' = Buffer.append rest (Parsing.outcome_buffer o).
Proof.
  intros Ho Hfinal. unfold Server.DeserializeRequest in *.
  destruct (DeserializeRequest_fuel_append rest (S (Buffer.size_nat b))
              (S (Buffer.size_nat (Buffer.append rest b))) b request o)
    as (o' & Ho' & Hend & Hreq & Hbuf); [|exact Ho|exact Hfinal|].
  { rewrite size_nat_append. lia. }
  exists o'. split; [exact Ho'|]. split; [|exact Hbuf].
  unfold Parsing.observe. now rewrite Hend, Hreq, Hbuf.
Qed.

Lemma DeserializeRequest_ignores_rest_witness :
  exists o',
    Server.DeserializeRequest
      (Buffer.append "name=value"
         (Buffer.mk ("POST /f HTTP/1.1" +:+ CRLF +:+ CRLF) 0 0))
      Request.init = Some o' /\
    Parsing.observe o'
    = (inl Server.header_end, 19, 19, Request.mk "OST" "/f" "HTTP/1.1" ∅) /\
    Parsing.outcome_buffer o'
    = Buffer.mk ("POST /f HTTP/1.1" +:+ CRLF +:+ CRLF +:+ "name=value") 19 19.
Proof.
  apply (DeserializeRequest_ignores_rest "name=value"
           (Buffer.mk ("POST /f HTTP/1.1" +:+ CRLF +:+ CRLF) 0 0) Request.init
           (Server.Returned Server.header_end
              (Buffer.mk ("POST /f HTTP/1.1" +:+ CRLF +:+ CRLF) 19 19)
              (Request.mk "OST" "/f" "HTTP/1.1" ∅))).
  - vm_compute. reflexivity.
  - exact I.
Defined.

(** ** The headers that a call stores *)

Lemma DeserializeRequest_keeps (b : Buffer.t) (request : Request.t)
    (o : Server.outcome) (key : string) :
  Server.DeserializeRequest b request = Some o ->
  is_Some (Request.headers request !! key) ->
  is_Some (Request.headers (Parsing.outcome_request o) !! key).
Proof.
  unfold Server.DeserializeRequest, Server.DeserializeRequest_fuel.
  generalize (S (Buffer.size_nat b)). intros fuel Hd Hk.
  destruct (Server.parse_type fuel b request) as [k1|] eqn:H1; [|discriminate].
  apply (parse_block_headers Request.getType Request.setType) in H1;
    [|reflexivity].
  destruct k1 as [o1|b1 request1]; simpl in Hd; [injection Hd as <-; now rewrite H1|].
  destruct (Server.parse_path fuel b1 request1) as [k2|] eqn:H2; [|discriminate].
  apply (parse_block_headers Request.getPath Request.setPath) in H2;
    [|reflexivity].
  destruct k2 as [o2|b2 request2]; simpl in Hd;
    [injection Hd as <-; now rewrite H2, H1|].
  destruct (Server.parse_version fuel b2 request2) as [k3|] eqn:H3;
    [|discriminate].
  apply (parse_block_headers Request.getVersion Request.setVersion) in H3;
    [|reflexivity].
  destruct k3 as [o3|b3 request3]; simpl in Hd;
    [injection Hd as <-; now rewrite H3, H2, H1|].
  apply (parse_headers_keeps _ _ _ _ _ key Hd). now rewrite H3, H2, H1.
Qed.

(** X5: A call of the parser never removes a header, and it leaves the entry
    of every key as it was, except those of the empty key and of the key
    made of one newline: whatever the header lines say, these two are the
    only keys under which it stores. *)
Theorem DeserializeRequest_stores_under_two_keys (b : Buffer.t)
    (request : Request.t) (o : Server.outcome) (key : string) :
  Server.DeserializeRequest b request = Some o ->
  (is_Some (Request.headers request !! key) ->
   is_Some (Request.headers (Parsing.outcome_request o) !! key)) /\
  (key ≠ "" -> key ≠ String LF "" ->
   Request.headers (Parsing.outcome_request o) !! key
   = Request.headers request !! key).
Proof.
  intros Ho. split.
  - now apply DeserializeRequest_keeps with (b := b).
  - now apply DeserializeRequest_keys with (b := b).
Qed.

Lemma DeserializeRequest_stores_under_two_keys_witness :
  let request := Request.mk "ET" "/" "HTTP/1.1" {[ "Host" := "a" ]} in
  let request' :=
    Request.mk "ET" "/" "HTTP/1.1" {[ "" := "b"; "Host" := "a" ]} in
  (is_Some (Request.headers request !! "Host") ->
   is_Some (Request.headers request' !! "Host")) /\
  ("Host" ≠ "" -> "Host" ≠ String LF "" ->
   Request.headers request' !! "Host" = Request.headers request !! "Host").
Proof.
  exact (DeserializeRequest_stores_under_two_keys
           (Buffer.mk ("GET / HTTP/1.1" +:+ CRLF +:+ "Host: b" +:+ CRLF) 15 15)
           (Request.mk "ET" "/" "HTTP/1.1" {[ "Host" := "a" ]})
           (Server.Returned Server.need_header
              (Buffer.mk ("GET / HTTP/1.1" +:+ CRLF +:+ "Host: b" +:+ CRLF) 24 24)
              (Request.mk "ET" "/" "HTTP/1.1" {[ "" := "b"; "Host" := "a" ]}))
           "Host" eq_refl).
Defined.

(** ** The one exception *)

Lemma parse_headers_thrown (fuel : nat) (identifier : string) (b : Buffer.t)
    (request : Request.t) (what : string) (b' : Buffer.t)
    (request' : Request.t) :
  Parsing.parse_ready b ->
  Server.parse_headers fuel identifier b request
  = Some (Server.Thrown what b' request') ->
  thrown_at what b'.
Proof.
  revert identifier b request.
  induction fuel as [|fuel IH]; intros identifier b request Hb; [discriminate|].
  simpl. destruct (Buffer.next b) as [[c|] b1] eqn:Hn; [|discriminate].
  destruct (next_ready _ _ _ Hb Hn) as (Hb1 & Hbuf & Hrb & Hhd & Hlt).
  destruct (Ascii.eqb c CR); [now apply IH|].
  destruct (Ascii.eqb c LF); [discriminate|].
  destruct (Ascii.eqb_spec c COLON) as [->|_]; [|now apply IH].
  destruct (Buffer.next b1) as [[c2|] b2] eqn:Hn2; [|discriminate].
  destruct (next_ready _ _ _ Hb1 Hn2) as (Hb2 & Hbuf2 & Hrb2 & Hhd2 & Hlt2).
  destruct (Ascii.eqb_spec c2 SP) as [->|Hsp]; simpl.
  - destruct (Server.scan_until_newline fuel "" b2) as [r|] eqn:Hr;
      [|discriminate].
    apply scan_until_newline_post in Hr; [|exact Hb2].
    destruct r as [bx|value c3 b3]; [discriminate|].
    destruct Hr as (_ & Hb3 & _). now apply IH.
  - intros [= <- <- <-].
    destruct Hb as [Ht [Hr Hh]]. destruct Hb1 as [Ht1 [Hr1 Hh1]].
    apply next_Some in Hn as (_ & Hc & ->); [|assumption|lia].
    apply next_Some in Hn2 as (Hlt3 & Hc2 & ->); [|assumption|simpl; lia].
    simpl in *. unfold thrown_at, Buffer.current. simpl.
    destruct Ht as (Hi & _).  unfold Int.range in Hi.
    rewrite to_size_t_nonneg by lia.
    split; [lia|]. split.
    + replace (Buffer.headCursor b + 1 + 1 - 1) with (Buffer.headCursor b + 1)
        by lia. now symmetry.
    + rewrite <- Hc2. split; [exact Hsp|reflexivity].
Qed.

Lemma parse_block_falls (getter : Request.t -> string)
    (setter : string -> Request.t -> Request.t)
    (scanner : nat -> string -> Buffer.t -> option Server.scan)
    (e : Server.parse_exit) (fuel : nat) (b : Buffer.t) (request : Request.t)
    (k : Server.block) :
  (forall fuel identifier b r, Parsing.parse_ready b ->
     scanner fuel identifier b = Some r -> Parsing.scan_post b r) ->
  Parsing.parse_ready b ->
  Parsing.parse_block getter setter scanner e fuel b request = Some k ->
  match k with
  | Server.Return o =>
      exists bx, o = Server.Returned e bx request
  | Server.Fall b' _ => Parsing.parse_ready b'
  end.
Proof.
  intros Hscan Hb. unfold Parsing.parse_block.
  destruct (str_empty _); [|now intros [= <-]].
  destruct (scanner fuel "" b) as [r|] eqn:Hr; [|discriminate].
  apply Hscan in Hr; [|exact Hb].
  destruct r as [bx|tok d bx]; simpl in Hr; intros [= <-]; [eauto|tauto].
Qed.

(** X6: The parser throws in one situation only: when the character behind a
    colon is not a space. The head cursor stays on that character (the
    buffer is not rolled back) and the bytes are as they were; the message
    is the one about the missing space, with the code of that character. *)
Theorem DeserializeRequest_throws_after_colon (b : Buffer.t)
    (request : Request.t) (what : string) (b' : Buffer.t)
    (request' : Request.t) :
  Parsing.parse_ready b ->
  Server.DeserializeRequest b request = Some (Server.Thrown what b' request') ->
  thrown_at what b' /\ Buffer.buffer b' = Buffer.buffer b.
Proof.
  intros Hb Ho. split.
  - revert Ho.
    unfold Server.DeserializeRequest, Server.DeserializeRequest_fuel.
    generalize (S (Buffer.size_nat b)). intros fuel.
    change (Server.parse_type fuel b request)
      with (Parsing.parse_block Request.getType Request.setType
              Server.scan_until_space Server.need_type fuel b request).
    destruct (Parsing.parse_block _ _ _ _ fuel b request) as [k1|] eqn:H1;
      [|discriminate].
    apply parse_block_falls in H1; [|exact scan_until_space_post|exact Hb].
    destruct k1 as [o1|b1 r1]; simpl.
    { destruct H1 as [bx ->]. discriminate. }
    change (Server.parse_path fuel b1 r1)
      with (Parsing.parse_block Request.getPath Request.setPath
              Server.scan_until_space Server.need_path fuel b1 r1).
    destruct (Parsing.parse_block _ _ _ _ fuel b1 r1) as [k2|] eqn:H2;
      [|discriminate].
    apply parse_block_falls in H2; [|exact scan_until_space_post|exact H1].
    destruct k2 as [o2|b2 r2]; simpl.
    { destruct H2 as [bx ->]. discriminate. }
    change (Server.parse_version fuel b2 r2)
      with (Parsing.parse_block Request.getVersion Request.setVersion
              Server.scan_until_newline Server.need_version fuel b2 r2).
    destruct (Parsing.parse_block _ _ _ _ fuel b2 r2) as [k3|] eqn:H3;
      [|discriminate].
    apply parse_block_falls in H3; [|exact scan_until_newline_post|exact H2].
    destruct k3 as [o3|b3 r3]; simpl.
    { destruct H3 as [bx ->]. discriminate. }
    now apply parse_headers_thrown.
  - destruct (DeserializeRequest_total b request Hb) as (o & Ho' & Hbuf & _).
    rewrite Ho in Ho'. injection Ho' as <-. exact Hbuf.
Qed.

Lemma DeserializeRequest_throws_after_colon_witness :
  thrown_at "Expected space (' ') character after colon (':'). Got 98"
    (Buffer.mk ("GET / HTTP/1.1" +:+ CRLF +:+ "a:b" +:+ CRLF) 18 15) /\
  Buffer.buffer (Buffer.mk ("GET / HTTP/1.1" +:+ CRLF +:+ "a:b" +:+ CRLF) 18 15)
  = Buffer.buffer
      (Buffer.assign ("GET / HTTP/1.1" +:+ CRLF +:+ "a:b" +:+ CRLF) Buffer.init).
Proof.
  apply (DeserializeRequest_throws_after_colon
           (Buffer.assign ("GET / HTTP/1.1" +:+ CRLF +:+ "a:b" +:+ CRLF)
              Buffer.init)
           Request.init _ _ (Request.mk "ET" "/" "HTTP/1.1" ∅)).
  - repeat split; vm_compute; congruence.
  - vm_compute. reflexivity.
Defined.

(** ** The request line *)

Lemma at_pos_moved (b : Buffer.t) (pre post : string) (h : Z) :
  Parsing.at_pos (Buffer.mk (Buffer.buffer b) h (Buffer.rollbackCursor b))
    pre post ->
  Parsing.at_pos (Buffer.mk (Buffer.buffer b) h h) pre post.
Proof.
  intros (H1 & H2 & H3 & H4 & H5). simpl in *.
  split; [exact H1|]. split; [exact H2|]. split; [exact H3|].
  split; [|exact H5]. simpl. rewrite app_length in H5.
  unfold Int.range. lia.
Qed.

(** The loop of the type and of the path over a word and the space. *)
Lemma scan_until_space_word (w : string) (fuel : nat) (identifier : string)
    (b : Buffer.t) (pre post : string) :
  Parsing.at_pos b pre (w +:+ String SP post) ->
  Words.without SP w = true ->
  (String.length w + 1 <= fuel)%nat ->
  let h := Buffer.headCursor b + Z.of_nat (String.length w) + 1 in
  let b' := Buffer.mk (Buffer.buffer b) h h in
  Server.scan_until_space fuel identifier b
  = Some (Server.Token (identifier +:+ w) SP b') /\
  Parsing.at_pos b' (pre +:+ w +:+ String SP "") post.
Proof.
  revert fuel identifier b pre.
  induction w as [|x w IH]; intros fuel identifier b pre Hpos Hw Hfuel h b'.
  - rewrite app_nil_l in Hpos. destruct fuel as [|fuel]; [simpl in Hfuel; lia|].
    destruct (next_at_pos b pre _ SP Hpos) as [Hn Hpos1].
    split.
    + simpl. rewrite Hn. simpl. rewrite app_nil_r.
      unfold b', h, Buffer.commit. simpl. do 2 f_equal. f_equal; lia.
    + unfold b', h. simpl String.length.
      replace (Buffer.headCursor b + Z.of_nat 0 + 1)
        with (Buffer.headCursor b + 1) by lia.
      rewrite app_nil_l. apply at_pos_moved. exact Hpos1.
  - rewrite app_cons in Hpos. simpl in Hw.
    apply andb_true_iff in Hw as [Hx Hw]. apply negb_true_iff in Hx.
    destruct fuel as [|fuel]; [simpl in Hfuel; lia|].
    destruct (next_at_pos b pre _ x Hpos) as [Hn Hpos1].
    destruct (IH fuel (push_back identifier x) _ _ Hpos1 Hw) as [Hs Hpos'].
    { simpl in Hfuel. lia. }
    simpl in Hs, Hpos'. split.
    + simpl. rewrite Hn, Hx. rewrite Hs. unfold b', h. f_equal. f_equal.
      * unfold push_back. now rewrite app_assoc.
      * simpl String.length. f_equal; lia.
    + unfold b', h. simpl String.length.
      replace (Buffer.headCursor b + Z.of_nat (S (String.length w)) + 1)
        with (Buffer.headCursor b + 1 + Z.of_nat (String.length w) + 1) by lia.
      unfold push_back in Hpos'. rewrite app_assoc in Hpos'. exact Hpos'.
Qed.

(** The loop of the version over a word and the line end. *)
Lemma scan_until_newline_word (w : string) (fuel : nat) (identifier : string)
    (b : Buffer.t) (pre post : string) :
  Parsing.at_pos b pre (w +:+ CRLF +:+ post) ->
  Words.without CR w = true -> Words.without LF w = true ->
  (String.length w + 2 <= fuel)%nat ->
  let h := Buffer.headCursor b + Z.of_nat (String.length w) + 2 in
  let b' := Buffer.mk (Buffer.buffer b) h h in
  Server.scan_until_newline fuel identifier b
  = Some (Server.Token (identifier +:+ w) LF b') /\
  Parsing.at_pos b' (pre +:+ w +:+ CRLF) post.
Proof.
  revert fuel identifier b pre.
  induction w as [|x w IH]; intros fuel identifier b pre Hpos Hcr Hlf Hfuel h b'.
  - exact (scan_until_newline_fill 0 fuel identifier b pre post Hpos Hfuel).
  - rewrite app_cons in Hpos. simpl in Hcr, Hlf.
    apply andb_true_iff in Hcr as [Hx1 Hcr]. apply negb_true_iff in Hx1.
    apply andb_true_iff in Hlf as [Hx2 Hlf]. apply negb_true_iff in Hx2.
    destruct fuel as [|fuel]; [simpl in Hfuel; lia|].
    destruct (next_at_pos b pre _ x Hpos) as [Hn Hpos1].
    destruct (IH fuel (push_back identifier x) _ _ Hpos1 Hcr Hlf) as [Hs Hpos'].
    { simpl in Hfuel. lia. }
    simpl in Hs, Hpos'. split.
    + simpl. rewrite Hn, Hx1, Hx2. rewrite Hs. unfold b', h. f_equal. f_equal.
      * unfold push_back. now rewrite app_assoc.
      * simpl String.length. f_equal; lia.
    + unfold b', h. simpl String.length.
      replace (Buffer.headCursor b + Z.of_nat (S (String.length w)) + 2)
        with (Buffer.headCursor b + 1 + Z.of_nat (String.length w) + 2) by lia.
      unfold push_back in Hpos'. rewrite app_assoc in Hpos'. exact Hpos'.
Qed.

(** The three blocks of the request line, from a fresh buffer: the header
    loop starts behind the line end with the three parts stored. *)
Lemma DeserializeRequest_fuel_request_line (c : ascii)
    (method path version rest : string) (fuel : nat) :
  let bytes := Words.request_line c method path version rest in
  Words.without SP method = true -> Words.without SP path = true ->
  Words.without CR version = true -> Words.without LF version = true ->
  Z.of_nat (String.length bytes) < 2^31 ->
  (String.length bytes <= fuel)%nat ->
  exists b3,
    Server.DeserializeRequest_fuel fuel (Buffer.assign bytes Buffer.init)
      Request.init
    = Server.parse_headers fuel "" b3 (Request.mk method path version ∅) /\
    Buffer.buffer b3 = bytes /\
    Parsing.at_pos b3
      (String c "" +:+ method +:+ String SP "" +:+ path +:+ String SP ""
         +:+ version +:+ CRLF) rest.
Proof.
  intros bytes Hm Hp Hv1 Hv2 Hlen Hfuel.
  assert (Hsize : String.length bytes
                  = (String.length method + String.length path
                     + String.length version + String.length rest + 5)%nat).
  { unfold bytes, Words.request_line, CRLF. simpl.
    rewrite !app_length. simpl. rewrite !app_length. simpl.
    rewrite !app_length. simpl. lia. }
  unfold Server.DeserializeRequest_fuel.
  set (b := Buffer.assign bytes Buffer.init).
  assert (Hpos0 : Parsing.at_pos b (String c "")
            (method +:+ String SP
               (path +:+ String SP (version +:+ CRLF +:+ rest)))).
  { unfold Parsing.at_pos, b. simpl. unfold Int.range.
    repeat split; try reflexivity; try lia.
    exact Hlen. }
  destruct (scan_until_space_word method fuel "" b _ _ Hpos0 Hm) as [Hs1 Hpos1].
  { lia. }
  unfold Server.parse_type. simpl str_empty. cbv iota. rewrite Hs1.
  cbn [Server.and_then].
  match type of Hpos1 with Parsing.at_pos ?x _ _ => set (b1 := x) in * end.
  destruct (scan_until_space_word path fuel "" b1 _ _ Hpos1 Hp) as [Hs2 Hpos2].
  { lia. }
  unfold Server.parse_path. simpl str_empty. cbv iota. rewrite Hs2.
  cbn [Server.and_then].
  match type of Hpos2 with Parsing.at_pos ?x _ _ => set (b2 := x) in * end.
  destruct (scan_until_newline_word version fuel "" b2 _ _ Hpos2 Hv1 Hv2)
    as [Hs3 Hpos3].
  { lia. }
  unfold Server.parse_version. simpl str_empty. cbv iota. rewrite Hs3.
  cbn [Server.and_then].
  match type of Hpos3 with Parsing.at_pos ?x _ _ => set (b3 := x) in * end.
  exists b3. split; [reflexivity|]. split; [reflexivity|].
  rewrite !app_assoc in Hpos3. exact Hpos3.
Qed.

(** X7: A request line followed by the empty line is parsed in one call into
    its three parts, whatever the first character of the buffer is: the
    method up to the first space, the path up to the next space, the version
    up to the line end. *)
Theorem DeserializeRequest_request_line (c : ascii)
    (method path version : string) :
  let bytes := Words.request_head c method path version in
  let last := Z.of_nat (String.length bytes) - 1 in
  Words.without SP method = true -> Words.without SP path = true ->
  Words.without CR version = true -> Words.without LF version = true ->
  Z.of_nat (String.length bytes) < 2^31 ->
  Server.DeserializeRequest (Buffer.assign bytes Buffer.init) Request.init
  = Some (Server.Returned Server.header_end (Buffer.mk bytes last last)
            (Request.mk method path version ∅)).
Proof.
  intros bytes last Hm Hp Hv1 Hv2 Hlen. subst last bytes.
  unfold Words.request_head in *.
  set (bytes := Words.request_line c method path version CRLF) in *.
  unfold Server.DeserializeRequest.
  change (Buffer.size_nat (Buffer.assign bytes Buffer.init))
    with (String.length bytes).
  destruct (DeserializeRequest_fuel_request_line c method path version CRLF
              (S (String.length bytes)) Hm Hp Hv1 Hv2 Hlen)
    as (b3 & Heq & Hbuf & Hpos3); [fold bytes; lia|].
  fold bytes in Heq, Hbuf. rewrite Heq.
  set (pre3 := String c "" +:+ method +:+ String SP "" +:+ path
                 +:+ String SP "" +:+ version +:+ CRLF) in *.
  assert (Hsize : String.length bytes = (String.length pre3 + 2)%nat).
  { unfold bytes, pre3, Words.request_line, CRLF. simpl.
    rewrite !app_length. simpl. rewrite !app_length. simpl.
    rewrite !app_length. simpl. lia. }
  change CRLF with (String CR (String LF "")) in Hpos3.
  destruct (next_at_pos _ _ _ _ Hpos3) as [Hn4 Hpos4].
  destruct (next_at_pos _ _ _ _ Hpos4) as [Hn5 Hpos5].
  assert (Hf : S (String.length bytes) = S (S (String.length bytes - 1)))
    by lia.
  rewrite Hf.
  rewrite (parse_headers_cr _ _ _ _ _ Hn4).
  rewrite (parse_headers_lf _ _ _ _ _ Hn5).
  unfold Buffer.commit.
  cbn [Buffer.buffer Buffer.headCursor Buffer.rollbackCursor]. rewrite Hbuf.
  destruct Hpos3 as (_ & Hh & _). rewrite Hh, Hsize.
  do 2 f_equal. f_equal; lia.
Qed.

Lemma DeserializeRequest_request_line_witness :
  Server.DeserializeRequest
    (Buffer.assign ("GET /ping HTTP/1.1" +:+ CRLF +:+ CRLF) Buffer.init)
    Request.init
  = Some (Server.Returned Server.header_end
            (Buffer.mk ("GET /ping HTTP/1.1" +:+ CRLF +:+ CRLF) 21 21)
            (Request.mk "ET" "/ping" "HTTP/1.1" ∅)).
Proof.
  apply (DeserializeRequest_request_line "G" "ET" "/ping" "HTTP/1.1");
    try reflexivity.
Defined.

(** ** One header line *)

(** The header loop over the characters of a key. *)
Lemma parse_headers_key (key : string) (fuel : nat) (identifier : string)
    (b : Buffer.t) (pre post : string) (request : Request.t) :
  Parsing.at_pos b pre (key +:+ post) ->
  Words.key_like key = true ->
  let b' := Buffer.mk (Buffer.buffer b)
              (Buffer.headCursor b + Z.of_nat (String.length key))
              (Buffer.rollbackCursor b) in
  Server.parse_headers (String.length key + fuel) identifier b request
  = Server.parse_headers fuel identifier b' request /\
  Parsing.at_pos b' (pre +:+ key) post.
Proof.
  revert b pre. induction key as [|x key IH]; intros b pre Hpos Hkey b'.
  - simpl. unfold b'. simpl. rewrite Z.add_0_r, app_nil_r.
    rewrite app_nil_l in Hpos. destruct b. simpl. auto.
  - rewrite app_cons in Hpos. unfold Words.key_like in Hkey. simpl in Hkey.
    apply andb_true_iff in Hkey as [Hkey Hlf].
    apply andb_true_iff in Hkey as [Hcolon Hcr].
    apply andb_true_iff in Hcolon as [Hx1 Hcolon]. apply negb_true_iff in Hx1.
    apply andb_true_iff in Hcr as [Hx2 Hcr]. apply negb_true_iff in Hx2.
    apply andb_true_iff in Hlf as [Hx3 Hlf]. apply negb_true_iff in Hx3.
    destruct (next_at_pos b pre _ x Hpos) as [Hn Hpos1].
    destruct (IH _ _ Hpos1) as [Hs Hpos'].
    { unfold Words.key_like. now rewrite Hcolon, Hcr, Hlf. }
    simpl in Hs, Hpos'. split.
    + change (String.length (String x key) + fuel)%nat
        with (S (String.length key + fuel)).
      rewrite (parse_headers_skip _ _ _ _ _ _ Hn Hx2 Hx3 Hx1). rewrite Hs.
      unfold b'. simpl String.length. do 2 f_equal. lia.
    + unfold b'. simpl String.length.
      replace (Buffer.headCursor b + Z.of_nat (S (String.length key)))
        with (Buffer.headCursor b + 1 + Z.of_nat (String.length key)) by lia.
      unfold push_back in Hpos'. rewrite app_assoc in Hpos'. exact Hpos'.
Qed.

(** X8: A request with one header line [key: value]: the value is stored, but
    under the empty key, whatever the key of the line is. The characters of
    the key are read and dropped. *)
Theorem DeserializeRequest_one_header (c : ascii)
    (method path version key value : string) :
  let bytes :=
    Words.request_line c method path version
      (key +:+ String COLON (String SP (value +:+ CRLF +:+ CRLF))) in
  let last := Z.of_nat (String.length bytes) - 1 in
  Words.without SP method = true -> Words.without SP path = true ->
  Words.without CR version = true -> Words.without LF version = true ->
  Words.key_like key = true ->
  Words.without CR value = true -> Words.without LF value = true ->
  Z.of_nat (String.length bytes) < 2^31 ->
  Server.DeserializeRequest (Buffer.assign bytes Buffer.init) Request.init
  = Some (Server.Returned Server.header_end (Buffer.mk bytes last last)
            (Request.mk method path version {[ "" := value ]})).
Proof.
  intros bytes last Hm Hp Hv1 Hv2 Hkey Hval1 Hval2 Hlen. subst last.
  unfold Server.DeserializeRequest.
  change (Buffer.size_nat (Buffer.assign bytes Buffer.init))
    with (String.length bytes).
  destruct (DeserializeRequest_fuel_request_line c method path version
              (key +:+ String COLON (String SP (value +:+ CRLF +:+ CRLF)))
              (S (String.length bytes)) Hm Hp Hv1 Hv2 Hlen)
    as (b3 & Heq & Hbuf & Hpos3); [fold bytes; lia|].
  fold bytes in Heq, Hbuf. rewrite Heq.
  set (pre3 := String c "" +:+ method +:+ String SP "" +:+ path
                 +:+ String SP "" +:+ version +:+ CRLF) in *.
  assert (Hsize : String.length bytes
                  = (String.length pre3 + String.length key
                     + String.length value + 6)%nat).
  { unfold bytes, pre3, Words.request_line, CRLF. simpl.
    rewrite !app_length. simpl. rewrite !app_length. simpl.
    rewrite !app_length. simpl. rewrite !app_length. simpl. lia. }
  set (fuel := (String.length value + 4 + String.length pre3)%nat).
  assert (Hf : S (String.length bytes)
               = (String.length key + S (S (S fuel)))%nat)
    by (unfold fuel; lia).
  rewrite Hf.
  destruct (parse_headers_key key (S (S (S fuel))) ""
              b3 _ _ (Request.mk method path version ∅) Hpos3 Hkey)
    as [Hk Hpos4].
  rewrite Hk.
  destruct (next_at_pos _ _ _ _ Hpos4) as [Hn5 Hpos5].
  destruct (next_at_pos _ _ _ _ Hpos5) as [Hn6 Hpos6].
  destruct (scan_until_newline_word value (S (S fuel)) ""
              _ _ _ Hpos6 Hval1 Hval2) as [Hscan Hpos7]; [unfold fuel; lia|].
  change CRLF with (String CR (String LF "")) in Hpos7 at 2.
  destruct (next_at_pos _ _ _ _ Hpos7) as [Hn8 Hpos8].
  destruct (next_at_pos _ _ _ _ Hpos8) as [Hn9 Hpos9].
  rewrite (parse_headers_colon _ _ _ _ _ _ _ _ _ Hn5 Hn6 Hscan).
  rewrite (parse_headers_cr _ _ _ _ _ Hn8).
  rewrite (parse_headers_lf _ _ _ _ _ Hn9).
  unfold Buffer.commit, Request.setHeader.
  cbn [Buffer.buffer Buffer.headCursor Buffer.rollbackCursor Request.type
       Request.path Request.version Request.headers].
  rewrite Hbuf, app_nil_l.
  destruct Hpos3 as (_ & Hh & _). rewrite Hh, Hsize.
  do 2 f_equal. f_equal; lia.
Qed.

Lemma DeserializeRequest_one_header_witness :
  Server.DeserializeRequest
    (Buffer.assign
       ("GET /ping HTTP/1.1" +:+ CRLF +:+ "Host: example.org" +:+ CRLF +:+ CRLF)
       Buffer.init)
    Request.init
  = Some (Server.Returned Server.header_end
            (Buffer.mk
               ("GET /ping HTTP/1.1" +:+ CRLF +:+ "Host: example.org" +:+ CRLF
                  +:+ CRLF) 40 40)
            (Request.mk "ET" "/ping" "HTTP/1.1" {[ "" := "example.org" ]})).
Proof.
  apply (DeserializeRequest_one_header "G" "ET" "/ping" "HTTP/1.1" "Host"
           "example.org"); try reflexivity.
Defined.

(** ** What [ProcessRequest] hands to the parser *)

Lemma c_str_NUL (seen hidden : string) :
  c_str (seen +:+ String NUL hidden) = c_str seen.
Proof.
  induction seen as [|c seen IH]; [reflexivity|].
  rewrite app_cons. simpl. destruct (Ascii.eqb c NUL); [reflexivity|].
  now rewrite IH.
Qed.

(** X9: Of a received segment the parser gets the bytes before the first NUL
    byte only: [state.reqBuffer += buffer] takes the array as a C string,
    so a NUL byte and all that follows it in the segment are dropped. *)
Theorem ProcessRequest_drops_after_NUL (seen hidden : string)
    (socket : list Server.recv_result) (state : ConnectionState) :
  Server.ProcessRequest
    (Server.recv_bytes (seen +:+ String NUL hidden) :: socket) state
  = Server.ProcessRequest (Server.recv_bytes seen :: socket) state.
Proof.
  rewrite !ProcessRequest_unfold. unfold Buffer.append_cstr.
  now rewrite c_str_NUL.
Qed.

(** ** The header limit and unfinished tokens *)

Lemma c_str_without (s : string) : Words.without NUL s = true -> c_str s = s.
Proof.
  induction s as [|c s IH]; [reflexivity|]. simpl.
  intros H. apply andb_true_iff in H as [Hc Hs]. apply negb_true_iff in Hc.
  rewrite Hc. now rewrite IH.
Qed.

Lemma without_app (c : ascii) (s t : string) :
  Words.without c (s +:+ t) = Words.without c s && Words.without c t.
Proof.
  induction s as [|x s IH]; [reflexivity|]. rewrite app_cons. simpl.
  rewrite IH. now rewrite andb_assoc.
Qed.

Lemma without_get (c : ascii) (s : string) (i : nat) (x : ascii) :
  Words.without c s = true -> String.get i s = Some x -> x ≠ c.
Proof.
  revert i. induction s as [|y s IH]; intros i Hw; [discriminate|].
  simpl in Hw. apply andb_true_iff in Hw as [Hy Hs].
  destruct i as [|i]; simpl.
  - intros [= <-]. apply negb_true_iff in Hy. now apply Ascii.eqb_neq.
  - now apply IH.
Qed.

(** The loop of the type over a string without a space: it runs dry. *)
Lemma scan_until_space_dry (fuel : nat) (identifier : string) (b : Buffer.t) :
  Parsing.parse_ready b ->
  Words.without SP (Buffer.buffer b) = true ->
  Z.of_nat (Buffer.size_nat b) - Buffer.headCursor b < Z.of_nat fuel ->
  Server.scan_until_space fuel identifier b
  = Some (Server.Exhausted (Buffer.rollback b)).
Proof.
  revert identifier b.
  induction fuel as [|fuel IH]; intros identifier b Hb Hw Hf.
  - destruct Hb as [_ [_ Hh]]. lia.
  - simpl. destruct (Buffer.next b) as [[c|] b1] eqn:Hn.
    + destruct (next_ready _ _ _ Hb Hn) as (Hb1 & Hbuf & Hrb & Hhd & Hlt).
      assert (Hc : c ≠ SP).
      { destruct Hb as [Ht [_ Hh]].
        apply next_Some in Hn as (Hlt' & Hc & _); [|assumption|lia].
        subst c. unfold char_at.
        destruct (String.get _ _) as [x|] eqn:Hg.
        - now apply (without_get SP _ _ _ Hw Hg).
        - discriminate. }
      apply Ascii.eqb_neq in Hc. rewrite Hc.
      rewrite IH; [| exact Hb1 | now rewrite Hbuf |].
      * do 2 f_equal. unfold Buffer.rollback. now rewrite Hbuf, Hrb.
      * unfold Buffer.size_nat in *. rewrite Hbuf. lia.
    + apply next_None in Hn as ->. reflexivity.
Qed.

Lemma DeserializeRequest_dry (s : string) :
  Words.without SP s = true -> Z.of_nat (String.length s) < 2^63 ->
  Server.DeserializeRequest (Buffer.mk s 0 0) Request.init
  = Some (Server.Returned Server.need_type (Buffer.mk s 0 0) Request.init).
Proof.
  intros Hw Hs. unfold Server.DeserializeRequest, Server.DeserializeRequest_fuel.
  unfold Server.parse_type. simpl str_empty. cbv iota.
  rewrite scan_until_space_dry; [reflexivity| |exact Hw|].
  - unfold Parsing.parse_ready, Buffer.typed, Buffer.cursors_bounded,
      Buffer.size_nat, Int.range. simpl. lia.
  - unfold Buffer.size_nat. simpl. lia.
Qed.

Lemma ProcessRequest_buffers (chunks : list string) (s : string) (sock : Z) :
  forallb (fun chunk => Words.without SP chunk && Words.without NUL chunk)
    chunks = true ->
  Words.without SP s = true ->
  Z.of_nat (String.length (s +:+ Parsing.whole chunks)) < 2^63 ->
  Server.ProcessRequest (Server.recv_bytes <$> chunks)
    (mkConnectionState sock REQ (Buffer.mk s 0 0) Buffer.init Request.init
       Response.init)
  = Some (true,
          mkConnectionState sock REQ (Buffer.mk (s +:+ Parsing.whole chunks) 0 0)
            Buffer.init Request.init Response.init).
Proof.
  revert s. induction chunks as [|chunk chunks IH]; intros s Hc Hs Hlen.
  - simpl. now rewrite app_nil_r.
  - simpl in Hc. apply andb_true_iff in Hc as [Hchunk Hc].
    apply andb_true_iff in Hchunk as [Hsp Hnul].
    rewrite fmap_cons, ProcessRequest_unfold.
    unfold Buffer.append_cstr. rewrite (c_str_without _ Hnul).
    cbn [reqBuffer request]. unfold Buffer.append. cbn [Buffer.buffer
      Buffer.headCursor Buffer.rollbackCursor].
    assert (Hw : Words.without SP (s +:+ chunk) = true).
    { rewrite without_app, Hs, Hsp. reflexivity. }
    change (Parsing.whole (chunk :: chunks))
      with (chunk +:+ Parsing.whole chunks) in Hlen.
    rewrite <- app_assoc in Hlen.
    rewrite DeserializeRequest_dry; [|exact Hw|].
    + change (Buffer.sizeBeforeCursor (Buffer.mk (s +:+ chunk) 0 0)
                >? Server.maxHeaderSize) with false. cbv iota.
      unfold Server.with_parse. cbn [fd stage resBuffer response].
      rewrite IH; [|exact Hc|exact Hw|exact Hlen].
      change (Parsing.whole (chunk :: chunks))
        with (chunk +:+ Parsing.whole chunks).
      now rewrite app_assoc.
    + rewrite app_length in Hlen. lia.
Qed.

(** X10: The header limit does not bound what is buffered. While the request
    line has no space yet, every call of the parser rolls the cursor back to
    0, and [sizeBeforeCursor()] is what the limit is compared with: however
    many bytes without a space (and without a NUL) arrive, all of them are
    kept in the request buffer, the connection stays in stage REQ and no
    400 response is prepared. *)
Theorem ProcessRequest_buffers_without_limit (chunks : list string) (fd : Z) :
  forallb (fun chunk => Words.without SP chunk && Words.without NUL chunk)
    chunks = true ->
  Z.of_nat (String.length (Parsing.whole chunks)) < 2^31 ->
  Server.ProcessRequest (Server.recv_bytes <$> chunks) (fresh_connection fd REQ)
  = Some (true,
          mkConnectionState fd REQ (Buffer.mk (Parsing.whole chunks) 0 0)
            Buffer.init Request.init Response.init).
Proof.
  intros Hc Hlen.
  apply (ProcessRequest_buffers chunks "" fd Hc eq_refl).
  rewrite app_nil_l. lia.
Qed.

Lemma ProcessRequest_buffers_without_limit_witness :
  Server.ProcessRequest
    [Server.recv_bytes (fill 40 "A"); Server.recv_bytes (fill 40 "B")]
    (fresh_connection 5 REQ)
  = Some (true,
          mkConnectionState 5 REQ
            (Buffer.mk (fill 40 "A" +:+ fill 40 "B") 0 0)
            Buffer.init Request.init Response.init).
Proof.
  apply (ProcessRequest_buffers_without_limit [fill 40 "A"; fill 40 "B"] 5).
  - reflexivity.
  - vm_compute. reflexivity.
Defined.

(** ** The body and its declared length *)

Lemma apply_length_declared (o : Response.op) (r : Response.t) :
  Response.keeps_length o = true ->
  Response.length_declared r -> Response.length_declared (Response.apply o r).
Proof.
  intros Ho Hr.
  assert (Hkeep : forall key value,
    key ≠ "Content-Length" ->
    Response.length_declared (Response.setHeader key value r)).
  { intros key value Hkey. unfold Response.length_declared, Response.getHeader,
      Response.setHeader in *. simpl. now rewrite lookup_insert_ne. }
  assert (Hset : forall newbody,
    Response.length_declared (Response.setBody newbody r)).
  { intros newbody. left. unfold Response.getHeader, Response.setBody. simpl.
    now rewrite lookup_insert_eq. }
  destruct o; simpl in *.
  - exact Hr.
  - exact Hr.
  - now apply Hkeep.
  - now apply Hkeep.
  - apply Hkeep. apply negb_true_iff in Ho. now apply String.eqb_neq.
  - apply Hset.
  - apply Hset.
Qed.

(** X11: Whatever the setters are called with and in whatever order, the
    header [Content-Length] of a response gives the length of its body (or
    the response has neither), as long as that header is not written by
    hand through [setHeader]. *)
Theorem Response_length_declared (ops : list Response.op) (r : Response.t) :
  forallb Response.keeps_length ops = true ->
  Response.length_declared r ->
  Response.length_declared (Response.run ops r).
Proof.
  revert r. induction ops as [|o ops IH]; intros r Hops Hr; [exact Hr|].
  simpl in Hops. apply andb_true_iff in Hops as [Ho Hops].
  apply (IH _ Hops). now apply apply_length_declared.
Qed.

Lemma Response_length_declared_witness :
  Response.length_declared
    (Response.run
       [Response.op_setStatusCode 404; Response.op_setBody "not";
        Response.op_setContentType "text/plain";
        Response.op_setHeader "Server" "simplehttp";
        Response.op_appendBody " found"; Response.op_setDate 0]
       Response.init).
Proof.
  apply Response_length_declared.
  - reflexivity.
  - right. split; reflexivity.
Defined.

(** ** The zone of a date *)

Lemma get_time_any_zone (date : Ctime.tm) (zone : string) :
  0 <= Ctime.tm_sec date <= 59 -> 0 <= Ctime.tm_min date <= 59 ->
  0 <= Ctime.tm_hour date <= 23 -> 1 <= Ctime.tm_mday date <= 31 ->
  0 <= Ctime.tm_mon date <= 11 -> 0 <= Ctime.tm_wday date <= 6 ->
  1000 <= Ctime.tm_year date + 1900 <= 9999 ->
  Ctime.get_time "%a, %d %b %Y %H:%M:%S"
    (Ctime.put_time date "%a, %d %b %Y %H:%M:%S" +:+ zone) Ctime.tm_zero
  = Some (Ctime.mk_tm (Ctime.tm_sec date) (Ctime.tm_min date)
            (Ctime.tm_hour date) (Ctime.tm_mday date) (Ctime.tm_mon date)
            (Ctime.tm_year date) (Ctime.tm_wday date) 0 0).
Proof.
  intros Hsec Hmin Hhour Hmday Hmon Hwday Hyear.
  assert (Hput : Ctime.put_time date "%a, %d %b %Y %H:%M:%S" +:+ zone
    = default "?" (Ctime.wday_names !! Z.to_nat (Ctime.tm_wday date))
      +:+ String "," (String " "
        (Ctime.two_digits (Ctime.tm_mday date) +:+ String " "
          (default "?" (Ctime.mon_names !! Z.to_nat (Ctime.tm_mon date))
           +:+ String " "
             (to_string (Ctime.tm_year date + 1900) +:+ String " "
               (Ctime.two_digits (Ctime.tm_hour date) +:+ String ":"
                 (Ctime.two_digits (Ctime.tm_min date) +:+ String ":"
                   (Ctime.two_digits (Ctime.tm_sec date) +:+ zone)))))))).
  { cbn [Ctime.put_time Ctime.put_field].
    repeat (rewrite app_assoc || rewrite app_cons). now rewrite app_nil_l. }
  rewrite Hput.
  tm_fields. rewrite (get_time_conv _ _ _ _ _ _ (get_field_wday _ _ _ Hwday)).
  rewrite get_time_comma, get_time_space, skip_spaces_digits by lia.
  tm_fields. rewrite (get_time_conv _ _ _ _ _ _ (get_field_mday _ _ _ Hmday)).
  rewrite get_time_space, (proj2 (get_name_mon _ _ Hmon)).
  tm_fields. rewrite (get_time_conv _ _ _ _ _ _ (get_field_mon _ _ _ Hmon)).
  rewrite get_time_space, skip_spaces_year by assumption.
  tm_fields. rewrite (get_time_conv _ _ _ _ _ _ (get_field_year _ _ _ Hyear)).
  rewrite get_time_space, skip_spaces_digits by lia.
  tm_fields. rewrite (get_time_conv _ _ _ _ _ _ (get_field_hour _ _ _ Hhour)).
  rewrite get_time_colon.
  tm_fields. rewrite (get_time_conv _ _ _ _ _ _ (get_field_min _ _ _ Hmin)).
  rewrite get_time_colon.
  tm_fields. rewrite (get_time_conv _ _ _ _ _ _ (get_field_sec _ _ _ Hsec)).
  cbn [Ctime.get_time]. tm_fields. do 2 f_equal. lia.
Qed.

(** X12: [getDate] does not look at what follows the seconds in the [Date]
    header: the date and time of the second [s] (of a year with four
    digits), followed by any zone designator or none, is read as that
    date and time in the local zone of the process. The time read is one
    that a [time_point] can hold: its count of nanoseconds fits 64 bits. *)
Theorem getDate_ignores_zone (s utc_offset : Z) (zone : string)
    (r : Response.t) :
  -30610224000 <= s < 253402300800 ->
  - 2^63 <= Ctime.from_time_t (s - utc_offset) < 2^63 ->
  Response.getDate utc_offset
    (Response.setHeader "Date"
       (Ctime.put_time (Ctime.gmtime s) "%a, %d %b %Y %H:%M:%S" +:+ zone) r)
  = Some (Ctime.from_time_t (s - utc_offset)).
Proof.
  intros Hs _.
  pose proof (gmtime_year _ Hs) as Hyear.
  pose proof (gmtime_ranges s) as Hr.
  pose proof (timegm_gmtime s) as Hg.
  revert Hyear Hr Hg.
  unfold Response.getDate, Response.setHeader.
  generalize (Ctime.gmtime s). intros date Hyear Hr Hg.
  cbv zeta in Hr. destruct Hr as (Hsec & Hmin & Hhour & Hmday & Hmon & Hwday).
  cbn [Response.headers]. rewrite lookup_insert_eq.
  rewrite get_time_any_zone by assumption.
  unfold Ctime.mktime. rewrite <- Hg. reflexivity.
Qed.

Lemma getDate_ignores_zone_witness :
  Response.getDate (-28800)
    (Response.setHeader "Date"
       (Ctime.put_time (Ctime.gmtime 86400) "%a, %d %b %Y %H:%M:%S"
          +:+ " PST") Response.init)
  = Some (Ctime.from_time_t (86400 - -28800)).
Proof.
  apply (getDate_ignores_zone 86400 (-28800) " PST" Response.init).
  - lia.
  - unfold Ctime.from_time_t. lia.
Defined.

(** ** [SerializeResponse] *)

Lemma foldl_append_header (headers : list (string * string)) (b : Buffer.t) :
  foldl Server.append_header b headers
  = Buffer.append (Sending.header_block headers) b.
Proof.
  revert b. induction headers as [|header headers IH]; intros b; simpl.
  - unfold Buffer.append. rewrite app_nil_r. now destruct b.
  - rewrite IH. unfold Server.append_header.
    destruct (str_empty header.2); [reflexivity|].
    now rewrite append_append.
Qed.

Lemma SerializeResponse_shape
    (enumerate : gmap string string -> list (string * string))
    (response : Response.t) (buffer : Buffer.t) :
  Server.SerializeResponse enumerate response buffer
  = Buffer.mk
      (Server.status_line response
         +:+ Sending.header_block (enumerate (Response.getHeaders response))
         +:+ CRLF +:+ Response.getBody response) 0 0.
Proof.
  unfold Server.SerializeResponse. rewrite foldl_append_header.
  unfold Buffer.append, Buffer.assign. simpl. now rewrite !app_assoc.
Qed.

Lemma header_block_app (l1 l2 : list (string * string)) :
  Sending.header_block (l1 ++ l2)
  = Sending.header_block l1 +:+ Sending.header_block l2.
Proof.
  induction l1 as [|h l1 IH]; [reflexivity|]. simpl. rewrite IH.
  destruct (str_empty h.2); [reflexivity|]. now rewrite app_assoc.
Qed.

Lemma to_digits_not_empty (fuel : nat) (n : Z) (c : ascii) (acc : string) :
  str_empty (to_digits fuel n (String c acc)) = false.
Proof.
  revert n c acc. induction fuel as [|fuel IH]; intros n c acc; [reflexivity|].
  rewrite to_digits_step. destruct (n / 10 =? 0); [reflexivity|apply IH].
Qed.

Lemma to_string_not_empty (z : Z) : str_empty (to_string z) = false.
Proof.
  unfold to_string. destruct (z <? 0); [reflexivity|].
  change 20%nat with (S 19). rewrite to_digits_step.
  destruct (z / 10 =? 0); [reflexivity|apply to_digits_not_empty].
Qed.

(** X13: What [SerializeResponse] writes for a response whose header
    [Content-Length] gives the length of its body: the status line, header
    lines among which the line of [Content-Length] with that length, the
    empty line, and the body; both cursors are at 0. This holds in whatever
    order the map enumerates the headers. *)
Theorem SerializeResponse_declares_length
    (enumerate : gmap string string -> list (string * string))
    (response : Response.t) (buffer : Buffer.t) :
  (forall m, enumerate m ≡ₚ map_to_list m) ->
  Response.getHeader "Content-Length" response
  = Some (to_string (Z.of_nat (String.length (Response.body response)))) ->
  exists before after,
    Server.SerializeResponse enumerate response buffer
    = Buffer.mk
        (Server.status_line response +:+ before
           +:+ "Content-Length: "
           +:+ to_string (Z.of_nat (String.length (Response.body response)))
           +:+ CRLF +:+ after +:+ CRLF +:+ Response.body response) 0 0.
Proof.
  intros Henum Hlen. rewrite SerializeResponse_shape.
  set (value := to_string (Z.of_nat (String.length (Response.body response)))) in *.
  assert (Hin : ("Content-Length", value)
                  ∈ enumerate (Response.getHeaders response)).
  { rewrite Henum. now apply elem_of_map_to_list. }
  apply list_elem_of_split in Hin as (l1 & l2 & Hsplit); rewrite Hsplit.
  exists (Sending.header_block l1), (Sending.header_block l2).
  rewrite header_block_app. simpl.
  unfold value at 1. rewrite to_string_not_empty.
  unfold Server.header_line. simpl. fold value.
  unfold Response.getBody. f_equal.
  now rewrite !app_assoc.
Qed.

Lemma SerializeResponse_declares_length_witness :
  exists before after,
    Server.SerializeResponse map_to_list
      (Response.setBody "hello" Response.init) Buffer.init
    = Buffer.mk
        (Server.status_line (Response.setBody "hello" Response.init)
           +:+ before +:+ "Content-Length: "
           +:+ to_string
                 (Z.of_nat (String.length
                    (Response.body (Response.setBody "hello" Response.init))))
           +:+ CRLF +:+ after +:+ CRLF
           +:+ Response.body (Response.setBody "hello" Response.init)) 0 0.
Proof.
  apply (SerializeResponse_declares_length map_to_list
           (Response.setBody "hello" Response.init) Buffer.init).
  - intros m. reflexivity.
  - reflexivity.
Defined.

(** ** [ProcessResponse] *)

Lemma increment_ready (n : Z) (b : Buffer.t) :
  Sending.ready b ->
  let b' := (Buffer.increment n b).2 in
  Sending.ready b' /\ Buffer.buffer b' = Buffer.buffer b /\
  Buffer.rollbackCursor b' = Buffer.rollbackCursor b.
Proof.
  intros [Hh Hs]. unfold Buffer.increment.
  destruct (_ && _) eqn:Hc; simpl; [|now repeat split].
  apply andb_true_iff in Hc as [Hlt Hpos]. apply Z.leb_le in Hpos.
  unfold Int.lt_size in Hlt. apply Z.ltb_lt in Hlt.
  pose proof (wrap_range (Buffer.headCursor b + n)) as Hw.
  unfold Int.add in *. unfold Int.range in Hw.
  rewrite to_size_t_nonneg in Hlt by lia.
  unfold Sending.ready, Buffer.size_nat in *. simpl. repeat split; lia.
Qed.

Lemma ready_sizeAfterCursor (b : Buffer.t) :
  Sending.ready b -> (Buffer.sizeAfterCursor b <? 1) = false.
Proof.
  intros [Hh Hs]. apply Z.ltb_ge. unfold Buffer.sizeAfterCursor.
  rewrite wrap_id; unfold Int.range; lia.
Qed.

Lemma send_loop_still_sending (socket : list Server.send_result)
    (state : ConnectionState) (wire : list string) :
  Sending.ready (resBuffer state) ->
  still_sending (resBuffer state) state (Server.send_loop socket state wire).
Proof.
  revert state wire.
  induction socket as [|[n| |] socket IH]; intros state wire Hb.
  - unfold still_sending. simpl. tauto.
  - cbn [Server.send_loop].
    destruct (increment_ready (Z.of_nat n) _ Hb) as (Hb' & Hbuf & _).
    unfold Server.with_resBuffer at 1. cbn [resBuffer].
    rewrite (ready_sizeAfterCursor _ Hb').
    specialize (IH (Server.with_resBuffer
                      (Buffer.increment (Z.of_nat n) (resBuffer state)).2 state)
                  (wire ++ [str_take n (Buffer.cstrAfterCursor (resBuffer state))])
                  Hb').
    unfold still_sending in *. simpl in IH. rewrite Hbuf in IH. exact IH.
  - unfold still_sending. simpl. tauto.
  - unfold still_sending. simpl. tauto.
Qed.

Lemma ProcessResponse_send_loop
    (enumerate : gmap string string -> list (string * string)) (now : Z)
    (socket : list Server.send_result) (state : ConnectionState) :
  exists response',
    Server.ProcessResponse enumerate now socket state
    = Server.send_loop socket
        (mkConnectionState (fd state) (stage state) (reqBuffer state)
           (Sending.response_buffer enumerate now state) (request state)
           response') [].
Proof.
  unfold Server.ProcessResponse, Sending.response_buffer.
  destruct (Buffer.empty (resBuffer state)).
  - eexists. reflexivity.
  - exists (response state). now destruct state.
Qed.

(** X14: [ProcessResponse] never finishes a response. [increment(n)] refuses to
    put the head cursor behind the last character, so [sizeAfterCursor()]
    never falls below 1: whatever the socket takes, the call ends because
    the socket would block (it returns [true]) or has failed (it returns
    [false]). It never closes the connection for [Connection: close] and
    never resets it to stage REQ; stage and request stay as they are and the
    response buffer keeps its bytes, with the head cursor on one of them. *)
Theorem ProcessResponse_never_finishes
    (enumerate : gmap string string -> list (string * string)) (now : Z)
    (socket : list Server.send_result) (state : ConnectionState) :
  Sending.ready (Sending.response_buffer enumerate now state) ->
  still_sending (Sending.response_buffer enumerate now state) state
    (Server.ProcessResponse enumerate now socket state).
Proof.
  intros Hb.
  destruct (ProcessResponse_send_loop enumerate now socket state)
    as [response' ->].
  exact (send_loop_still_sending socket
           (mkConnectionState (fd state) (stage state) (reqBuffer state)
              (Sending.response_buffer enumerate now state) (request state)
              response') [] Hb).
Qed.

Lemma ProcessResponse_never_finishes_witness :
  let state :=
    mkConnectionState 5 RES Buffer.init Buffer.init Request.init
      (Response.setBody "hello" Response.init) in
  still_sending (Sending.response_buffer map_to_list 0 state) state
    (Server.ProcessResponse map_to_list 0
       [Server.send_sent 40; Server.send_sent 200; Server.send_sent 1] state).
Proof.
  apply (ProcessResponse_never_finishes map_to_list 0
           [Server.send_sent 40; Server.send_sent 200; Server.send_sent 1]
           (mkConnectionState 5 RES Buffer.init Buffer.init Request.init
              (Response.setBody "hello" Response.init))).
  split; vm_compute; [split|]; congruence || reflexivity.
Defined.

(** ** What [ProcessResponse] puts on the wire *)

Lemma str_drop_length (n : nat) (s : string) :
  String.length (str_drop n s) = (String.length s - n)%nat.
Proof.
  revert s. induction n as [|n IH]; intros [|c s]; simpl; auto with lia.
Qed.

Lemma str_take_all (s : string) : str_take (String.length s) s = s.
Proof. induction s as [|c s IH]; simpl; [reflexivity|now rewrite IH]. Qed.

Lemma str_drop_drop (n m : nat) (s : string) :
  str_drop m (str_drop n s) = str_drop (n + m) s.
Proof.
  revert s. induction n as [|n IH]; intros [|c s]; simpl; auto.
  now destruct m.
Qed.

Lemma str_take_take (n m : nat) (s : string) :
  str_take n s +:+ str_take m (str_drop n s) = str_take (n + m) s.
Proof.
  revert s. induction n as [|n IH]; intros [|c s]; simpl; auto.
  - now destruct m.
  - rewrite app_cons. now rewrite IH.
Qed.

Lemma whole_snoc (pieces : list string) (piece : string) :
  Parsing.whole (pieces ++ [piece]) = Parsing.whole pieces +:+ piece.
Proof.
  induction pieces as [|p pieces IH]; simpl.
  - apply app_nil_r.
  - unfold Parsing.whole in *. simpl. rewrite IH. now rewrite app_assoc.
Qed.

Lemma cstrAfterCursor_ready (b : Buffer.t) :
  Sending.ready b ->
  Buffer.cstrAfterCursor b
  = str_drop (Z.to_nat (Buffer.headCursor b)) (Buffer.buffer b).
Proof.
  intros [Hh Hs]. unfold Buffer.cstrAfterCursor.
  rewrite to_size_t_nonneg by lia. reflexivity.
Qed.

Lemma increment_within (n : nat) (b : Buffer.t) :
  Sending.ready b ->
  Buffer.headCursor b + Z.of_nat n < Z.of_nat (Buffer.size_nat b) ->
  (Buffer.increment (Z.of_nat n) b).2
  = Buffer.mk (Buffer.buffer b) (Buffer.headCursor b + Z.of_nat n)
      (Buffer.rollbackCursor b).
Proof.
  intros [Hh Hs] Hn. unfold Buffer.increment, Int.add.
  rewrite wrap_id by (unfold Int.range; lia).
  rewrite lt_size_intro by lia.
  assert (H0 : (0 <=? Buffer.headCursor b + Z.of_nat n) = true)
    by (apply Z.leb_le; lia).
  now rewrite H0.
Qed.

Lemma send_loop_in_order (counts : list nat) (state : ConnectionState)
    (wire : list string) :
  let b := resBuffer state in
  Sending.ready b ->
  Buffer.headCursor b + Z.of_nat (sent_total counts)
    < Z.of_nat (Buffer.size_nat b) ->
  let r := Server.send_loop (Server.send_sent <$> counts) state wire in
  Parsing.whole (Server.res_wire r)
  = Parsing.whole wire
      +:+ str_take (sent_total counts) (Buffer.cstrAfterCursor b) /\
  Buffer.headCursor (resBuffer (Server.res_state r))
  = Buffer.headCursor b + Z.of_nat (sent_total counts).
Proof.
  revert state wire.
  induction counts as [|n counts IH]; intros state wire b Hb Hlt r.
  - subst r b. simpl. rewrite app_nil_r. split; [reflexivity|lia].
  - subst r. rewrite fmap_cons. cbn [Server.send_loop].
    simpl in Hlt.
    assert (Hn : Buffer.headCursor b + Z.of_nat n < Z.of_nat (Buffer.size_nat b))
      by lia.
    pose proof (increment_within n b Hb Hn) as Hinc. fold b.
    destruct (increment_ready (Z.of_nat n) b Hb) as (Hb' & _).
    set (state' := Server.with_resBuffer (Buffer.increment (Z.of_nat n) b).2
                     state).
    assert (Hsz : (Buffer.sizeAfterCursor (resBuffer state') <? 1) = false)
      by exact (ready_sizeAfterCursor _ Hb').
    rewrite Hsz.
    destruct (IH state' (wire ++ [str_take n (Buffer.cstrAfterCursor b)]))
      as [IH1 IH2].
    { exact Hb'. }
    { unfold state'. cbn [Server.with_resBuffer resBuffer].
      rewrite Hinc. unfold Buffer.size_nat in *. simpl. lia. }
    subst state'. cbn [Server.with_resBuffer resBuffer] in IH1, IH2.
    split.
    + rewrite IH1, whole_snoc, app_assoc. f_equal.
      rewrite (cstrAfterCursor_ready _ Hb').
      rewrite (cstrAfterCursor_ready _ Hb). rewrite Hinc. simpl.
      destruct Hb as [Hh _].
      replace (Z.to_nat (Buffer.headCursor b + Z.of_nat n))
        with (Z.to_nat (Buffer.headCursor b) + n)%nat by lia.
      rewrite <- str_drop_drop. apply str_take_take.
    + rewrite IH2, Hinc. simpl. lia.
Qed.

(** X15: As long as the sends together take less than what is left of the
    response, every send goes on where the one before stopped: what has
    been put on the wire is the response from the head cursor on, as far
    as the byte counts add up, nothing left out and nothing twice, and the
    head cursor has moved by that many bytes. *)
Theorem ProcessResponse_sends_in_order
    (enumerate : gmap string string -> list (string * string)) (now : Z)
    (counts : list nat) (state : ConnectionState) :
  let b := Sending.response_buffer enumerate now state in
  Sending.ready b ->
  Buffer.headCursor b + Z.of_nat (sent_total counts)
    < Z.of_nat (Buffer.size_nat b) ->
  let r := Server.ProcessResponse enumerate now (Server.send_sent <$> counts)
             state in
  Parsing.whole (Server.res_wire r)
  = str_take (sent_total counts) (Buffer.cstrAfterCursor b) /\
  Buffer.headCursor (resBuffer (Server.res_state r))
  = Buffer.headCursor b + Z.of_nat (sent_total counts).
Proof.
  intros b Hb Hlt r. subst r.
  destruct (ProcessResponse_send_loop enumerate now (Server.send_sent <$> counts)
              state) as [response' ->].
  exact (send_loop_in_order counts
           (mkConnectionState (fd state) (stage state) (reqBuffer state) b
              (request state) response') [] Hb Hlt).
Qed.

Lemma ProcessResponse_sends_in_order_witness :
  let state :=
    mkConnectionState 5 RES Buffer.init
      (Buffer.mk ("HTTP/1.1 400 Bad Request" +:+ CRLF +:+ CRLF) 0 0)
      Request.init Response.init in
  let r := Server.ProcessResponse map_to_list 0
             (Server.send_sent <$> [9; 4; 11]%nat) state in
  Parsing.whole (Server.res_wire r)
  = str_take (sent_total [9; 4; 11]%nat)
      (Buffer.cstrAfterCursor (Sending.response_buffer map_to_list 0 state)) /\
  Buffer.headCursor (resBuffer (Server.res_state r))
  = Buffer.headCursor (Sending.response_buffer map_to_list 0 state)
    + Z.of_nat (sent_total [9; 4; 11]%nat).
Proof.
  apply (ProcessResponse_sends_in_order map_to_list 0 [9; 4; 11]%nat
           (mkConnectionState 5 RES Buffer.init
              (Buffer.mk ("HTTP/1.1 400 Bad Request" +:+ CRLF +:+ CRLF) 0 0)
              Request.init Response.init)).
  - split; vm_compute; [split|]; congruence || reflexivity.
  - vm_compute. reflexivity.
Defined.

Lemma increment_refused (b : Buffer.t) :
  Sending.ready b ->
  (Buffer.increment
     (Z.of_nat (String.length (Buffer.cstrAfterCursor b))) b).2 = b.
Proof.
  intros Hb. rewrite (cstrAfterCursor_ready _ Hb). destruct Hb as [Hh Hs].
  rewrite str_drop_length. unfold Buffer.increment, Int.add.
  fold (Buffer.size_nat b).
  replace (Buffer.headCursor b
           + Z.of_nat (Buffer.size_nat b - Z.to_nat (Buffer.headCursor b)))
    with (Z.of_nat (Buffer.size_nat b)) by lia.
  rewrite wrap_id by (unfold Int.range; lia).
  unfold Int.lt_size. rewrite to_size_t_nonneg by lia.
  rewrite Z.ltb_irrefl. reflexivity.
Qed.

Lemma send_loop_again (k : nat) (state : ConnectionState) (wire : list string) :
  let b := resBuffer state in
  Sending.ready b ->
  let n := String.length (Buffer.cstrAfterCursor b) in
  Server.send_loop (replicate k (Server.send_sent n)) state wire
  = Server.mk_response_result true Server.res_would_block state
      (wire ++ replicate k (Buffer.cstrAfterCursor b)).
Proof.
  intros b Hb n. subst n. revert wire.
  induction k as [|k IH]; intros wire.
  - simpl. now rewrite (right_id_L [] (++)).
  - cbn [replicate Server.send_loop]. fold b.
    rewrite !(increment_refused b Hb).
    assert (Hstate : Server.with_resBuffer b state = state)
      by (unfold b; now destruct state).
    rewrite !Hstate. fold b. rewrite (ready_sizeAfterCursor _ Hb).
    rewrite IH. rewrite str_take_all.
    now rewrite <- (assoc_L (++)).
Qed.

(** X16: When the socket takes all that is left of the response, the response
    is not finished: the head cursor stays where it was, and the next
    [send] offers the same bytes again. If the socket takes them [k] times
    in a row, they are on the wire [k] times; the call then returns
    [true] because the socket would block, and the connection is as it was
    before the sends. *)
Theorem ProcessResponse_sends_again
    (enumerate : gmap string string -> list (string * string)) (now : Z)
    (k : nat) (state : ConnectionState) :
  let b := Sending.response_buffer enumerate now state in
  Sending.ready b ->
  let r := Server.ProcessResponse enumerate now
             (replicate k
                (Server.send_sent (String.length (Buffer.cstrAfterCursor b))))
             state in
  Server.res_wire r = replicate k (Buffer.cstrAfterCursor b) /\
  Server.res_exit r = Server.res_would_block /\
  Server.res_ret r = true /\
  resBuffer (Server.res_state r) = b /\
  stage (Server.res_state r) = stage state.
Proof.
  intros b Hb r. subst r b.
  destruct (ProcessResponse_send_loop enumerate now
              (replicate k
                 (Server.send_sent
                    (String.length
                       (Buffer.cstrAfterCursor
                          (Sending.response_buffer enumerate now state)))))
              state) as [response' ->].
  pose proof (send_loop_again k
                (mkConnectionState (fd state) (stage state) (reqBuffer state)
                   (Sending.response_buffer enumerate now state)
                   (request state) response') [] Hb) as H.
  cbv zeta in H. cbn [resBuffer] in H. rewrite H.
  simpl. repeat split.
Qed.

Lemma ProcessResponse_sends_again_witness :
  let state :=
    mkConnectionState 5 RES Buffer.init
      (Buffer.mk ("HTTP/1.1 400 Bad Request" +:+ CRLF +:+ CRLF) 0 0)
      Request.init Response.init in
  let b := Sending.response_buffer map_to_list 0 state in
  let r := Server.ProcessResponse map_to_list 0
             (replicate 3
                (Server.send_sent (String.length (Buffer.cstrAfterCursor b))))
             state in
  Server.res_wire r = replicate 3 (Buffer.cstrAfterCursor b) /\
  Server.res_exit r = Server.res_would_block /\
  Server.res_ret r = true /\
  resBuffer (Server.res_state r) = b /\
  stage (Server.res_state r) = stage state.
Proof.
  apply (ProcessResponse_sends_again map_to_list 0 3
           (mkConnectionState 5 RES Buffer.init
              (Buffer.mk ("HTTP/1.1 400 Bad Request" +:+ CRLF +:+ CRLF) 0 0)
              Request.init Response.init)).
  split; vm_compute; [split|]; congruence || reflexivity.
Defined.

(** ** The constructor *)

(** X17: The constructor never reports that reading the socket flags failed:
    the test after [fcntl(F_GETFL)] looks at [res], which still holds the
    result of [bind]. Whether the server object is constructed does not
    depend on the result of that call; a failure of it (-1) ends up in
    [sockFlags]. *)
Theorem Server_inet_ignores_getfl (calls : Server.inet_calls) :
  (forall text,
     Server.Server_inet calls
     ≠ Server.Runtime_error (Server.init_failure "read socket flags" text)) /\
  (forall coreSocket sockFlags,
     Server.Server_inet calls = Server.Constructed coreSocket sockFlags <->
     Server.inet_pton_res calls ≠ 0 /\ Server.inet_pton_res calls ≠ -1 /\
     0 <= Server.socket_res calls /\
     0 <= Server.setsockopt_reuse_res calls /\
     0 <= Server.setsockopt_rcvbuf_res calls /\
     0 <= Server.setsockopt_sndbuf_res calls /\
     0 <= Server.bind_res calls /\ 0 <= Server.fcntl_setfl_res calls /\
     coreSocket = Server.socket_res calls /\
     sockFlags = Z.lor (Server.fcntl_getfl_res calls) Server.O_NONBLOCK).
Proof.
  unfold Server.Server_inet, FileDescriptor.getfd.
  destruct (Z.eqb_spec (Server.inet_pton_res calls) 0) as [H1|H1].
  { split; [intros text [=]|]. intros s f. split; [discriminate|tauto]. }
  destruct (Z.eqb_spec (Server.inet_pton_res calls) (-1)) as [H2|H2].
  { split; [intros text [=]|]. intros s f. split; [discriminate|tauto]. }
  destruct (Z.ltb_spec (Server.socket_res calls) 0) as [H3|H3].
  { split; [intros text [=]|]. intros s f. split; [discriminate|lia]. }
  destruct (Z.ltb_spec (Server.setsockopt_reuse_res calls) 0) as [H4|H4].
  { split; [intros text [=]|]. intros s f. split; [discriminate|lia]. }
  destruct (Z.ltb_spec (Server.setsockopt_rcvbuf_res calls) 0) as [H5|H5].
  { split; [intros text [=]|]. intros s f. split; [discriminate|lia]. }
  destruct (Z.ltb_spec (Server.setsockopt_sndbuf_res calls) 0) as [H6|H6].
  { split; [intros text [=]|]. intros s f. split; [discriminate|lia]. }
  destruct (Z.ltb_spec (Server.bind_res calls) 0) as [H7|H7].
  { split; [intros text [=]|]. intros s f. split; [discriminate|lia]. }
  destruct (Z.ltb_spec (Server.fcntl_setfl_res calls) 0) as [H8|H8].
  { split; [intros text [=]|]. intros s f. split; [discriminate|lia]. }
  split; [discriminate|]. intros s f. split.
  - intros [= <- <-]. repeat split; assumption.
  - intros (_ & _ & _ & _ & _ & _ & _ & _ & -> & ->). reflexivity.
Qed.

(** ** The event loop *)

Lemma ProcessRequest_kept (socket : list Server.recv_result)
    (state : ConnectionState) :
  Parsing.parse_ready (reqBuffer state) ->
  Z.of_nat (Buffer.size_nat (reqBuffer state) + Parsing.received socket) < 2^63 ->
  Serving.untouched state ->
  exists ret state',
    Server.ProcessRequest socket state = Some (ret, state') /\
    fd state' = fd state /\
    (Serving.untouched state' \/ Serving.answers_400 state') /\
    Parsing.parse_ready (reqBuffer state') /\
    (Buffer.size_nat (reqBuffer state')
     <= Buffer.size_nat (reqBuffer state) + Parsing.received socket)%nat.
Proof.
  revert state. induction socket as [|r socket IH]; intros state Hb Hs Hu.
  - exists true, state. simpl.
    split; [reflexivity|]. split; [reflexivity|]. split; [now left|].
    split; [exact Hb|lia].
  - destruct r as [bytes| |]; simpl in *.
    + assert (Hb1 : Parsing.parse_ready (Buffer.append_cstr bytes (reqBuffer state))).
      { apply append_ready; [exact Hb|lia]. }
      destruct (DeserializeRequest_total _ (request state) Hb1)
        as (o & -> & Hbuf & Hb' & _).
      assert (Hsize : Buffer.size_nat (Parsing.outcome_buffer o)
                = (Buffer.size_nat (reqBuffer state)
                   + String.length (c_str bytes))%nat).
      { unfold Buffer.size_nat in *. rewrite Hbuf.
        unfold Buffer.append_cstr. simpl. now rewrite app_length. }
      destruct o as [e b' request'|what b' request']; simpl in *.
      * destruct (Buffer.sizeBeforeCursor b' >? Server.maxHeaderSize).
        { eexists _, _. split; [reflexivity|]. simpl.
          split; [reflexivity|]. split; [right; repeat split|].
          split; [exact Hb'|lia]. }
        destruct (IH (Server.with_parse b' request' state))
          as (ret & st & H & Hfd & Hst & Hb2 & Hsz).
        { exact Hb'. }
        { simpl. lia. }
        { exact Hu. }
        exists ret, st. split; [exact H|]. simpl in *.
        split; [exact Hfd|]. split; [exact Hst|]. split; [exact Hb2|lia].
      * eexists _, _. split; [reflexivity|]. simpl.
        split; [reflexivity|]. split; [right; repeat split|].
        split; [exact Hb'|lia].
    + exists true, state.
      split; [reflexivity|]. split; [reflexivity|]. split; [now left|].
      split; [exact Hb|lia].
    + exists false, state.
      split; [reflexivity|]. split; [reflexivity|]. split; [now left|].
      split; [exact Hb|lia].
Qed.

Lemma send_loop_kept (socket : list Server.send_result)
    (state : ConnectionState) (wire : list string) :
  let r := Server.send_loop socket state wire in
  fd (Server.res_state r) = fd state /\
  (stage (Server.res_state r) = stage state /\
   response (Server.res_state r) = response state /\
   reqBuffer (Server.res_state r) = reqBuffer state \/
   Server.res_state r = fresh_connection (fd state) REQ).
Proof.
  revert state wire.
  induction socket as [|[n| |] socket IH]; intros state wire;
    cbn [Server.send_loop].
  - cbn [Server.res_state]. auto.
  - destruct (Buffer.sizeAfterCursor _ <? 1).
    + destruct (Request.getHeader "Connection" _) as [value request'].
      destruct (String.eqb value "close"); cbn [Server.res_state];
        unfold Server.with_request, Server.with_resBuffer;
        cbn [fd stage response reqBuffer]; auto.
    + specialize (IH (Server.with_resBuffer
                        (Buffer.increment (Z.of_nat n) (resBuffer state)).2
                        state)
                    (wire ++ [str_take n
                                (Buffer.cstrAfterCursor (resBuffer state))])).
      unfold Server.with_resBuffer in IH at 2 3 4 5 6.
      cbn [fd stage response reqBuffer] in IH. exact IH.
  - cbn [Server.res_state]. auto.
  - cbn [Server.res_state]. auto.
Qed.

Lemma ProcessResponse_kept
    (enumerate : gmap string string -> list (string * string)) (now : Z)
    (socket : list Server.send_result) (state : ConnectionState) :
  Serving.answers_400 state ->
  let r := Server.ProcessResponse enumerate now socket state in
  fd (Server.res_state r) = fd state /\
  (Serving.answers_400 (Server.res_state r) /\
   reqBuffer (Server.res_state r) = reqBuffer state \/
   Server.res_state r = fresh_connection (fd state) REQ).
Proof.
  intros (Hst & Hcode & Hreason). unfold Server.ProcessResponse.
  destruct (Buffer.empty (resBuffer state)).
  - match goal with |- context [Server.send_loop socket ?s []] =>
      destruct (send_loop_kept socket s []) as [Hfd Hr] end.
    simpl in Hfd, Hr. split; [exact Hfd|].
    destruct Hr as [(H1 & H2 & H3)|Hr]; [left|now right].
    split; [|exact H3]. unfold Serving.answers_400. rewrite H1, H2. simpl.
    auto.
  - destruct (send_loop_kept socket state []) as [Hfd Hr].
    split; [exact Hfd|].
    destruct Hr as [(H1 & H2 & H3)|Hr]; [left|now right].
    split; [|exact H3]. unfold Serving.answers_400. rewrite H1, H2. auto.
Qed.

(** Sets of descriptors. *)

Lemma difference_mono (X Y : gset Z) (x : Z) : X ⊆ Y -> X ∖ {[ x ]} ⊆ Y ∖ {[ x ]}.
Proof.
  intros H y. rewrite !elem_of_difference. intros [H1 H2].
  split; [now apply H|exact H2].
Qed.

Lemma difference_below (X : gset Z) (x : Z) : X ∖ {[ x ]} ⊆ X.
Proof. intros y. rewrite elem_of_difference. now intros [H1 _]. Qed.

Lemma union_mono (X Y : gset Z) (x : Z) : X ⊆ Y -> {[ x ]} ∪ X ⊆ {[ x ]} ∪ Y.
Proof.
  intros H y. rewrite !elem_of_union. intros [H1|H1]; [now left|].
  right. now apply H.
Qed.

Lemma union_above (X : gset Z) (x : Z) : X ⊆ {[ x ]} ∪ X.
Proof. intros y Hy. apply elem_of_union. now right. Qed.

Lemma union_difference_below (X : gset Z) (x : Z) : ({[ x ]} ∪ X) ∖ {[ x ]} ⊆ X.
Proof.
  intros y. rewrite elem_of_difference, elem_of_union.
  intros [[H1|H1] H2]; [contradiction|exact H1].
Qed.

Lemma unwind_spec (conStateMap : gmap Z ConnectionState) (fds : gset Z) (x : Z) :
  x ∈ Server.unwind conStateMap fds ->
  x ∈ fds /\ forall key state, conStateMap !! key = Some state -> fd state ≠ x.
Proof.
  unfold Server.unwind.
  apply (map_fold_weak_ind
           (fun r m => x ∈ r ->
              x ∈ fds /\ forall key state, m !! key = Some state -> fd state ≠ x)).
  - intros Hx. split; [exact Hx|]. intros key state. now rewrite lookup_empty.
  - intros key state m r Hnone IH Hx.
    unfold FileDescriptor.destroy, FileDescriptor.close in Hx.
    apply elem_of_difference in Hx as [Hx Hne].
    destruct (IH Hx) as [Hfds Hm]. split; [exact Hfds|].
    intros key' state' Hl.
    destruct (decide (key' = key)) as [->|Hkey].
    + rewrite lookup_insert_eq in Hl. injection Hl as <-.
      intros Heq. apply Hne. rewrite Heq. now apply elem_of_singleton.
    + rewrite lookup_insert_ne in Hl by congruence. now apply (Hm key').
Qed.

Lemma unwind_kept (budget : nat) (conStateMap : gmap Z ConnectionState)
    (fds : gset Z) :
  Serving.kept budget conStateMap fds -> Server.unwind conStateMap fds = ∅.
Proof.
  intros [Hm Hfds]. apply set_eq. intros x.
  split; [|intros Hx; now apply elem_of_empty in Hx].
  intros Hx. apply unwind_spec in Hx as [Hx Hne]. exfalso.
  apply Hfds in Hx. apply elem_of_dom in Hx as [state Hl].
  apply (Hne x state Hl). now destruct (Hm x state Hl) as [[Hfd _] _].
Qed.

Lemma kept_less (budget budget' : nat) (conStateMap : gmap Z ConnectionState)
    (fds : gset Z) :
  (budget' <= budget)%nat ->
  Serving.kept budget conStateMap fds -> Serving.kept budget' conStateMap fds.
Proof.
  intros Hle [Hm Hfds]. split; [|exact Hfds].
  intros key state Hl. destruct (Hm key state Hl) as (H1 & H2 & H3).
  split; [exact H1|]. split; [exact H2|lia].
Qed.

Lemma kept_delete (budget : nat) (conStateMap : gmap Z ConnectionState)
    (fds : gset Z) (key : Z) :
  Serving.kept budget conStateMap fds ->
  Serving.kept budget (delete key conStateMap)
    (FileDescriptor.destroy key fds).
Proof.
  intros [Hm Hfds]. split.
  - intros key' state Hl. apply lookup_delete_Some in Hl as [_ Hl].
    now apply Hm.
  - unfold FileDescriptor.destroy, FileDescriptor.close.
    rewrite dom_delete_L. now apply difference_mono.
Qed.

Lemma kept_insert (budget : nat) (conStateMap : gmap Z ConnectionState)
    (fds : gset Z) (key : Z) (state : ConnectionState) :
  Serving.kept budget conStateMap fds ->
  Serving.managed key state -> Parsing.parse_ready (reqBuffer state) ->
  Z.of_nat (Buffer.size_nat (reqBuffer state) + budget) < 2^63 ->
  Serving.kept budget (<[key := state]> conStateMap) ({[ key ]} ∪ fds).
Proof.
  intros [Hm Hfds] H1 H2 H3. split.
  - intros key' state' Hl.
    destruct (decide (key' = key)) as [->|Hkey].
    + rewrite lookup_insert_eq in Hl. injection Hl as <-. auto.
    + rewrite lookup_insert_ne in Hl by congruence. now apply Hm.
  - rewrite dom_insert_L. now apply union_mono.
Qed.

Lemma kept_subset (budget : nat) (conStateMap : gmap Z ConnectionState)
    (fds fds' : gset Z) :
  fds' ⊆ fds ->
  Serving.kept budget conStateMap fds -> Serving.kept budget conStateMap fds'.
Proof.
  intros Hsub [Hm Hfds]. split; [exact Hm|]. now transitivity fds.
Qed.

Lemma init_ready : Parsing.parse_ready Buffer.init.
Proof. repeat split; vm_compute; congruence. Qed.

Lemma handle_core_kept (budget : nat) (ev : Server.event)
    (conStateMap : gmap Z ConnectionState) (fds : gset Z) :
  Z.of_nat budget < 2^63 ->
  Serving.kept budget conStateMap fds ->
  Serving.served_kept budget (Server.handle_core ev conStateMap fds).
Proof.
  intros Hbudget Hk. unfold Server.handle_core.
  destruct (Server.flagged (Server.ev_events ev) Server.EPOLLERR).
  { destruct (Server.ev_getsockopt ev <? 0); simpl; now apply unwind_kept with budget. }
  destruct (Server.flagged (Server.ev_events ev) Server.EPOLLHUP).
  { simpl. now apply unwind_kept with budget. }
  unfold FileDescriptor.getfd, FileDescriptor.move, FileDescriptor.move_assign,
    FileDescriptor.destroy, FileDescriptor.close.
  set (a := Server.ev_accept ev).
  destruct (Z.ltb_spec 0 a) as [Hpos|Hneg]; simpl.
  - assert (H0 : (0 <=? a) = true) by (apply Z.leb_le; lia). rewrite H0.
    destruct (Server.ev_epoll_ctl ev =? 0); simpl.
    + apply (kept_subset budget _ ({[ a ]} ∪ fds));
        [|apply kept_insert; [exact Hk| | |]].
      * destruct (negb _).
        -- do 3 (etransitivity; [apply difference_below|]). reflexivity.
        -- do 2 (etransitivity; [apply difference_below|]). reflexivity.
      * split; [reflexivity|]. split; [exact Hpos|]. left. split; reflexivity.
      * exact init_ready.
      * simpl. exact Hbudget.
    + apply (kept_subset budget _ fds); [|exact Hk].
      apply union_difference_below.
  - destruct (0 <=? a); (apply (kept_subset budget _ fds); [|exact Hk]).
    + apply union_difference_below.
    + apply difference_below.
Qed.

Lemma handle_connection_kept
    (enumerate : gmap string string -> list (string * string))
    (budget : nat) (ev : Server.event)
    (conStateMap : gmap Z ConnectionState) (fds : gset Z) :
  Serving.kept (Parsing.received (Server.ev_recv ev) + budget) conStateMap fds ->
  exists r, Server.handle_connection enumerate ev conStateMap fds = Some r /\
            Serving.served_kept budget r.
Proof.
  intros Hk.
  assert (Hk' : Serving.kept budget conStateMap fds)
    by (eapply kept_less; [|exact Hk]; lia).
  unfold Server.handle_connection, Server.dispatch_event.
  destruct (conStateMap !! Server.ev_fd ev) as [state|] eqn:Hl;
    [|eexists; split; [reflexivity|exact Hk']].
  destruct (proj1 Hk _ _ Hl) as ((Hfd & Hpos & Hst) & Hb & Hs).
  destruct (_ || _).
  { eexists. split; [reflexivity|]. simpl. rewrite Hfd.
    now apply kept_delete. }
  destruct (stage state) eqn:Hstage.
  - destruct (Server.flagged _ Server.EPOLLIN);
      [|eexists; split; [reflexivity|exact Hk']].
    assert (Hu : Serving.untouched state).
    { destruct Hst as [Hu|[Hr _]]; [exact Hu|congruence]. }
    destruct (ProcessRequest_kept (Server.ev_recv ev) state Hb)
      as (ret & state' & -> & Hfd' & Hst' & Hb' & Hsz); [lia|exact Hu|].
    destruct ret; eexists; (split; [reflexivity|]); simpl.
    + eapply kept_subset;
        [|apply (kept_insert budget conStateMap fds (Server.ev_fd ev) state' Hk')].
      * apply union_above.
      * split; [congruence|]. split; [exact Hpos|exact Hst'].
      * exact Hb'.
      * lia.
    + rewrite Hfd', Hfd. now apply kept_delete.
  - eexists; split; [reflexivity|exact Hk'].
  - destruct (Server.flagged _ Server.EPOLLIN);
      [|eexists; split; [reflexivity|exact Hk']].
    assert (Ha : Serving.answers_400 state).
    { destruct Hst as [[Hu _]|Ha]; [congruence|exact Ha]. }
    destruct (ProcessResponse_kept enumerate (Server.ev_now ev)
                (Server.ev_send ev) state Ha) as [Hfd' Hr].
    destruct (Server.res_ret _); eexists; (split; [reflexivity|]); simpl.
    + eapply kept_subset;
        [|apply (kept_insert budget conStateMap fds (Server.ev_fd ev) _ Hk')].
      * apply union_above.
      * split; [congruence|]. split; [exact Hpos|].
        destruct Hr as [[Hr _]| ->]; [now right|left; split; reflexivity].
      * destruct Hr as [[_ ->]| ->]; [exact Hb|exact init_ready].
      * destruct Hr as [[_ ->]| ->]; [lia|].
        simpl. destruct Hb as [(_ & _ & Hlen) _]. lia.
    + rewrite Hfd', Hfd. now apply kept_delete.
Qed.

Lemma handle_events_kept
    (enumerate : gmap string string -> list (string * string))
    (coreSocket : Z) (budget : nat) (conEvents : list Server.event)
    (conStateMap : gmap Z ConnectionState) (fds : gset Z) :
  Z.of_nat (Serving.received_by conEvents + budget) < 2^63 ->
  Serving.kept (Serving.received_by conEvents + budget) conStateMap fds ->
  exists r,
    Server.handle_events enumerate coreSocket conEvents conStateMap fds = Some r /\
    Serving.served_kept budget r.
Proof.
  revert conStateMap fds.
  induction conEvents as [|ev conEvents IH]; intros conStateMap fds Hb Hk.
  - eexists. split; [reflexivity|exact Hk].
  - simpl in Hb, Hk. simpl. unfold Server.handle_event.
    assert (Hstep : exists r,
      (if Server.ev_fd ev =? coreSocket
       then Some (Server.handle_core ev conStateMap fds)
       else Server.handle_connection enumerate ev conStateMap fds) = Some r /\
      Serving.served_kept (Serving.received_by conEvents + budget) r).
    { destruct (Server.ev_fd ev =? coreSocket).
      - eexists. split; [reflexivity|].
        apply handle_core_kept; [lia|]. eapply kept_less; [|exact Hk]. lia.
      - apply handle_connection_kept.
        eapply kept_less; [|exact Hk]. lia. }
    destruct Hstep as (r & -> & Hr).
    destruct r as [m' fds'|fds'|what fds'].
    + apply IH; [lia|exact Hr].
    + eexists. split; [reflexivity|exact Hr].
    + eexists. split; [reflexivity|exact Hr].
Qed.

Lemma event_loop_kept
    (enumerate : gmap string string -> list (string * string))
    (coreSocket : Z) (waits : list Server.wait_result)
    (conStateMap : gmap Z ConnectionState) (fds : gset Z) :
  Z.of_nat (Serving.received_in waits) < 2^63 ->
  Serving.kept (Serving.received_in waits) conStateMap fds ->
  exists r,
    Server.event_loop enumerate coreSocket waits conStateMap fds = Some r /\
    Serving.served_kept 0 r.
Proof.
  revert conStateMap fds.
  induction waits as [|[text|conEvents] waits IH]; intros conStateMap fds Hb Hk.
  - eexists. split; [reflexivity|exact Hk].
  - eexists. split; [reflexivity|]. simpl. simpl in Hk.
    now apply unwind_kept with (Serving.received_in waits).
  - simpl in Hb, Hk. simpl.
    destruct (handle_events_kept enumerate coreSocket
                (Serving.received_in waits) conEvents conStateMap fds Hb Hk)
      as (r & -> & Hr).
    destruct r as [m' fds'|fds'|what fds'].
    + apply IH; [lia|exact Hr].
    + eexists. split; [reflexivity|exact Hr].
    + eexists. split; [reflexivity|exact Hr].
Qed.

Lemma Serve_kept
    (enumerate : gmap string string -> list (string * string))
    (coreSocket : Z) (setup : Server.serve_setup)
    (waits : list Server.wait_result) :
  Z.of_nat (Serving.received_in waits) < 2^63 ->
  exists r, Server.Serve enumerate coreSocket setup waits = Some r /\
            Serving.served_kept 0 r.
Proof.
  intros Hb. unfold Server.Serve.
  destruct (Server.listen_res setup <? 0);
    [eexists; split; [reflexivity|reflexivity]|].
  destruct (Server.epoll_create1_res setup <? 0);
    [eexists; split; [reflexivity|reflexivity]|].
  destruct (Server.epoll_ctl_res setup <? 0);
    [eexists; split; [reflexivity|reflexivity]|].
  apply event_loop_kept; [exact Hb|]. split.
  - intros key state. now rewrite lookup_empty.
  - rewrite dom_empty_L. reflexivity.
Qed.

(** X18: Whatever events arrive and whatever the system calls return, every
    connection that [Serve] holds in [conStateMap] is stored under its own
    descriptor, which is positive, and is in one of two conditions: in
    stage REQ with the response untouched, or in stage RES with the
    response of [ProcessRequest], 400 Bad Request. No connection is ever in
    stage FUNC, and no other response is ever prepared. *)
Theorem Serve_answers_only_400
    (enumerate : gmap string string -> list (string * string))
    (coreSocket : Z) (setup : Server.serve_setup)
    (waits : list Server.wait_result) :
  Z.of_nat (Serving.received_in waits) < 2^63 ->
  exists r,
    Server.Serve enumerate coreSocket setup waits = Some r /\
    forall conStateMap fds key state,
      r = Server.Running conStateMap fds ->
      conStateMap !! key = Some state ->
      Serving.managed key state /\ stage state ≠ FUNC.
Proof.
  intros Hb.
  destruct (Serve_kept enumerate coreSocket setup waits Hb) as (r & Hr & Hk).
  exists r. split; [exact Hr|].
  intros conStateMap fds key state -> Hl.
  destruct (proj1 Hk key state Hl) as [Hm _]. split; [exact Hm|].
  destruct Hm as (_ & _ & [[-> _]|[-> _]]); discriminate.
Qed.

(** X19: [Serve] leaks no connection descriptor: while it runs, every
    connection descriptor that is open is a key of [conStateMap] (a
    descriptor that [accept] returned and that was not registered has been
    closed), and when it returns or throws, all of them are closed. *)
Theorem Serve_leaks_no_descriptor
    (enumerate : gmap string string -> list (string * string))
    (coreSocket : Z) (setup : Server.serve_setup)
    (waits : list Server.wait_result) :
  Z.of_nat (Serving.received_in waits) < 2^63 ->
  exists r,
    Server.Serve enumerate coreSocket setup waits = Some r /\
    match r with
    | Server.Running conStateMap fds => fds ⊆ dom conStateMap
    | Server.Exited fds | Server.Failed _ fds => fds = ∅
    end.
Proof.
  intros Hb.
  destruct (Serve_kept enumerate coreSocket setup waits Hb) as (r & Hr & Hk).
  exists r. split; [exact Hr|].
  destruct r as [m fds|fds|what fds]; [exact (proj2 Hk)|exact Hk|exact Hk].
Qed.

Lemma Serve_answers_only_400_witness :
  exists r,
    Server.Serve map_to_list 3 (Server.mk_serve_setup 0 4 0 "")
      [Server.wait_events
         [Server.mk_event Server.EPOLLIN 3 0 "" 5 0 [] 0 [];
          Server.mk_event Server.EPOLLIN 5 0 "" 0 0
            [Server.recv_bytes ("GET / HTTP/1.1" +:+ CRLF +:+ "A:b" +:+ CRLF)]
            0 []];
       Server.wait_events
         [Server.mk_event Server.EPOLLIN 5 0 "" 0 0 [] 0
            [Server.send_sent 20]]]
    = Some r /\
    forall conStateMap fds key state,
      r = Server.Running conStateMap fds ->
      conStateMap !! key = Some state ->
      Serving.managed key state /\ stage state ≠ FUNC.
Proof.
  apply (Serve_answers_only_400 map_to_list 3 (Server.mk_serve_setup 0 4 0 "")).
  vm_compute. reflexivity.
Defined.

Lemma Serve_leaks_no_descriptor_witness :
  exists r,
    Server.Serve map_to_list 3 (Server.mk_serve_setup 0 4 0 "")
      [Server.wait_events
         [Server.mk_event Server.EPOLLIN 3 0 "" 5 0 [] 0 [];
          Server.mk_event Server.EPOLLIN 3 0 "" 6 (-1) [] 0 [];
          Server.mk_event Server.EPOLLHUP 5 0 "" 0 0 [] 0 []];
       Server.wait_failed "Interrupted system call"]
    = Some r /\
    match r with
    | Server.Running conStateMap fds => fds ⊆ dom conStateMap
    | Server.Exited fds | Server.Failed _ fds => fds = ∅
    end.
Proof.
  apply (Serve_leaks_no_descriptor map_to_list 3
           (Server.mk_serve_setup 0 4 0 "")).
  vm_compute. reflexivity.
Defined.

(** ** [Kill] *)

Lemma handle_connection_runs
    (enumerate : gmap string string -> list (string * string))
    (ev : Server.event) (conStateMap : gmap Z ConnectionState) (fds : gset Z)
    (r : Server.served) :
  Server.handle_connection enumerate ev conStateMap fds = Some r ->
  exists conStateMap' fds', r = Server.Running conStateMap' fds'.
Proof.
  unfold Server.handle_connection.
  destruct (Server.dispatch_event _ _ _),
    (conStateMap !! Server.ev_fd ev) as [state|];
    try (intros [= <-]; eauto).
  - destruct (Server.ProcessRequest _ _) as [[[] state']|]; [| |discriminate];
      intros [= <-]; eauto.
  - destruct (Server.res_ret _); intros [= <-]; eauto.
Qed.

Lemma handle_events_runs
    (enumerate : gmap string string -> list (string * string))
    (conEvents : list Server.event) (conStateMap : gmap Z ConnectionState)
    (fds : gset Z) (r : Server.served) :
  Forall (fun ev => 0 <= Server.ev_fd ev) conEvents ->
  Server.handle_events enumerate (-1) conEvents conStateMap fds = Some r ->
  exists conStateMap' fds', r = Server.Running conStateMap' fds'.
Proof.
  intros Hvalid. revert conStateMap fds.
  induction Hvalid as [|ev conEvents Hev _ IH]; intros conStateMap fds.
  - intros [= <-]. eauto.
  - simpl. unfold Server.handle_event.
    destruct (Z.eqb_spec (Server.ev_fd ev) (-1)) as [Heq|_]; [lia|].
    destruct (Server.handle_connection enumerate ev conStateMap fds) as [r1|]
      eqn:H1; [|discriminate].
    apply handle_connection_runs in H1 as (m1 & fds1 & ->). apply IH.
Qed.

(** X20: After [Kill()] the core socket object holds -1. From then on no event
    of a valid descriptor is taken for an event of the core socket: the
    branches of the core socket, among them the one that makes [Serve]
    return when the core socket hangs up, are out of reach. The loop goes on
    until [epoll_wait] fails, and then throws the error of that call. *)
Theorem Serve_does_not_return_after_Kill
    (enumerate : gmap string string -> list (string * string))
    (coreSocket : Z) (kernel : gset Z) (waits : list Server.wait_result)
    (conStateMap : gmap Z ConnectionState) (fds : gset Z)
    (r : Server.served) :
  Serving.valid_events waits ->
  Server.event_loop enumerate (Server.Kill coreSocket kernel).1 waits
    conStateMap fds = Some r ->
  (exists conStateMap' fds', r = Server.Running conStateMap' fds') \/
  (exists strerror fds',
     Server.wait_failed strerror ∈ waits /\
     r = Server.Failed
           (Server.run_failure "wait for incoming events" strerror) fds').
Proof.
  intros Hvalid. change (Server.Kill coreSocket kernel).1 with (-1).
  revert conStateMap fds.
  induction Hvalid as [|[text|conEvents] waits Hw _ IH];
    intros conStateMap fds.
  - intros [= <-]. left. eauto.
  - intros [= <-]. right. exists text. eexists. split; [|reflexivity].
    apply list_elem_of_here.
  - simpl.
    destruct (Server.handle_events enumerate (-1) conEvents conStateMap fds)
      as [r1|] eqn:H1; [|discriminate].
    apply handle_events_runs in H1 as (m1 & fds1 & ->); [|exact Hw].
    intros H. apply IH in H as [H|(text & fds' & Hin & ->)]; [left; exact H|].
    right. exists text, fds'. split; [|reflexivity].
    apply list_elem_of_further, Hin.
Qed.

Lemma Serve_does_not_return_after_Kill_witness :
  let waits :=
    [Server.wait_events
       [Server.mk_event Server.EPOLLHUP 3 0 "" 0 0 [] 0 []];
     Server.wait_failed "Interrupted system call"] in
  let r :=
    Server.Failed
      (Server.run_failure "wait for incoming events" "Interrupted system call")
      ∅ in
  Serving.valid_events waits /\
  Server.event_loop map_to_list (Server.Kill 3 {[ 3 ]}).1 waits ∅ ∅ = Some r /\
  ((exists conStateMap' fds', r = Server.Running conStateMap' fds') \/
   (exists strerror fds',
      Server.wait_failed strerror ∈ waits /\
      r = Server.Failed
            (Server.run_failure "wait for incoming events" strerror) fds')).
Proof.
  assert (Hvalid : Serving.valid_events
                [Server.wait_events
                   [Server.mk_event Server.EPOLLHUP 3 0 "" 0 0 [] 0 []];
                 Server.wait_failed "Interrupted system call"]).
  { repeat constructor. simpl. lia. }
  assert (Hrun : Server.event_loop map_to_list (Server.Kill 3 {[ 3 ]}).1
                [Server.wait_events
                   [Server.mk_event Server.EPOLLHUP 3 0 "" 0 0 [] 0 []];
                 Server.wait_failed "Interrupted system call"] ∅ ∅
              = Some (Server.Failed
                        (Server.run_failure "wait for incoming events"
                           "Interrupted system call") ∅)).
  { reflexivity. }
  split; [exact Hvalid|]. split; [exact Hrun|].
  exact (Serve_does_not_return_after_Kill map_to_list 3 {[ 3 ]} _ ∅ ∅ _
           Hvalid Hrun).
Defined.

(** ** [BodyReader::read] *)

Lemma str_take_length (n : nat) (s : string) :
  String.length (str_take n s) = Nat.min n (String.length s).
Proof.
  revert s. induction n as [|n IH]; intros [|c s]; simpl; auto.
Qed.

Lemma str_take_drop (n : nat) (s : string) : str_take n s +:+ str_drop n s = s.
Proof.
  revert s. induction n as [|n IH]; intros [|c s]; simpl; auto.
  rewrite app_cons. now rewrite IH.
Qed.

Lemma read_loop_returns (socket : list Server.recv_result) (size : Z)
    (reader : BodyReader.t) (slice : string) (reader' : BodyReader.t)
    (socket' : list Server.recv_result) :
  0 <= size <= BodyReader.bodySize reader ->
  0 < BodyReader.bodySize reader < 2^31 ->
  BodyReader.read_loop socket size reader
  = BodyReader.Returned slice reader' socket' ->
  exists segments,
    socket = (Server.recv_bytes <$> segments) ++ socket' /\
    slice +:+ BodyReader.readBuffer reader'
    = BodyReader.readBuffer reader +:+ BodyReader.delivered segments /\
    Z.of_nat (String.length slice) = size /\
    BodyReader.bodySize reader'
    = BodyReader.bodySize reader - Z.of_nat (String.length slice).
Proof.
  revert reader.
  induction socket as [|r socket IH]; intros reader Hsize Hbody.
  - simpl.
    assert (H0 : (BodyReader.bodySize reader <=? 0) = false)
      by (apply Z.leb_gt; lia).
    rewrite H0. rewrite to_size_t_nonneg by lia.
    destruct (Z.leb_spec size (Z.of_nat (String.length (BodyReader.readBuffer reader))))
      as [Hle|Hgt]; [|discriminate].
    intros [= <- <- <-]. exists []. simpl.
    split; [reflexivity|]. rewrite app_nil_r.
    split; [apply str_take_drop|].
    rewrite str_take_length. split; [lia|].
    unfold Int.sub. rewrite wrap_id by (unfold Int.range; lia). lia.
  - simpl.
    assert (H0 : (BodyReader.bodySize reader <=? 0) = false)
      by (apply Z.leb_gt; lia).
    rewrite H0. rewrite to_size_t_nonneg by lia.
    destruct (Z.leb_spec size (Z.of_nat (String.length (BodyReader.readBuffer reader))))
      as [Hle|Hgt].
    + intros [= <- <- <-]. exists []. simpl.
      split; [reflexivity|]. rewrite app_nil_r.
      split; [apply str_take_drop|].
      rewrite str_take_length. split; [lia|].
      unfold Int.sub. rewrite wrap_id by (unfold Int.range; lia). lia.
    + destruct r as [bytes| |]; [|discriminate|discriminate].
      intros Hr. apply IH in Hr as (segments & -> & Hcat & Hlen & Hleft);
        [|exact Hsize|exact Hbody].
      exists (bytes :: segments). simpl in *.
      split; [reflexivity|]. split; [|split; [exact Hlen|exact Hleft]].
      rewrite Hcat. unfold BodyReader.delivered. simpl.
      now rewrite app_assoc.
Qed.

(** X21: When [read(size)] returns from a reader with a body left, it returns
    the next bytes of the stream: [size] of them, or what is left of the
    body if that is less; the bytes received and not returned stay in
    [readBuffer], in order, and [bodySize] goes down by the number of bytes
    returned. Nothing is lost, repeated or reordered. *)
Theorem BodyReader_read_returns_next_bytes (size : Z) (reader : BodyReader.t)
    (socket : list Server.recv_result) (slice : string)
    (reader' : BodyReader.t) (socket' : list Server.recv_result) :
  0 <= size < 2^31 ->
  0 < BodyReader.bodySize reader < 2^31 ->
  BodyReader.read size reader socket
  = BodyReader.Returned slice reader' socket' ->
  exists segments,
    socket = (Server.recv_bytes <$> segments) ++ socket' /\
    slice +:+ BodyReader.readBuffer reader'
    = BodyReader.readBuffer reader +:+ BodyReader.delivered segments /\
    Z.of_nat (String.length slice) = Z.min size (BodyReader.bodySize reader) /\
    BodyReader.bodySize reader'
    = BodyReader.bodySize reader - Z.of_nat (String.length slice).
Proof.
  intros Hsize Hbody. unfold BodyReader.read.
  destruct (Z.gtb_spec size (BodyReader.bodySize reader)) as [Hgt|Hle];
    intros Hr; apply read_loop_returns in Hr as (segments & H1 & H2 & H3 & H4);
    try lia; exists segments; (split; [exact H1|]); (split; [exact H2|]);
    (split; [lia|exact H4]).
Qed.

Lemma BodyReader_read_returns_next_bytes_witness :
  exists segments,
    [Server.recv_bytes "name="; Server.recv_bytes "value&x=1";
     Server.recv_would_block]
    = (Server.recv_bytes <$> segments) ++ [Server.recv_would_block] /\
    "a=b&name=v" +:+ BodyReader.readBuffer (BodyReader.mk 8192 7 "alue&x=1")
    = BodyReader.readBuffer (BodyReader.mk 8192 17 "a=b&")
        +:+ BodyReader.delivered segments /\
    Z.of_nat (String.length "a=b&name=v")
    = Z.min 10 (BodyReader.bodySize (BodyReader.mk 8192 17 "a=b&")) /\
    BodyReader.bodySize (BodyReader.mk 8192 7 "alue&x=1")
    = BodyReader.bodySize (BodyReader.mk 8192 17 "a=b&")
      - Z.of_nat (String.length "a=b&name=v").
Proof.
  apply (BodyReader_read_returns_next_bytes 10 (BodyReader.mk 8192 17 "a=b&")
           [Server.recv_bytes "name="; Server.recv_bytes "value&x=1";
            Server.recv_would_block]).
  - lia.
  - simpl. lia.
  - reflexivity.
Defined.
